(** * Glyph resonance interface: text scoring and glyph animation

    A shallow embedding of [src/lib/glyph-renderer.ts] (the classes
    [GlyphRenderer], [Particle] and [ResonanceField]) and of the analyzer it
    imports from [ai-providers] (the class [GlyphAnalyzer] and the interface
    [ResonanceAnalysis]), of the analysis of [src/lib/voice-recorder.ts]
    ([VoiceRecorder.analyzeVoiceData]), of the session store
    ([SessionManager]) and of the grouping of the phase timeline component
    ([PhaseTimeline]), followed by the properties proved of them.

    Conventions of the embedding.
    - A JavaScript string is the list of its UTF-16 code units ([jsstring]).
    - A JavaScript number is an exact rational ([Q]); IEEE-754 rounding is
      not modelled, [NaN] is written out where the code can produce it.
    - Host functions whose results depend on rounding or on Unicode tables
      ([Math.sqrt], [Math.sin], the digits of a fraction, case mapping
      outside ASCII) are the fields of the class [Host]; [Math.random] is an
      explicit source of draws.
    - Code that can throw runs in the small [completion] monad. *)

From Stdlib Require Import Ascii String.
From Stdlib Require Import List Bool Arith ZArith NArith QArith Qround Qminmax Qabs.
From Stdlib Require Import Lia Lqa Sorted Permutation.
Import ListNotations.

Local Open Scope Q_scope.

(** ** JavaScript values *)

Module Js.

Definition codeunit := N.
Definition jsstring := list codeunit.

(** A string literal of the source, as code units. *)
Definition lit (s : string) : jsstring :=
  map N_of_ascii (list_ascii_of_string s).

Definition inRange (lo hi c : N) : bool := ((lo <=? c) && (c <=? hi))%N.

(** [\w] without the [u] flag: [A-Za-z0-9_]. *)
Definition isWordChar (c : codeunit) : bool :=
  inRange 48 57 c || inRange 65 90 c || (c =? 95)%N || inRange 97 122 c.

(** [\s], which is also what [trim] and [parseInt] strip: the WhiteSpace and
    LineTerminator code points of ECMAScript. *)
Definition isSpace (c : codeunit) : bool :=
  inRange 9 13 c || (c =? 32)%N || (c =? 160)%N || (c =? 5760)%N
  || inRange 8192 8202 c || (c =? 8232)%N || (c =? 8233)%N || (c =? 8239)%N
  || (c =? 8287)%N || (c =? 12288)%N || (c =? 65279)%N.

Definition isAscii (c : codeunit) : bool := (c <? 128)%N.

Definition isUpperAscii (c : codeunit) : bool := inRange 65 90 c.
Definition isLowerAscii (c : codeunit) : bool := inRange 97 122 c.

(** Canonicalize of a case-insensitive, non-unicode regular expression. An
    ASCII letter goes to its upper case; a code unit from 128 on is never
    sent below 128, which is all a comparison with an ASCII pattern needs,
    so it is left as it is. *)
Definition canonicalize (c : codeunit) : codeunit :=
  if isLowerAscii c then (c - 32)%N else c.

Definition lowerAscii (c : codeunit) : codeunit :=
  if isUpperAscii c then (c + 32)%N else c.

Fixpoint takeWhile {A} (p : A -> bool) (l : list A) : list A :=
  match l with
  | [] => []
  | a :: r => if p a then a :: takeWhile p r else []
  end.

Fixpoint dropWhile {A} (p : A -> bool) (l : list A) : list A :=
  match l with
  | [] => []
  | a :: r => if p a then dropWhile p r else l
  end.

(** [s.slice(from, to)] for indices that are not negative. *)
Definition slice (from to : nat) (s : jsstring) : jsstring :=
  firstn (to - from) (skipn from s).

(** [s.trim()]. *)
Definition trim (s : jsstring) : jsstring :=
  rev (dropWhile isSpace (rev (dropWhile isSpace s))).

Fixpoint startsWith (p s : jsstring) : bool :=
  match p, s with
  | [], _ => true
  | _ :: _, [] => false
  | a :: p', b :: s' => (a =? b)%N && startsWith p' s'
  end.

(** [s.includes(needle)]. *)
Fixpoint includes (needle s : jsstring) : bool :=
  startsWith needle s ||
  match s with
  | [] => false
  | _ :: r => includes needle r
  end.

(** *** Regular expressions

    A pattern is embedded as its matcher at one position: given the code unit
    before the position (if any) and the rest of the string, the length of
    the match found there. *)
Definition matcher := option codeunit -> jsstring -> option nat.

(** [X+] for a character class. *)
Definition classPlus (cls : codeunit -> bool) : matcher :=
  fun _ s => match takeWhile cls s with
             | [] => None
             | run => Some (length run)
             end.

(** One character of a class. *)
Definition classOne (cls : codeunit -> bool) : matcher :=
  fun _ s => match s with
             | c :: _ => if cls c then Some 1%nat else None
             | [] => None
             end.

(** [X{2,}] for a character class. *)
Definition classTwoOrMore (cls : codeunit -> bool) : matcher :=
  fun _ s => let run := takeWhile cls s in
             if (2 <=? length run)%nat then Some (length run) else None.

Definition wordCharAt (c : option codeunit) : bool :=
  match c with
  | Some c => isWordChar c
  | None => false
  end.

(** The assertion [\b] between [prev] and the head of [s]. *)
Definition boundary (prev : option codeunit) (s : jsstring) : bool :=
  xorb (wordCharAt prev) (wordCharAt (hd_error s)).

(** The literal [w] under the [i] flag, at the head of [s]. *)
Fixpoint literalNoCase (w s : jsstring) : bool :=
  match w, s with
  | [], _ => true
  | _ :: _, [] => false
  | a :: w', b :: s' =>
      (canonicalize a =? canonicalize b)%N && literalNoCase w' s'
  end.

(** The code unit before position [n] of [s], [prev] being the one before
    position 0. *)
Definition before (n : nat) (prev : option codeunit) (s : jsstring)
  : option codeunit :=
  match n with
  | O => prev
  | S k => nth_error s k
  end.

(** [\bw\b] under the [i] flag. *)
Definition boundedWord (w : jsstring) : matcher :=
  fun prev s =>
    let n := length w in
    if boundary prev s && literalNoCase w s
       && boundary (before n prev s) (skipn n s)
    then Some n else None.

(** [\b(w1|w2|...)\b] under the [i] flag: the alternatives are tried in the
    order they are written. *)
Fixpoint boundedAlternatives (ws : list jsstring) : matcher :=
  fun prev s =>
    match ws with
    | [] => None
    | w :: rest =>
        match boundedWord w prev s with
        | Some n => Some n
        | None => boundedAlternatives rest prev s
        end
    end.

(** [s.match(re)] with the [g] flag, counted: the matcher is tried at each
    position from the left; a match of [n] code units moves the position
    [n] further ([skip] counts what is left of it), a failure moves it one
    further. The patterns of this program need a code unit to match, so
    nothing is tried at the end of the string. [(s.match(re) || []).length]
    is this count. *)
Fixpoint countFrom (m : matcher) (skip : nat) (prev : option codeunit)
  (s : jsstring) : nat :=
  match s with
  | [] => O
  | c :: r =>
      match skip with
      | S k => countFrom m k (Some c) r
      | O =>
          match m prev s with
          | Some (S k) => S (countFrom m k (Some c) r)
          | _ => countFrom m O (Some c) r
          end
      end
  end.

Definition countMatches (m : matcher) (s : jsstring) : nat :=
  countFrom m O None s.

(** [s.split(re)] for a pattern that needs a code unit to match: the pieces
    between the matches, from the left. [cur] holds the piece being read,
    reversed. The empty string splits into one empty piece. *)
Fixpoint splitFrom (m : matcher) (skip : nat) (cur : jsstring)
  (prev : option codeunit) (s : jsstring) : list jsstring :=
  match s with
  | [] => [rev cur]
  | c :: r =>
      match skip with
      | S k => splitFrom m k cur (Some c) r
      | O =>
          match m prev s with
          | Some (S k) => rev cur :: splitFrom m k [] (Some c) r
          | _ => splitFrom m O (c :: cur) (Some c) r
          end
      end
  end.

Definition split (m : matcher) (s : jsstring) : list jsstring :=
  splitFrom m O [] None s.

(** [parts.join(sep)]. *)
Fixpoint join (sep : jsstring) (parts : list jsstring) : jsstring :=
  match parts with
  | [] => []
  | [p] => p
  | p :: rest => p ++ sep ++ join sep rest
  end.

(** *** Numbers *)

Definition ofNat (n : nat) : Q := inject_Z (Z.of_nat n).

Definition Qltb (a b : Q) : bool := negb (Qle_bool b a).

(** [Math.floor] as a number; [Math.ceil] is [Qceiling] where it bounds a
    loop. *)
Definition floor (x : Q) : Q := inject_Z (Qfloor x).

(** The decimal digits of a natural number. *)
Fixpoint decimalFrom (fuel : nat) (n : N) (acc : jsstring) : jsstring :=
  match fuel with
  | O => acc
  | S k =>
      let d := (48 + n mod 10)%N in
      if (n <? 10)%N then d :: acc else decimalFrom k (n / 10)%N (d :: acc)
  end.

Definition decimal (n : N) : jsstring :=
  decimalFrom (S (N.to_nat (N.log2 n))) n [].

(** A hexadecimal digit's value. *)
Definition hexDigit (c : codeunit) : option Z :=
  if inRange 48 57 c then Some (Z.of_N c - 48)%Z
  else if inRange 97 102 c then Some (Z.of_N c - 87)%Z
  else if inRange 65 70 c then Some (Z.of_N c - 55)%Z
  else None.

Fixpoint hexPrefix (s : jsstring) : list Z :=
  match s with
  | [] => []
  | c :: r =>
      match hexDigit c with
      | Some d => d :: hexPrefix r
      | None => []
      end
  end.

(** [parseInt(s, 16)]; [None] is [NaN]. Leading white space is skipped, a
    sign and a [0x] prefix are read, then the longest run of digits. *)
Definition parseInt16 (s : jsstring) : option Z :=
  let s1 := dropWhile isSpace s in
  let negative :=
    match s1 with
    | c :: _ => (c =? 45)%N
    | [] => false
    end in
  let s2 :=
    match s1 with
    | c :: r => if (c =? 45)%N || (c =? 43)%N then r else s1
    | [] => s1
    end in
  let s3 :=
    match s2 with
    | zero :: x :: r =>
        if (zero =? 48)%N && ((x =? 120)%N || (x =? 88)%N) then r else s2
    | _ => s2
    end in
  match hexPrefix s3 with
  | [] => None
  | ds =>
      let value := fold_left (fun v d => v * 16 + d)%Z ds 0%Z in
      Some (if negative then - value else value)%Z
  end.

(** *** Exceptions *)

Inductive JsError : Type :=
| TypeError (message : string).

Inductive completion (A : Type) : Type :=
| Normal (a : A)
| Throw (e : JsError).

Arguments Normal {A} a.
Arguments Throw {A} e.

Definition bind {A B} (c : completion A) (k : A -> completion B)
  : completion B :=
  match c with
  | Normal a => k a
  | Throw e => Throw e
  end.

(** [try { body } catch (error) { handler }] around a value. *)
Definition tryCatch {A} (body : completion A) (handler : JsError -> A) : A :=
  match body with
  | Normal a => a
  | Throw e => handler e
  end.

Definition throws {A} (c : completion A) : bool :=
  match c with
  | Normal _ => false
  | Throw _ => true
  end.

(** *** The host *)

(** What the embedding takes from the JavaScript engine as it is: the
    floating-point functions of [Math], the text of a number that is not a
    (small) integer, and lower-casing of a string that is not ASCII. *)
Class Host : Type := {
  Math_sqrt : Q -> Q;
  Math_sin : Q -> Q;
  Math_cos : Q -> Q;
  Math_atan2 : Q -> Q -> Q;
  Number_toString_inexact : Q -> jsstring;
  String_toLowerCase_unicode : jsstring -> jsstring
}.

Section HostFunctions.
Context {host : Host}.

(** [String(x)] of a number, as a template literal interpolates it: the
    decimal digits of an integer below [10^21], the host's text otherwise. *)
Definition numberToString (x : Q) : jsstring :=
  let r := Qred x in
  if ((Qden r =? 1)%positive && (Z.abs (Qnum r) <? 10 ^ 21)%Z)%bool
  then (if (Qnum r <? 0)%Z then [45%N] else []) ++ decimal (Z.abs_N (Qnum r))
  else Number_toString_inexact x.

(** [s.toLowerCase()]: on an ASCII string the letters [A-Z] move to [a-z]. *)
Definition toLowerCase (s : jsstring) : jsstring :=
  if forallb isAscii s then map lowerAscii s else String_toLowerCase_unicode s.

End HostFunctions.

End Js.

Import Js.

(** ** The analyzer: [GlyphAnalyzer] *)

(** The interface [ResonanceAnalysis] and its [glyphData]. A [shape] that is
    [None] is [undefined] (an array read outside its bounds). *)
Record GlyphData : Type := {
  shape : option jsstring;
  frequency : Q;
  color : jsstring;
  complexity : Q
}.

Record ResonanceAnalysis : Type := {
  cognitiveLoad : Q;
  emotionalIntensity : Q;
  symbolicDensity : Q;
  temporalFlow : Q;
  emergencePoints : list Q;
  meaningSignature : jsstring;
  glyphData : GlyphData
}.

Module GlyphAnalyzer.

(** [/\s+/], [/[.!?]+/], [/[,;:]/], [/[!?]{2,}/g] and [/[^\w\s]/g]. *)
Definition isSentenceEnd (c : codeunit) : bool :=
  (c =? 46)%N || (c =? 33)%N || (c =? 63)%N.
Definition isClauseMark (c : codeunit) : bool :=
  (c =? 44)%N || (c =? 59)%N || (c =? 58)%N.
Definition isBangOrQuery (c : codeunit) : bool :=
  (c =? 33)%N || (c =? 63)%N.
Definition isSymbol (c : codeunit) : bool :=
  negb (isWordChar c || isSpace c).

Definition whitespaceRun : matcher := classPlus isSpace.
Definition sentenceBreak : matcher := classPlus isSentenceEnd.
Definition clauseBreak : matcher := classOne isClauseMark.

Definition calculateCognitiveLoad (text : jsstring) : Q :=
  let words := split whitespaceRun text in
  let avgWordLength :=
    fold_left (fun sum word => sum + ofNat (length word)) words 0
    / ofNat (length words) in
  let complexWords :=
    length (filter (fun word => (6 <? length word)%nat) words) in
  let sentenceComplexity :=
    fold_left
      (fun sum sentence =>
         let clauseCount := length (split clauseBreak sentence) in
         sum + ofNat clauseCount)
      (split sentenceBreak text) 0 in
  Qmin 100 (avgWordLength * 10 + ofNat complexWords * 2 + sentenceComplexity).

Definition emotionalWords : list jsstring :=
  map lit ["love"; "hate"; "fear"; "joy"; "anger"; "sadness"; "excitement";
           "anxiety"; "passion"; "rage"; "bliss"; "terror"; "ecstasy";
           "despair"; "hope"; "dread"]%string.

Definition intensifiers : list jsstring :=
  map lit ["very"; "extremely"; "incredibly"; "absolutely"; "completely"]%string.

Definition calculateEmotionalIntensity (text : jsstring) : Q :=
  let punctuationIntensity :=
    ofNat (countMatches (classTwoOrMore isBangOrQuery) text) * 10 in
  let emotionalScore :=
    fold_left
      (fun score word =>
         score + ofNat (countMatches (boundedWord word) text) * 15)
      emotionalWords 0 in
  let intensifierScore :=
    fold_left
      (fun score word =>
         score + ofNat (countMatches (boundedWord word) text) * 5)
      intensifiers 0 in
  Qmin 100 (emotionalScore + intensifierScore + punctuationIntensity).

Definition abstractWords : list jsstring :=
  map lit ["consciousness"; "reality"; "existence"; "meaning"; "purpose";
           "soul"; "spirit"; "essence"; "truth"; "wisdom"; "enlightenment";
           "transcendence"]%string.

Definition metaphorWords : list jsstring :=
  map lit ["like"; "as"; "seems"; "appears"; "resembles"]%string.

Definition calculateSymbolicDensity (text : jsstring) : Q :=
  let symbols := countMatches (classOne isSymbol) text in
  let metaphors := countMatches (boundedAlternatives metaphorWords) text in
  let abstractScore :=
    fold_left
      (fun score word =>
         score + ofNat (countMatches (boundedWord word) text) * 20)
      abstractWords 0 in
  Qmin 100 (ofNat symbols * 2 + ofNat metaphors * 10 + abstractScore).

Definition timeWords : list jsstring :=
  map lit ["now"; "then"; "before"; "after"; "during"; "while"; "when";
           "until"]%string.

Definition transitionWords : list jsstring :=
  map lit ["however"; "therefore"; "meanwhile"; "consequently";
           "furthermore"]%string.

Definition calculateTemporalFlow (text : jsstring) : Q :=
  let timeScore :=
    fold_left
      (fun score word =>
         score + ofNat (countMatches (boundedWord word) text) * 8)
      timeWords 0 in
  let transitionScore :=
    fold_left
      (fun score word =>
         score + ofNat (countMatches (boundedWord word) text) * 12)
      transitionWords 0 in
  Qmin 100 (timeScore + transitionScore).

(** [array.forEach((item, index) => ...)] over a state the callback
    updates. *)
Fixpoint forEachFrom {A St : Type} (f : St -> A -> nat -> St) (index : nat)
  (items : list A) (st : St) : St :=
  match items with
  | [] => st
  | item :: rest => forEachFrom f (S index) rest (f st item index)
  end.

Definition nonBlank (s : jsstring) : bool := (0 <? length (trim s))%nat.

Definition findEmergencePoints (text : jsstring) : list Q :=
  let sentences := filter nonBlank (split sentenceBreak text) in
  forEachFrom
    (fun emergencePoints sentence index =>
       let intensity := calculateEmotionalIntensity sentence in
       let complexity := calculateCognitiveLoad sentence in
       if Qltb 60 intensity || Qltb 70 complexity
       then emergencePoints ++ [ofNat index / ofNat (length sentences) * 100]
       else emergencePoints)
    0 sentences [].

Definition themeKeywords : list (jsstring * list jsstring) :=
  [ (lit "transformation",
     map lit ["change"; "transform"; "evolve"; "become"; "shift"]%string);
    (lit "connection",
     map lit ["together"; "bond"; "unite"; "connect"; "relationship"]%string);
    (lit "discovery",
     map lit ["find"; "discover"; "reveal"; "uncover"; "explore"]%string);
    (lit "conflict",
     map lit ["struggle"; "fight"; "battle"; "oppose"; "resist"]%string);
    (lit "growth",
     map lit ["grow"; "develop"; "expand"; "progress"; "advance"]%string);
    (lit "mystery",
     map lit ["unknown"; "secret"; "hidden"; "mysterious"; "enigma"]%string) ].

Definition moodKeywords : list (jsstring * list jsstring) :=
  [ (lit "contemplative",
     map lit ["think"; "ponder"; "reflect"; "consider"; "wonder"]%string);
    (lit "energetic",
     map lit ["energy"; "power"; "force"; "dynamic"; "vibrant"]%string);
    (lit "melancholic",
     map lit ["sad"; "sorrow"; "loss"; "grief"; "melancholy"]%string);
    (lit "euphoric",
     map lit ["joy"; "bliss"; "ecstasy"; "elation"; "rapture"]%string);
    (lit "mysterious",
     map lit ["mystery"; "enigma"; "puzzle"; "riddle"; "secret"]%string) ].

Definition archetypes : list jsstring :=
  map lit ["The Seeker"; "The Sage"; "The Creator"; "The Rebel"; "The Hero";
           "The Lover"; "The Jester"; "The Caregiver"; "The Ruler";
           "The Magician"]%string.

Definition shapes : list jsstring :=
  map lit ["circle"; "triangle"; "square"; "hexagon"; "star"; "spiral"]%string.

(** [array[index]] for an integer index; [None] is [undefined]. *)
Definition at_ {A} (l : list A) (index : Z) : option A :=
  if (index <? 0)%Z then None else nth_error l (Z.to_nat index).

Section WithHost.
Context {host : Host}.

Definition hasKeyword (text : jsstring) (keywords : list jsstring) : bool :=
  existsb (fun keyword => includes (toLowerCase keyword) (toLowerCase text))
          keywords.

Definition extractThemes (text : jsstring) : list jsstring :=
  let themes :=
    fold_left
      (fun themes entry =>
         let '(theme, keywords) := entry in
         if hasKeyword text keywords then themes ++ [theme] else themes)
      themeKeywords [] in
  if (0 <? length themes)%nat then themes else [lit "existence"].

Fixpoint firstMood (text : jsstring) (entries : list (jsstring * list jsstring))
  : jsstring :=
  match entries with
  | [] => lit "neutral"
  | (mood, keywords) :: rest =>
      if hasKeyword text keywords then mood else firstMood text rest
  end.

Definition extractMood (text : jsstring) : jsstring :=
  firstMood text moodKeywords.

Definition extractArchetype (text : jsstring) : jsstring :=
  let textLength := Z.of_nat (length text) in
  let index := Z.rem textLength (Z.of_nat (length archetypes)) in
  match at_ archetypes index with
  | Some archetype => archetype
  | None => lit "undefined"
  end.

Definition generateMeaningSignature (text : jsstring) : jsstring :=
  let themes := extractThemes text in
  let mood := extractMood text in
  let archetype := extractArchetype text in
  archetype ++ lit " resonance with " ++ mood
  ++ lit " undertones, exploring themes of " ++ join (lit ", ") themes.

Definition generateGlyphColor (cognitive emotional symbolic : Q) : jsstring :=
  let hue := floor ((cognitive + emotional + symbolic) / 3 * 3.6) in
  let saturation := Qmax 50 emotional in
  let lightness := Qmax 30 (Qmin 70 (100 - cognitive)) in
  lit "hsl(" ++ numberToString hue ++ lit ", " ++ numberToString saturation
  ++ lit "%, " ++ numberToString lightness ++ lit "%)".

Definition generateGlyphData (cognitive emotional symbolic : Q) : GlyphData :=
  let shapeIndex :=
    Z.rem (Qfloor ((cognitive + emotional) / 33)) (Z.of_nat (length shapes)) in
  {| shape := at_ shapes shapeIndex;
     frequency := Qmax 0.5 (emotional / 100);
     color := generateGlyphColor cognitive emotional symbolic;
     complexity := floor ((cognitive + symbolic) / 20) |}.

Definition getDefaultAnalysis : ResonanceAnalysis :=
  {| cognitiveLoad := 50;
     emotionalIntensity := 30;
     symbolicDensity := 40;
     temporalFlow := 35;
     emergencePoints := [25; 75];
     meaningSignature := lit "Neutral resonance with contemplative undertones";
     glyphData := {| shape := Some (lit "circle");
                     frequency := 0.5;
                     color := lit "#8b5cf6";
                     complexity := 3 |} |}.

(** The [try] block of [analyzeText]. Its two first constants, [words] and
    [sentences], are never read; none of its steps can throw on a string. *)
Definition analyzeTextBody (text : jsstring) : completion ResonanceAnalysis :=
  let cognitiveLoad := calculateCognitiveLoad text in
  let emotionalIntensity := calculateEmotionalIntensity text in
  let symbolicDensity := calculateSymbolicDensity text in
  let temporalFlow := calculateTemporalFlow text in
  let emergencePoints := findEmergencePoints text in
  let meaningSignature := generateMeaningSignature text in
  let glyphData :=
    generateGlyphData cognitiveLoad emotionalIntensity symbolicDensity in
  Normal {| cognitiveLoad := cognitiveLoad;
            emotionalIntensity := emotionalIntensity;
            symbolicDensity := symbolicDensity;
            temporalFlow := temporalFlow;
            emergencePoints := emergencePoints;
            meaningSignature := meaningSignature;
            glyphData := glyphData |}.

(** The value the promise of [analyzeText] resolves to. *)
Definition analyzeText (text : jsstring) : ResonanceAnalysis :=
  tryCatch (analyzeTextBody text) (fun _ => getDefaultAnalysis).

End WithHost.

End GlyphAnalyzer.

(** ** Loops and arrays *)

(** [for (let i = start; ...; i++) body], run [n] times, in the exception
    monad. *)
Fixpoint forLoop {St : Type} (n : nat) (i : nat)
  (body : nat -> St -> completion St) (st : St) : completion St :=
  match n with
  | O => Normal st
  | S k => bind (body i st) (forLoop k (S i) body)
  end.

(** [for (let i = 0; i < bound; i++) body] for an integer bound. *)
Definition forUpTo {St : Type} (bound : Z)
  (body : nat -> St -> completion St) (st : St) : completion St :=
  forLoop (Z.to_nat bound) 0 body st.

(** [a[i] = v]. An index at the length of the array extends it; a larger one
    would leave holes, which no loop of this program does, and [hole] stands
    in them. *)
Fixpoint arraySet {A : Type} (hole : A) (a : list A) (i : nat) (v : A)
  : list A :=
  match i, a with
  | O, [] => [v]
  | O, _ :: r => v :: r
  | S k, [] => hole :: arraySet hole [] k v
  | S k, e :: r => e :: arraySet hole r k v
  end.

(** [a[i].m] or [a[i][j] = v]: reading a property of [undefined] throws. *)
Definition element {A : Type} (a : list A) (i : nat) : completion A :=
  match nth_error a i with
  | Some e => Normal e
  | None => Throw (TypeError "Cannot read properties of undefined")
  end.

(** ** The wave field: [ResonanceField] *)

Module ResonanceField.

Record t : Type := {
  width : Q;
  height : Q;
  field : list (list Q)
}.

(** [private gridSize: number = 20], which nothing assigns. *)
Definition gridSize : Q := 20.

Definition setField (f : t) (cells : list (list Q)) : t :=
  {| width := width f; height := height f; field := cells |}.

(** [this.field[i][j] = v]. *)
Definition setCell (cells : list (list Q)) (i j : nat) (v : Q)
  : completion (list (list Q)) :=
  bind (element cells i)
       (fun row => Normal (arraySet [] cells i (arraySet 0 row j v))).

Definition initializeField (f : t) : completion t :=
  let cols := Qceiling (width f / gridSize) in
  let rows := Qceiling (height f / gridSize) in
  bind
    (forUpTo rows
       (fun i cells =>
          forUpTo cols (fun j cells => setCell cells i j 0)
                  (arraySet [] cells i []))
       [])
    (fun cells => Normal (setField f cells)).

(** [new ResonanceField(width, height)]. *)
Definition create (w h : Q) : completion t :=
  initializeField {| width := w; height := h; field := [] |}.

Definition resize (f : t) (w h : Q) : completion t :=
  initializeField {| width := w; height := h; field := field f |}.

Section WithHost.
Context {host : Host}.

Definition wave (analysis : ResonanceAnalysis) (time : Q) (cols rows : nat)
  (i j : nat) : Q :=
  let centerX := ofNat cols / 2 in
  let centerY := ofNat rows / 2 in
  let dx := ofNat j - centerX in
  let dy := ofNat i - centerY in
  let distance := Math_sqrt (dx * dx + dy * dy) in
  let wave1 :=
    Math_sin (distance * 0.3 - time * frequency (glyphData analysis) * 2)
    * emotionalIntensity analysis / 100 in
  let wave2 :=
    Math_cos (distance * 0.2 + time * temporalFlow analysis / 50)
    * cognitiveLoad analysis / 100 in
  (wave1 + wave2) * 0.5.

Definition update (f : t) (analysis : ResonanceAnalysis) (time : Q)
  : completion t :=
  bind (element (field f) 0) (fun row0 =>
  let cols := length row0 in
  let rows := length (field f) in
  bind
    (forUpTo (Z.of_nat rows)
       (fun i cells =>
          forUpTo (Z.of_nat cols)
            (fun j cells => setCell cells i j (wave analysis time cols rows i j))
            cells)
       (field f))
    (fun cells => Normal (setField f cells))).

(** What [render] does to the drawing context. *)
Inductive CanvasOp : Type :=
| CtxSave
| CtxRestore
| SetFillStyle (style : jsstring)
| FillRect (x y w h : Q).

(** [this.field[i][j]] read as a number: [None] is [undefined], whose
    absolute value is [NaN], which no comparison accepts. *)
Definition cell (cells : list (list Q)) (i j : nat) : completion (option Q) :=
  bind (element cells i) (fun row => Normal (nth_error row j)).

Definition render (f : t) : completion (list CanvasOp) :=
  bind (element (field f) 0) (fun row0 =>
  let cols := Z.of_nat (length row0) in
  let rows := Z.of_nat (length (field f)) in
  bind
    (forUpTo (rows - 1)
       (fun i ops =>
          forUpTo (cols - 1)
            (fun j ops =>
               bind (cell (field f) i j) (fun c =>
               match c with
               | None => Normal ops
               | Some v =>
                   let value := Qabs v in
                   let opacity := Qmin 0.3 (value * 0.5) in
                   if Qltb 0.05 opacity
                   then
                     let x := ofNat j * gridSize in
                     let y := ofNat i * gridSize in
                     Normal
                       (ops ++
                        [SetFillStyle
                           (lit "rgba(0, 255, 255, " ++ numberToString opacity
                            ++ lit ")");
                         FillRect x y gridSize gridSize])
                   else Normal ops
               end))
            ops)
       [CtxSave])
    (fun ops => Normal (ops ++ [CtxRestore]))).

End WithHost.

End ResonanceField.

(** ** The particles: [Particle] *)

(** [Math.random()]: the values it returns, in the order of the calls, and
    how many were taken. *)
Record Rng : Type := {
  source : nat -> Q;
  taken : nat
}.

Definition Math_random (rng : Rng) : Q * Rng :=
  (source rng (taken rng), {| source := source rng; taken := S (taken rng) |}).

(** [Math.PI], the double nearest to pi. *)
Definition Math_PI : Q := 884279719003555 # 281474976710656.

Module Particle.

Record t : Type := {
  x : Q;
  y : Q;
  vx : Q;
  vy : Q;
  color : jsstring;
  size : Q;
  life : Q;
  maxLife : Q
}.

(** [new Particle(x, y, color)]. *)
Definition create (x0 y0 : Q) (color0 : jsstring) (rng : Rng) : t * Rng :=
  let '(r1, rng) := Math_random rng in
  let '(r2, rng) := Math_random rng in
  let '(r3, rng) := Math_random rng in
  let '(r4, rng) := Math_random rng in
  let maxLife0 := r4 * 100 + 50 in
  ({| x := x0; y := y0;
      vx := (r1 - 0.5) * 2;
      vy := (r2 - 0.5) * 2;
      color := color0;
      size := r3 * 3 + 1;
      life := maxLife0;
      maxLife := maxLife0 |}, rng).

Definition respawn (p : t) (rng : Rng) : t * Rng :=
  let '(r1, rng) := Math_random rng in
  let '(r2, rng) := Math_random rng in
  let '(r3, rng) := Math_random rng in
  let '(r4, rng) := Math_random rng in
  ({| x := r1 * 800;
      y := r2 * 600;
      vx := (r3 - 0.5) * 2;
      vy := (r4 - 0.5) * 2;
      color := color p;
      size := size p;
      life := maxLife p;
      maxLife := maxLife p |}, rng).

Section WithHost.
Context {host : Host}.

Definition update (p : t) (centerX centerY frequency time : Q) (rng : Rng)
  : t * Rng :=
  let dx := centerX - x p in
  let dy := centerY - y p in
  let distance := Math_sqrt (dx * dx + dy * dy) in
  let '(vx1, vy1) :=
    if Qltb 0 distance
    then
      let force := 0.001 * frequency in
      (vx p + dx / distance * force, vy p + dy / distance * force)
    else (vx p, vy p) in
  let angle := Math_atan2 dy dx + Math_PI / 2 in
  let vx2 := vx1 + Math_cos angle * 0.01 * frequency in
  let vy2 := vy1 + Math_sin angle * 0.01 * frequency in
  let moved :=
    {| x := x p + vx2;
       y := y p + vy2;
       vx := vx2 * 0.99;
       vy := vy2 * 0.99;
       color := color p;
       size := size p;
       life := life p - 1;
       maxLife := maxLife p |} in
  if Qle_bool (life moved) 0 then respawn moved rng else (moved, rng).

End WithHost.

(** How [GlyphRenderer.initializeParticles] places one particle on a canvas:
    [new Particle(Math.random() * width, Math.random() * height, color)]. *)
Definition spawn (canvasWidth canvasHeight : Q) (color0 : jsstring)
  (rng : Rng) : t * Rng :=
  let '(r1, rng) := Math_random rng in
  let '(r2, rng) := Math_random rng in
  create (r1 * canvasWidth) (r2 * canvasHeight) color0 rng.

End Particle.

(** ** The renderer: [GlyphRenderer] *)

Record GlyphRenderOptions : Type := {
  optWidth : Q;
  optHeight : Q;
  animate : bool;
  showParticles : bool;
  showResonanceField : bool;
  optComplexity : Q
}.

Module GlyphRenderer.

(** The constants [r], [g] and [b] of [hexToRgba]; [None] is [NaN]. *)
Definition hexChannels (hex : jsstring) : option Z * option Z * option Z :=
  (parseInt16 (slice 1 3 hex),
   parseInt16 (slice 3 5 hex),
   parseInt16 (slice 5 7 hex)).

Section WithHost.
Context {host : Host}.

Definition showChannel (c : option Z) : jsstring :=
  match c with
  | Some n => numberToString (inject_Z n)
  | None => lit "NaN"
  end.

Definition hexToRgba (hex : jsstring) (alpha : Q) : jsstring :=
  let '(r, g, b) := hexChannels hex in
  lit "rgba(" ++ showChannel r ++ lit ", " ++ showChannel g ++ lit ", "
  ++ showChannel b ++ lit ", " ++ numberToString alpha ++ lit ")".

End WithHost.

(** *** Scheduling

    The part of the renderer that [startAnimation], the frame callback and
    [stopAnimation] read and write: [animationId] and [startTime], and the
    window's list of animation frame callbacks. What else these methods and
    [render] do (the canvas size, the field's [resize], [renderFrame],
    [renderStatic], [initializeParticles]) touches neither [animationId] nor
    the list; of a frame only whether [renderFrame] threw is kept. *)

(** The arrow function [animate] of one call of [startAnimation], with the
    [analysis] and [options] it closes over. *)
Record Animate : Type := {
  closedAnalysis : ResonanceAnalysis;
  closedOptions : GlyphRenderOptions
}.

(** The window: the callbacks waiting for the next frame, each under its
    handle, and the last handle given out (handles start at 1). *)
Record Window : Type := {
  frameCallbacks : list (nat * Animate);
  lastHandle : nat
}.

Definition requestAnimationFrame (callback : Animate) (w : Window)
  : nat * Window :=
  let handle := S (lastHandle w) in
  (handle,
   {| frameCallbacks := frameCallbacks w ++ [(handle, callback)];
      lastHandle := handle |}).

Definition cancelAnimationFrame (handle : nat) (w : Window) : Window :=
  {| frameCallbacks :=
       filter (fun entry => negb (fst entry =? handle)%nat) (frameCallbacks w);
     lastHandle := lastHandle w |}.

Record t : Type := {
  animationId : option nat;
  startTime : Q
}.

(** [new GlyphRenderer(canvas)] on a page that has requested no frame. *)
Definition create : t := {| animationId := None; startTime := 0 |}.
Definition freshWindow : Window := {| frameCallbacks := []; lastHandle := 0 |}.

(** [if (this.animationId)]: [null] and [0] are falsy. *)
Definition truthy (id : option nat) : bool :=
  match id with
  | Some (S _) => true
  | _ => false
  end.

Definition startAnimation (r : t) (w : Window) (analysis : ResonanceAnalysis)
  (options : GlyphRenderOptions) (now : Q) : t * Window :=
  let w1 :=
    match animationId r with
    | Some id => if truthy (Some id) then cancelAnimationFrame id w else w
    | None => w
    end in
  let '(handle, w2) :=
    requestAnimationFrame
      {| closedAnalysis := analysis; closedOptions := options |} w1 in
  ({| animationId := Some handle; startTime := now |}, w2).

(** The body of [animate]: draw, then ask for the next frame. When
    [renderFrame] throws, the assignment after it is not reached. *)
Definition runAnimate (callback : Animate) (renderFrameThrows : bool)
  (r : t) (w : Window) : t * Window :=
  if renderFrameThrows then (r, w)
  else
    let '(handle, w1) := requestAnimationFrame callback w in
    ({| animationId := Some handle; startTime := startTime r |}, w1).

Definition stopAnimation (r : t) (w : Window) : t * Window :=
  match animationId r with
  | Some id =>
      if truthy (Some id)
      then ({| animationId := None; startTime := startTime r |},
            cancelAnimationFrame id w)
      else (r, w)
  | None => (r, w)
  end.

Definition render (r : t) (w : Window) (analysis : ResonanceAnalysis)
  (options : GlyphRenderOptions) (now : Q) : t * Window :=
  if animate options then startAnimation r w analysis options now
  else (r, w).

(** The window runs a frame: the callbacks waiting at its start are called
    in order, each removed from the list before it runs; one cancelled in the
    meantime is skipped. [throwsAt handle] says whether [renderFrame] throws
    in the callback of that handle. *)
Fixpoint runCallbacks (waiting : list (nat * Animate)) (throwsAt : nat -> bool)
  (r : t) (w : Window) : t * Window :=
  match waiting with
  | [] => (r, w)
  | (handle, callback) :: rest =>
      if existsb (fun entry => (fst entry =? handle)%nat) (frameCallbacks w)
      then
        let '(r1, w1) :=
          runAnimate callback (throwsAt handle) r
                     (cancelAnimationFrame handle w) in
        runCallbacks rest throwsAt r1 w1
      else runCallbacks rest throwsAt r w
  end.

Definition runFrame (throwsAt : nat -> bool) (r : t) (w : Window)
  : t * Window :=
  runCallbacks (frameCallbacks w) throwsAt r w.

(** What can happen to a renderer, and a run of such events from its
    construction. *)
Inductive Event : Type :=
| CallRender (analysis : ResonanceAnalysis) (options : GlyphRenderOptions)
             (now : Q)
| CallStop
| Frame (throwsAt : nat -> bool).

Definition step (ev : Event) (s : t * Window) : t * Window :=
  let '(r, w) := s in
  match ev with
  | CallRender analysis options now => render r w analysis options now
  | CallStop => stopAnimation r w
  | Frame throwsAt => runFrame throwsAt r w
  end.

Definition run (events : list Event) : t * Window :=
  fold_left (fun s ev => step ev s) events (create, freshWindow).

End GlyphRenderer.

(** ** Vocabulary of the statements *)

(** A score on the scale of the analysis. *)
Definition inPercent (v : Q) : Prop := 0 <= v <= 100.

(** Two analyses with the same content: numbers compared as rationals. *)
Definition sameGlyphData (a b : GlyphData) : Prop :=
  shape a = shape b /\ frequency a == frequency b /\ color a = color b
  /\ complexity a == complexity b.

Definition sameAnalysis (a b : ResonanceAnalysis) : Prop :=
  cognitiveLoad a == cognitiveLoad b
  /\ emotionalIntensity a == emotionalIntensity b
  /\ symbolicDensity a == symbolicDensity b
  /\ temporalFlow a == temporalFlow b
  /\ Forall2 Qeq (emergencePoints a) (emergencePoints b)
  /\ meaningSignature a = meaningSignature b
  /\ sameGlyphData (glyphData a) (glyphData b).

(** What [analyzeText] computes for the empty string. *)
Definition emptyTextAnalysis : ResonanceAnalysis :=
  {| cognitiveLoad := 1;
     emotionalIntensity := 0;
     symbolicDensity := 0;
     temporalFlow := 0;
     emergencePoints := [];
     meaningSignature :=
       lit "The Seeker resonance with neutral undertones, exploring themes of existence";
     glyphData := {| shape := Some (lit "circle");
                     frequency := 0.5;
                     color := lit "hsl(1, 50%, 70%)";
                     complexity := 0 |} |}.

(** The glyph mapping in the words of the specification: the shape list
    indexed by [floor((cognitive+emotional)/33) mod 6]. *)
Definition specShape (cognitive emotional : Q) : option jsstring :=
  nth_error GlyphAnalyzer.shapes
            (Z.to_nat (Qfloor ((cognitive + emotional) / 33) mod 6)).

(** A colour written [#rrggbb]. *)
Definition isHexDigit (c : codeunit) : bool :=
  match hexDigit c with
  | Some _ => true
  | None => false
  end.

Definition isHexColor (hex : jsstring) : bool :=
  match hex with
  | 35%N :: digits => (length digits =? 6)%nat && forallb isHexDigit digits
  | _ => false
  end.

(** A conversion that produced a colour: three channels that are numbers. *)
Definition isColor (channels : option Z * option Z * option Z) : Prop :=
  exists r g b : Z, channels = (Some r, Some g, Some b).

Definition isByte (channel : Z) : Prop := (0 <= channel <= 255)%Z.

(** The cells the specification has [render] paint: all those whose opacity
    [min(0.3, |value| * 0.5)] is over 0.05, by row and column. *)
Definition visible (v : Q) : bool := Qltb 0.05 (Qmin 0.3 (Qabs v * 0.5)).

Definition visibleCells (cells : list (list Q)) : list (nat * nat) :=
  concat
    (map (fun '(i, row) =>
            map (fun '(j, _) => (i, j))
                (filter (fun '(_, v) => visible v)
                        (combine (seq 0 (length row)) row)))
         (combine (seq 0 (length cells)) cells)).

(** The cells a list of canvas operations fills, by row and column: the
    rectangle at [(x, y)] is the cell of column [x / 20] and row [y / 20]. *)
Definition filledCells (ops : list ResonanceField.CanvasOp)
  : list (nat * nat) :=
  flat_map (fun op =>
              match op with
              | ResonanceField.FillRect x y _ _ =>
                  [(Z.to_nat (Qfloor (y / ResonanceField.gridSize)),
                    Z.to_nat (Qfloor (x / ResonanceField.gridSize)))]
              | _ => []
              end) ops.

(** A grid of [rows] rows of [cols] cells. *)
Definition hasDimensions (cells : list (list Q)) (rows cols : Z) : Prop :=
  Z.of_nat (length cells) = rows
  /\ Forall (fun row => Z.of_nat (length row) = cols) cells.

Definition allZero (cells : list (list Q)) : Prop :=
  Forall (Forall (fun v => v = 0)) cells.

(** A coarse host, to evaluate the definitions on examples: square roots of
    the integer part, the first terms of the sine and cosine series, a
    quadrant for the angle, one digit after the point. The theorems hold for
    every host. *)
Definition coarseHost : Host :=
  {| Math_sqrt := fun v => inject_Z (Z.sqrt (Qfloor v));
     Math_sin := fun v => v - v * v * v / 6;
     Math_cos := fun v => 1 - v * v / 2;
     Math_atan2 := fun dy dx =>
       if Qltb 0 dx then 0
       else if Qltb dx 0 then Math_PI
       else if Qltb 0 dy then Math_PI / 2
       else if Qltb dy 0 then - (Math_PI / 2) else 0;
     Number_toString_inexact := fun v =>
       (if Qltb v 0 then [45%N] else [])
       ++ decimal (Z.abs_N (Z.quot (Qnum v) (Zpos (Qden v)))) ++ [46%N]
       ++ decimal (Z.abs_N (Z.rem (Z.quot (Qnum v * 10) (Zpos (Qden v))) 10));
     String_toLowerCase_unicode := map lowerAscii |}.

(** The sentences [findEmergencePoints] keeps, by index, the place it gives
    to the sentence of an index, and its test of a sentence. *)
Fixpoint selected {A} (keep : A -> bool) (index : nat) (items : list A)
  : list nat :=
  match items with
  | [] => []
  | item :: rest =>
      (if keep item then [index] else []) ++ selected keep (S index) rest
  end.

Definition position (count : nat) (index : nat) : Q :=
  ofNat index / ofNat count * 100.

Definition emergent (sentence : jsstring) : bool :=
  Qltb 60 (GlyphAnalyzer.calculateEmotionalIntensity sentence)
  || Qltb 70 (GlyphAnalyzer.calculateCognitiveLoad sentence).

(** The grid [initializeField] builds. *)
Definition zeroGrid (rows cols : Z) : list (list Q) :=
  repeat (repeat 0 (Z.to_nat cols)) (Z.to_nat rows).

(** At most one callback waits, and it is the one [animationId] names. *)
Definition wellScheduled (s : GlyphRenderer.t * GlyphRenderer.Window) : Prop :=
  match GlyphRenderer.frameCallbacks (snd s) with
  | [] => True
  | [(handle, _)] =>
      GlyphRenderer.animationId (fst s) = Some handle
      /\ (1 <= handle <= GlyphRenderer.lastHandle (snd s))%nat
  | _ => False
  end.

Section RenderVocabulary.
Context {host : Host}.
Import ResonanceField.

(** The operations [render] adds for the cell of row [i] and column [j]. *)
Definition paintCell (cells : list (list Q)) (i j : nat) : list CanvasOp :=
  match nth_error cells i with
  | Some row =>
      match nth_error row j with
      | Some v =>
          if visible v
          then [SetFillStyle
                  (lit "rgba(0, 255, 255, "
                   ++ numberToString (Qmin 0.3 (Qabs v * 0.5)) ++ lit ")");
                FillRect (ofNat j * gridSize) (ofNat i * gridSize)
                         gridSize gridSize]
          else []
      | None => []
      end
  | None => []
  end.

(** The body of the inner loop of [render], its [const]s replaced by their
    values. *)
Definition paintStep (cells : list (list Q)) (i j : nat)
  (ops : list CanvasOp) : completion (list CanvasOp) :=
  bind (cell cells i j) (fun c =>
  match c with
  | None => Normal ops
  | Some v =>
      if Qltb 0.05 (Qmin 0.3 (Qabs v * 0.5))
      then
        Normal
          (ops ++
           [SetFillStyle
              (lit "rgba(0, 255, 255, "
               ++ numberToString (Qmin 0.3 (Qabs v * 0.5)) ++ lit ")");
            FillRect (ofNat j * gridSize) (ofNat i * gridSize)
                     gridSize gridSize])
      else Normal ops
  end).

End RenderVocabulary.

(** The cell of row [i] and column [j] holds a value over the threshold. *)
Definition visibleAt (cells : list (list Q)) (i j : nat) : Prop :=
  exists row v,
    nth_error cells i = Some row /\ nth_error row j = Some v
    /\ visible v = true.

(** ** Tactics *)

Ltac bool_to_N :=
  repeat match goal with
    | H : (_ <=? _)%N = true |- _ => apply N.leb_le in H
    | H : (_ <=? _)%N = false |- _ => apply N.leb_gt in H
    | H : (_ =? _)%N = true |- _ => apply N.eqb_eq in H
    | H : (_ =? _)%N = false |- _ => apply N.eqb_neq in H
    end.

Ltac outside_range :=
  unfold inRange; apply andb_false_iff;
  first [ left; apply N.leb_gt; lia | right; apply N.leb_gt; lia ].

(** ** Vocabulary of the further properties *)

(** How many code units of a string are in a class. *)
Definition countIf (cls : codeunit -> bool) (s : jsstring) : nat :=
  length (filter cls s).

(** A string without the code units of a class. *)
Definition without (cls : codeunit -> bool) (s : jsstring) : jsstring :=
  filter (fun c => negb (cls c)) s.

(** A function on code units that at most changes the case of ASCII
    letters. *)
Definition changesCaseOnly (f : codeunit -> codeunit) : Prop :=
  forall c, f c = c \/ f c = canonicalize c \/ f c = lowerAscii c.

(** The classes and comparisons the analyzer uses do not see the case. *)
Definition caseBlind {B} (g : codeunit -> B) : Prop :=
  forall f, changesCaseOnly f -> forall c, g (f c) = g c.

(** A matcher that gives the same answer on a string and on the string
    changed by [f]. *)
Definition matcherBlind (f : codeunit -> codeunit) (m : matcher) : Prop :=
  forall prev s, m (option_map f prev) (map f s) = m prev s.

Ltac by_letter k Hk :=
  do 26 (destruct k as [|k]; [reflexivity|]); lia.


(** The animation of [analysis] under [options] is running: its callback is
    the one that waits, and [animationId] names it. *)
Definition animating (analysis : ResonanceAnalysis)
  (options : GlyphRenderOptions) (s : GlyphRenderer.t * GlyphRenderer.Window)
  : Prop :=
  exists handle,
    GlyphRenderer.frameCallbacks (snd s)
    = [(handle, {| GlyphRenderer.closedAnalysis := analysis;
                   GlyphRenderer.closedOptions := options |})]
    /\ GlyphRenderer.animationId (fst s) = Some handle.

(** Events that start no animation: everything but an animated [render]. *)
Definition startsNothing (ev : GlyphRenderer.Event) : Prop :=
  match ev with
  | GlyphRenderer.CallRender _ options _ => animate options = false
  | _ => True
  end.

(** Events that neither start nor stop one: static renders and frames. *)
Definition passive (ev : GlyphRenderer.Event) : Prop :=
  match ev with
  | GlyphRenderer.CallRender _ options _ => animate options = false
  | GlyphRenderer.CallStop => False
  | GlyphRenderer.Frame _ => True
  end.

(** Passive events in which [renderFrame] does not throw. *)
Definition quiet (ev : GlyphRenderer.Event) : Prop :=
  match ev with
  | GlyphRenderer.CallRender _ options _ => animate options = false
  | GlyphRenderer.CallStop => False
  | GlyphRenderer.Frame throwsAt => forall handle, throwsAt handle = false
  end.

(** The options the application renders with, animated or not. *)
Definition appOptions (animated : bool) : GlyphRenderOptions :=
  {| optWidth := 400; optHeight := 400; animate := animated;
     showParticles := true; showResonanceField := true; optComplexity := 5 |}.

(** ** The particles of a renderer

    [GlyphRenderer.initializeParticles] and the part of
    [GlyphRenderer.updateAndRenderParticles] that changes the particles
    ([particle.render] only draws), on the canvas size the renderer has. *)
Module ParticleSystem.

(** The loop of [initializeParticles], [count] iterations. *)
Fixpoint pushParticles (count : nat) (canvasWidth canvasHeight : Q)
  (color0 : jsstring) (particles : list Particle.t) (rng : Rng)
  : list Particle.t * Rng :=
  match count with
  | O => (particles, rng)
  | S rest =>
      let '(p, rng) := Particle.spawn canvasWidth canvasHeight color0 rng in
      pushParticles rest canvasWidth canvasHeight color0 (particles ++ [p]) rng
  end.

Definition initializeParticles (canvasWidth canvasHeight : Q)
  (analysis : ResonanceAnalysis) (rng : Rng) : list Particle.t * Rng :=
  let particleCount := (Qfloor (symbolicDensity analysis / 10) + 10)%Z in
  pushParticles (Z.to_nat particleCount) canvasWidth canvasHeight
                (color (glyphData analysis)) [] rng.

Section WithHost.
Context {host : Host}.

(** [this.particles.forEach(particle => particle.update(...))]. *)
Fixpoint updateEach (particles : list Particle.t)
  (centerX centerY frequency0 time : Q) (rng : Rng) : list Particle.t * Rng :=
  match particles with
  | [] => ([], rng)
  | p :: rest =>
      let '(p, rng) := Particle.update p centerX centerY frequency0 time rng in
      let '(rest, rng) := updateEach rest centerX centerY frequency0 time rng in
      (p :: rest, rng)
  end.

Definition updateAndRenderParticles (canvasWidth canvasHeight : Q)
  (analysis : ResonanceAnalysis) (time : Q) (particles : list Particle.t)
  (rng : Rng) : list Particle.t * Rng :=
  let centerX := canvasWidth / 2 in
  let centerY := canvasHeight / 2 in
  updateEach particles centerX centerY (frequency (glyphData analysis)) time
             rng.

(** The particles after the frames of one animation, one per time. *)
Definition afterFrames (canvasWidth canvasHeight : Q)
  (analysis : ResonanceAnalysis) (times : list Q)
  (s : list Particle.t * Rng) : list Particle.t * Rng :=
  fold_left
    (fun s time =>
       updateAndRenderParticles canvasWidth canvasHeight analysis time
                                (fst s) (snd s))
    times s.

End WithHost.

End ParticleSystem.

(** A random source as the language promises it: draws in [[0, 1)]. *)
Definition unitDraws (rng : Rng) : Prop := forall n, 0 <= source rng n < 1.

(** A particle as the constructor leaves it on a canvas. *)
Definition freshParticle (canvasWidth canvasHeight : Q) (color0 : jsstring)
  (p : Particle.t) : Prop :=
  0 <= Particle.x p < canvasWidth /\ 0 <= Particle.y p < canvasHeight
  /\ -1 <= Particle.vx p < 1 /\ -1 <= Particle.vy p < 1
  /\ 1 <= Particle.size p < 4
  /\ 50 <= Particle.maxLife p < 150
  /\ Particle.life p = Particle.maxLife p
  /\ Particle.color p = color0.

(** What [Particle.render] relies on: a positive radius and a life between
    0 (excluded) and [maxLife]. *)
Definition drawable (p : Particle.t) : Prop :=
  0 < Particle.life p <= Particle.maxLife p
  /\ 50 <= Particle.maxLife p < 150
  /\ 1 <= Particle.size p < 4.

(** A grid with a first row whose rows all have the length of the first. *)
Definition rectangular (cells : list (list Q)) : Prop :=
  exists row0 others,
    cells = row0 :: others
    /\ Forall (fun row => length row = length row0) cells.

(** Sines and cosines between -1 and 1. *)
Definition boundedWaves (host : Host) : Prop :=
  forall v, -1 <= Math_sin v <= 1 /\ -1 <= Math_cos v <= 1.

(** The coarse host with its sine and cosine cut off at -1 and 1. *)
Definition clampedHost : Host :=
  {| Math_sqrt := @Math_sqrt coarseHost;
     Math_sin := fun v => Qmax (-1) (Qmin 1 (@Math_sin coarseHost v));
     Math_cos := fun v => Qmax (-1) (Qmin 1 (@Math_cos coarseHost v));
     Math_atan2 := @Math_atan2 coarseHost;
     Number_toString_inexact := @Number_toString_inexact coarseHost;
     String_toLowerCase_unicode := @String_toLowerCase_unicode coarseHost |}.

(** ** The phase timeline: [PhaseTimeline]

    The grouping of consecutive phases at the head of the component; what
    follows it only lays the segments out. *)
Module PhaseTimeline.

Inductive Phase : Type := Beginning | Buildup | Climax | Release | Echo.

Definition Phase_eqb (a b : Phase) : bool :=
  match a, b with
  | Beginning, Beginning | Buildup, Buildup | Climax, Climax
  | Release, Release | Echo, Echo => true
  | _, _ => false
  end.

Record ResonanceData : Type := {
  timestamp : Q;
  resonance : Q;
  phase : Phase;
  emergenceScore : Q;
  symbolDensity : Q
}.

Module Segment.
Record t : Type := {
  phase : option Phase;
  start : nat;
  end_ : nat;
  duration : nat;
  avgResonance : Q
}.
End Segment.

(** [data.slice(from, to)]. *)
Definition sliceData (from to : nat) (data : list ResonanceData)
  : list ResonanceData :=
  firstn (to - from) (skipn from data).

(** [.reduce((sum, d) => sum + d.resonance, 0)]. *)
Definition sumResonance (data : list ResonanceData) : Q :=
  fold_left (fun sum d => sum + resonance d) data 0.

(** [p !== currentPhase], where [None] is [undefined]. *)
Definition differs (p : Phase) (currentPhase : option Phase) : bool :=
  match currentPhase with
  | Some q => negb (Phase_eqb p q)
  | None => true
  end.

Record Grouping : Type := {
  phaseSegments : list Segment.t;
  currentPhase : option Phase;
  segmentStart : nat
}.

(** The body of the loop, for index [i]. *)
Definition groupStep (data : list ResonanceData) (i : nat) (st : Grouping)
  : completion Grouping :=
  bind (element data i) (fun d =>
  if differs (phase d) (currentPhase st)
  then
    Normal
      {| phaseSegments :=
           phaseSegments st
           ++ [{| Segment.phase := currentPhase st;
                  Segment.start := segmentStart st;
                  Segment.end_ := i - 1;
                  Segment.duration := i - segmentStart st;
                  Segment.avgResonance :=
                    sumResonance (sliceData (segmentStart st) i data)
                    / ofNat (i - segmentStart st) |}];
         currentPhase := Some (phase d);
         segmentStart := i |}
  else Normal st).

(** The segments the component draws. *)
Definition group (data : list ResonanceData) : completion (list Segment.t) :=
  let start :=
    {| phaseSegments := [];
       currentPhase := option_map phase (nth_error data 0);
       segmentStart := 0 |} in
  bind (forLoop (length data - 1) 1 (groupStep data) start) (fun st =>
  if (0 <? length data)%nat
  then
    Normal
      (phaseSegments st
       ++ [{| Segment.phase := currentPhase st;
              Segment.start := segmentStart st;
              Segment.end_ := length data - 1;
              Segment.duration := length data - segmentStart st;
              Segment.avgResonance :=
                sumResonance
                  (sliceData (segmentStart st) (length data) data)
                / ofNat (length data - segmentStart st) |}])
  else Normal (phaseSegments st)).

(** [(segment.duration / totalDuration) * 100]. *)
Definition widthPercent (data : list ResonanceData) (segment : Segment.t) : Q :=
  ofNat (Segment.duration segment) / ofNat (length data) * 100.

End PhaseTimeline.

(** A segment that is a run of one phase in the data, with the mean of its
    resonances. *)
Definition isRun (data : list PhaseTimeline.ResonanceData)
  (s : PhaseTimeline.Segment.t) : Prop :=
  (PhaseTimeline.Segment.start s <= PhaseTimeline.Segment.end_ s
   < length data)%nat
  /\ PhaseTimeline.Segment.duration s
     = S (PhaseTimeline.Segment.end_ s - PhaseTimeline.Segment.start s)
  /\ (forall k,
        (PhaseTimeline.Segment.start s <= k
         <= PhaseTimeline.Segment.end_ s)%nat ->
        option_map PhaseTimeline.phase (nth_error data k)
        = PhaseTimeline.Segment.phase s)
  /\ PhaseTimeline.Segment.avgResonance s
     = PhaseTimeline.sumResonance
         (PhaseTimeline.sliceData (PhaseTimeline.Segment.start s)
            (S (PhaseTimeline.Segment.end_ s)) data)
       / ofNat (PhaseTimeline.Segment.duration s).

(** Segments that are runs and follow one another from index [from] up to,
    and without, index [to]. *)
Fixpoint tiles (data : list PhaseTimeline.ResonanceData) (from : nat)
  (segments : list PhaseTimeline.Segment.t) (to : nat) : Prop :=
  match segments with
  | [] => from = to
  | s :: rest =>
      PhaseTimeline.Segment.start s = from /\ isRun data s
      /\ tiles data (S (PhaseTimeline.Segment.end_ s)) rest to
  end.

(** No two neighbours have one phase. *)
Fixpoint alternates (segments : list PhaseTimeline.Segment.t) : Prop :=
  match segments with
  | s :: ((t :: _) as rest) =>
      PhaseTimeline.Segment.phase s <> PhaseTimeline.Segment.phase t
      /\ alternates rest
  | _ => True
  end.

(** What the loop keeps true before it looks at index [i]. *)
Definition grouped (data : list PhaseTimeline.ResonanceData) (i : nat)
  (st : PhaseTimeline.Grouping) : Prop :=
  (PhaseTimeline.segmentStart st < i <= length data)%nat
  /\ tiles data 0 (PhaseTimeline.phaseSegments st)
           (PhaseTimeline.segmentStart st)
  /\ alternates (PhaseTimeline.phaseSegments st)
  /\ (forall k, (PhaseTimeline.segmentStart st <= k < i)%nat ->
        option_map PhaseTimeline.phase (nth_error data k)
        = PhaseTimeline.currentPhase st)
  /\ (forall t,
        last (map Some (PhaseTimeline.phaseSegments st)) None = Some t ->
        PhaseTimeline.Segment.phase t <> PhaseTimeline.currentPhase st).


(** ** The voice recorder: [VoiceRecorder.analyzeVoiceData]

    The analysis of the volumes sampled during a recording. A number that
    comes out of a division by the duration is an [option]: [None] is what
    the division gives for a duration of 0, which is no finite number. *)
Module VoiceRecorder.

Inductive EmotionalTone : Type := Calm | Excited | Stressed | Neutral.

Record VoiceAnalysis : Type := {
  duration : Q;
  averageVolume : Q;
  peakVolume : Q;
  silencePeriods : list Q;
  speechRate : option Q;
  emotionalTone : EmotionalTone
}.

(** [Math.round]. *)
Definition Math_round (x : Q) : Q := inject_Z (Qfloor (x + 0.5)).

(** [data.reduce((a, b) => a + b, 0)]. *)
Definition sum (data : list Q) : Q := fold_left Qplus data 0.

(** [Math.max(...data)] of at least one number. *)
Definition Math_max (first : Q) (others : list Q) : Q :=
  fold_left Qmax others first.

Definition calculateVariance (data : list Q) : Q :=
  let mean := sum data / ofNat (length data) in
  let squaredDiffs := map (fun value => (value - mean) ^ 2) data in
  sum squaredDiffs / ofNat (length data).

Definition determineEmotionalTone (avg peak variance : Q) : EmotionalTone :=
  let intensity := peak / (if Qeq_bool avg 0 then 1 else avg) in
  if Qltb 500 variance && Qltb 2 intensity then Excited
  else if Qltb 300 variance && Qltb 50 avg then Stressed
  else if Qltb variance 100 && Qltb avg 30 then Calm
  else Neutral.

(** The two variables the [forEach] of [analyzeVoiceData] assigns. *)
Record Silences : Type := {
  periods : list Q;
  silenceStart : Q
}.

(** The callback of that [forEach]. *)
Definition silenceStep (count : nat) (duration0 silenceThreshold : Q)
  (st : Silences) (volume : Q) (index : nat) : Silences :=
  let timeStamp := ofNat index / ofNat count * duration0 in
  if Qltb volume silenceThreshold && Qeq_bool (silenceStart st) (-1)
  then {| periods := periods st; silenceStart := timeStamp |}
  else if negb (Qltb volume silenceThreshold)
          && negb (Qeq_bool (silenceStart st) (-1))
  then {| periods := periods st ++ [timeStamp - silenceStart st];
          silenceStart := -1 |}
  else st.

Definition analyzeVoiceData (volumeData : list Q) (duration0 : Q)
  : VoiceAnalysis :=
  match volumeData with
  | [] =>
      {| duration := duration0; averageVolume := 0; peakVolume := 0;
         silencePeriods := []; speechRate := Some 0;
         emotionalTone := Neutral |}
  | first :: others =>
      let averageVolume0 := sum volumeData / ofNat (length volumeData) in
      let peakVolume0 := Math_max first others in
      let silenceThreshold := averageVolume0 * 0.3 in
      let silences :=
        GlyphAnalyzer.forEachFrom
          (silenceStep (length volumeData) duration0 silenceThreshold)
          0 volumeData {| periods := []; silenceStart := -1 |} in
      let speechPeriods := duration0 - sum (periods silences) in
      let estimatedWords := speechPeriods * 2.5 in
      let speechRate0 :=
        if Qeq_bool duration0 0 then None
        else Some (Math_round (estimatedWords / duration0 * 60)) in
      let volumeVariance := calculateVariance volumeData in
      {| duration := duration0;
         averageVolume := Math_round averageVolume0;
         peakVolume := Math_round peakVolume0;
         silencePeriods := periods silences;
         speechRate := speechRate0;
         emotionalTone :=
           determineEmotionalTone averageVolume0 peakVolume0 volumeVariance |}
  end.

End VoiceRecorder.

(** What the loop over the volumes keeps true before index [i]: the silences
    found lie before the open one, if one is open, and before the time of
    [i]. *)
Definition silencesBefore (count : nat) (duration0 : Q) (i : nat)
  (st : VoiceRecorder.Silences) : Prop :=
  Forall (fun period => 0 < period) (VoiceRecorder.periods st)
  /\ (VoiceRecorder.silenceStart st == -1
      /\ VoiceRecorder.sum (VoiceRecorder.periods st)
         <= ofNat (i - 1) / ofNat count * duration0
      \/ (1 <= i)%nat
         /\ 0 <= VoiceRecorder.silenceStart st
         /\ VoiceRecorder.sum (VoiceRecorder.periods st)
            <= VoiceRecorder.silenceStart st
         /\ VoiceRecorder.silenceStart st
            <= ofNat (i - 1) / ofNat count * duration0).

(** ** The session store: [SessionManager]

    The session lives in memory and is written to [localStorage] as a whole.
    Writing can fail; how each attempt ends is given with the storage, as the
    draws of [Math.random] are given with their source. Identifiers and
    times come from the clock and the random source and are arguments here. *)

(** Stable sorting in descending order of a key, as
    [array.sort((a, b) => key(b) - key(a))] does it: [sort] is stable, and a
    list has one stable arrangement in a given order. *)
Fixpoint insertDesc {A} (key : A -> Z) (x : A) (sorted : list A) : list A :=
  match sorted with
  | [] => [x]
  | y :: rest =>
      if (key x <=? key y)%Z then y :: insertDesc key x rest
      else x :: y :: rest
  end.

Definition sortDesc {A} (key : A -> Z) (l : list A) : list A :=
  fold_left (fun sorted x => insertDesc key x sorted) l [].

(** [a === b] on strings, and on values that are a string or [undefined]. *)
Definition sameString (a b : jsstring) : bool :=
  if list_eq_dec N.eq_dec a b then true else false.

Definition sameValue (a b : option jsstring) : bool :=
  match a, b with
  | Some x, Some y => sameString x y
  | None, None => true
  | _, _ => false
  end.

(** A [Map] used as a counter: its entries in insertion order.
    [counts.set(key, (counts.get(key) || 0) + 1)]. *)
Fixpoint bump (counts : list (option jsstring * Z)) (key : option jsstring)
  : list (option jsstring * Z) :=
  match counts with
  | [] => [(key, 1%Z)]
  | (k, count) :: rest =>
      if sameValue k key then (k, (count + 1)%Z) :: rest
      else (k, count) :: bump rest key
  end.

Module SessionManager.

Inductive InputType : Type := Text | Voice | Symbol.

Record SessionEntry : Type := {
  id : jsstring;
  timestamp : Z;
  inputType : InputType;
  inputData : jsstring;
  analysis : ResonanceAnalysis;
  voiceAnalysis : option VoiceRecorder.VoiceAnalysis;
  glyphSnapshot : option jsstring;
  tags : list (option jsstring);
  notes : jsstring
}.

Record Preferences : Type := {
  aiProvider : jsstring;
  autoAnalyze : bool;
  saveHistory : bool;
  darkMode : bool
}.

Record UserSession : Type := {
  sessionId : jsstring;
  startTime : Z;
  entries : list SessionEntry;
  totalAnalyses : Z;
  favoriteGlyphs : list jsstring;
  preferences : Preferences
}.

Definition MAX_ENTRIES : nat := 100.

(** How a [localStorage.setItem] ends: done, or a [DOMException] of code 22
    (the quota is exceeded), or another exception. *)
Inductive Outcome : Type := Stored | QuotaExceeded | OtherFailure.

(** The storage: the session under [STORAGE_KEY], if any, and the outcomes
    of the writes, in the order of the attempts. *)
Record LocalStorage : Type := {
  item : option UserSession;
  outcomes : nat -> Outcome;
  attempts : nat
}.

Definition setItem (session : UserSession) (storage : LocalStorage)
  : Outcome * LocalStorage :=
  let outcome := outcomes storage (attempts storage) in
  (outcome,
   {| item := match outcome with
              | Stored => Some session
              | _ => item storage
              end;
      outcomes := outcomes storage;
      attempts := S (attempts storage) |}).

Definition removeItem (storage : LocalStorage) : LocalStorage :=
  {| item := None; outcomes := outcomes storage;
     attempts := attempts storage |}.

(** A manager and the storage it writes to. *)
Record t : Type := {
  currentSession : UserSession;
  localStorage : LocalStorage
}.

Definition setEntries (session : UserSession) (l : list SessionEntry)
  : UserSession :=
  {| sessionId := sessionId session; startTime := startTime session;
     entries := l; totalAnalyses := totalAnalyses session;
     favoriteGlyphs := favoriteGlyphs session;
     preferences := preferences session |}.

Definition setFavorites (session : UserSession) (l : list jsstring)
  : UserSession :=
  {| sessionId := sessionId session; startTime := startTime session;
     entries := entries session; totalAnalyses := totalAnalyses session;
     favoriteGlyphs := l; preferences := preferences session |}.

Definition createNewSession (newId : jsstring) (now : Z) : UserSession :=
  {| sessionId := newId; startTime := now; entries := [];
     totalAnalyses := 0; favoriteGlyphs := [];
     preferences := {| aiProvider := lit "Groq"; autoAnalyze := true;
                       saveHistory := true; darkMode := true |} |}.

Definition cleanupOldEntries (session : UserSession) : UserSession :=
  let keepCount := Z.to_nat (Qfloor (ofNat MAX_ENTRIES * 0.7)) in
  setEntries session (firstn keepCount (sortDesc timestamp (entries session))).

Definition saveSession (m : t) : t :=
  let '(outcome, storage) := setItem (currentSession m) (localStorage m) in
  match outcome with
  | Stored | OtherFailure =>
      {| currentSession := currentSession m; localStorage := storage |}
  | QuotaExceeded =>
      let cleaned := cleanupOldEntries (currentSession m) in
      let '(_, storage) := setItem cleaned storage in
      {| currentSession := cleaned; localStorage := storage |}
  end.

Definition generateTags (analysis0 : ResonanceAnalysis)
  : list (option jsstring) :=
  (if Qltb 70 (cognitiveLoad analysis0) then [Some (lit "complex")] else [])
  ++ (if Qltb 70 (emotionalIntensity analysis0)
      then [Some (lit "intense")] else [])
  ++ (if Qltb 70 (symbolicDensity analysis0)
      then [Some (lit "symbolic")] else [])
  ++ (if Qltb 70 (temporalFlow analysis0) then [Some (lit "dynamic")] else [])
  ++ [shape (glyphData analysis0)]
  ++ (if (2 <? length (emergencePoints analysis0))%nat
      then [Some (lit "emergent")] else []).

Definition addEntry (newId : jsstring) (now : Z) (inputType0 : InputType)
  (inputData0 : jsstring) (analysis0 : ResonanceAnalysis)
  (voiceAnalysis0 : option VoiceRecorder.VoiceAnalysis)
  (glyphSnapshot0 : option jsstring) (m : t) : SessionEntry * t :=
  let entry :=
    {| id := newId; timestamp := now; inputType := inputType0;
       inputData := inputData0; analysis := analysis0;
       voiceAnalysis := voiceAnalysis0; glyphSnapshot := glyphSnapshot0;
       tags := generateTags analysis0; notes := [] |} in
  let session := currentSession m in
  let unshifted := entry :: entries session in
  let limited :=
    if (MAX_ENTRIES <? length unshifted)%nat
    then firstn MAX_ENTRIES unshifted else unshifted in
  let session :=
    {| sessionId := sessionId session; startTime := startTime session;
       entries := limited; totalAnalyses := (totalAnalyses session + 1)%Z;
       favoriteGlyphs := favoriteGlyphs session;
       preferences := preferences session |} in
  let m := {| currentSession := session; localStorage := localStorage m |} in
  (entry, if saveHistory (preferences session) then saveSession m else m).

(** [entries.slice(0, limit)] for an integer [limit]. *)
Definition sliceTo {A} (limit : Z) (l : list A) : list A :=
  if (limit <? 0)%Z then firstn (Z.to_nat (Z.of_nat (length l) + limit)) l
  else firstn (Z.to_nat limit) l.

(** [getEntries(limit)]; [None] is a call without argument. *)
Definition getEntries (limit : option Z) (m : t) : list SessionEntry :=
  match limit with
  | Some n => if (n =? 0)%Z then entries (currentSession m)
              else sliceTo n (entries (currentSession m))
  | None => entries (currentSession m)
  end.

Definition getEntry (id0 : jsstring) (m : t) : option SessionEntry :=
  find (fun entry => sameString (id entry) id0) (entries (currentSession m)).

(** [entries.findIndex(...)] and [entries.splice(index, 1)] in one pass:
    the list without its first element that satisfies [p], if there is
    one. *)
Fixpoint removeFirst {A} (p : A -> bool) (l : list A) : option (list A) :=
  match l with
  | [] => None
  | x :: rest =>
      if p x then Some rest
      else option_map (cons x) (removeFirst p rest)
  end.

Definition deleteEntry (id0 : jsstring) (m : t) : bool * t :=
  match removeFirst (fun entry => sameString (id entry) id0)
                    (entries (currentSession m)) with
  | Some remaining =>
      (true,
       saveSession {| currentSession := setEntries (currentSession m) remaining;
                      localStorage := localStorage m |})
  | None => (false, m)
  end.

Definition addToFavorites (glyphSnapshot0 : jsstring) (m : t) : t :=
  if existsb (sameString glyphSnapshot0) (favoriteGlyphs (currentSession m))
  then m
  else
    saveSession
      {| currentSession :=
           setFavorites (currentSession m)
             (favoriteGlyphs (currentSession m) ++ [glyphSnapshot0]);
         localStorage := localStorage m |}.

Definition removeFromFavorites (glyphSnapshot0 : jsstring) (m : t) : t :=
  match removeFirst (sameString glyphSnapshot0)
                    (favoriteGlyphs (currentSession m)) with
  | Some remaining =>
      saveSession
        {| currentSession := setFavorites (currentSession m) remaining;
           localStorage := localStorage m |}
  | None => m
  end.

Definition clearSession (newId : jsstring) (now : Z) (m : t) : t :=
  {| currentSession := createNewSession newId now;
     localStorage := removeItem (localStorage m) |}.

Record SessionStats : Type := {
  totalEntries : nat;
  statsTotalAnalyses : Z;
  sessionDuration : Z;
  averageAnalysisTime : Q;
  topTags : list (option jsstring * Z);
  glyphShapeDistribution : list (option jsstring * Z)
}.

Definition getSessionStats (now : Z) (m : t) : SessionStats :=
  let session := currentSession m in
  let sessionDuration0 := (now - startTime session)%Z in
  let averageAnalysisTime0 :=
    if (0 <? length (entries session))%nat
    then inject_Z sessionDuration0 / ofNat (length (entries session))
    else 0 in
  let tagCounts :=
    fold_left (fun counts entry => fold_left bump (tags entry) counts)
              (entries session) [] in
  let shapeCounts :=
    fold_left
      (fun counts entry => bump counts (shape (glyphData (analysis entry))))
      (entries session) [] in
  {| totalEntries := length (entries session);
     statsTotalAnalyses := totalAnalyses session;
     sessionDuration := sessionDuration0;
     averageAnalysisTime := averageAnalysisTime0;
     topTags := firstn 10 (sortDesc snd tagCounts);
     glyphShapeDistribution := sortDesc snd shapeCounts |}.

End SessionManager.

(** What can be asked of a manager, and a run of such calls from a new
    session. *)
Inductive SessionCall : Type :=
| AddEntry (newId : jsstring) (now : Z)
           (inputType0 : SessionManager.InputType) (inputData0 : jsstring)
           (analysis0 : ResonanceAnalysis)
           (voiceAnalysis0 : option VoiceRecorder.VoiceAnalysis)
           (glyphSnapshot0 : option jsstring)
| DeleteEntry (id0 : jsstring)
| AddToFavorites (glyphSnapshot0 : jsstring)
| RemoveFromFavorites (glyphSnapshot0 : jsstring).

Definition sessionStep (m : SessionManager.t) (call : SessionCall)
  : SessionManager.t :=
  match call with
  | AddEntry newId now inputType0 inputData0 analysis0 voiceAnalysis0
             glyphSnapshot0 =>
      snd (SessionManager.addEntry newId now inputType0 inputData0 analysis0
             voiceAnalysis0 glyphSnapshot0 m)
  | DeleteEntry id0 => snd (SessionManager.deleteEntry id0 m)
  | AddToFavorites glyphSnapshot0 =>
      SessionManager.addToFavorites glyphSnapshot0 m
  | RemoveFromFavorites glyphSnapshot0 =>
      SessionManager.removeFromFavorites glyphSnapshot0 m
  end.

(** A manager on a new session, with a storage that holds nothing yet. *)
Definition newManager (newId : jsstring) (now : Z)
  (outcomes0 : nat -> SessionManager.Outcome) : SessionManager.t :=
  {| SessionManager.currentSession :=
       SessionManager.createNewSession newId now;
     SessionManager.localStorage :=
       {| SessionManager.item := None;
          SessionManager.outcomes := outcomes0;
          SessionManager.attempts := 0 |} |}.

(** The number of calls of [addEntry] in a run. *)
Definition additions (calls : list SessionCall) : nat :=
  length (filter (fun call => match call with AddEntry _ _ _ _ _ _ _ => true
                                          | _ => false end) calls).

(** Non-increasing keys. *)
Definition descending {A} (key : A -> Z) (l : list A) : Prop :=
  StronglySorted (fun a b => (key b <= key a)%Z) l.

(** [counts.get(key) || 0]. *)
Definition countOf (counts : list (option jsstring * Z))
  (key : option jsstring) : Z :=
  match find (fun entry => sameValue (fst entry) key) counts with
  | Some (_, count) => count
  | None => 0%Z
  end.

(** ** The arcs of a frame

    The two methods of [GlyphRenderer] whose arcs have a radius that is
    computed, [renderCircleGlyph] and [renderFrequencyRings], as the calls
    they make on the drawing context. [ctx.arc] throws the [DOMException]
    named [IndexSizeError] when its radius is negative. *)
Module GlyphDrawing.

Inductive DOMException : Type := IndexSizeError.

Inductive Call : Type :=
| Save
| Restore
| BeginPath
| Arc (x y radius startAngle endAngle : Q)
| Stroke
| Fill
| SetStrokeStyle (style : jsstring)
| SetLineWidth (lineWidth : Q).

(** What a method did to the context, or what it threw. *)
Inductive drawing : Type :=
| Painted (calls : list Call)
| Raised (e : DOMException).

Definition andThen (d : drawing) (k : list Call -> drawing) : drawing :=
  match d with
  | Painted calls => k calls
  | Raised e => Raised e
  end.

Definition arc (x y radius startAngle endAngle : Q) (calls : list Call)
  : drawing :=
  if Qltb radius 0 then Raised IndexSizeError
  else Painted (calls ++ [Arc x y radius startAngle endAngle]).

(** [for (let i = start; ...; i++) body], run [n] times. *)
Fixpoint repeatFrom (n : nat) (i : nat) (body : nat -> list Call -> drawing)
  (calls : list Call) : drawing :=
  match n with
  | O => Painted calls
  | S k => andThen (body i calls) (repeatFrom k (S i) body)
  end.

Definition circleRing (size : Q) (i : nat) (calls : list Call) : drawing :=
  let radius := size / 2 * (1 - ofNat i * 0.2) in
  andThen (arc 0 0 radius 0 (Math_PI * 2) (calls ++ [BeginPath]))
    (fun calls =>
       Painted (calls ++ [Stroke] ++ if (i =? 0)%nat then [Fill] else [])).

Definition renderCircleGlyph (size : Q) (analysis : ResonanceAnalysis)
  (calls : list Call) : drawing :=
  let rings := Z.max 1 (Qfloor (complexity (glyphData analysis) / 2)) in
  repeatFrom (Z.to_nat rings) 0 (circleRing size) calls.

Section WithHost.
Context {host : Host}.

Definition frequencyRing (maxRadius : Q) (analysis : ResonanceAnalysis)
  (x y time : Q) (i : nat) (calls : list Call) : drawing :=
  let radius :=
    maxRadius * (0.3 + ofNat i * 0.2) + Math_sin (time * 2 + ofNat i) * 20 in
  let opacity := 0.1 + temporalFlow analysis / 100 * 0.2 in
  andThen
    (arc x y radius 0 (Math_PI * 2)
       (calls ++ [Save;
                  SetStrokeStyle
                    (GlyphRenderer.hexToRgba (lit "#00FFFF") opacity);
                  SetLineWidth 1; BeginPath]))
    (fun calls => Painted (calls ++ [Stroke; Restore])).

Definition renderFrequencyRings (canvasWidth canvasHeight : Q)
  (analysis : ResonanceAnalysis) (x y time : Q) (calls : list Call)
  : drawing :=
  let maxRadius := Qmin canvasWidth canvasHeight * 0.6 in
  let rings := 3%nat in
  repeatFrom rings 0 (frequencyRing maxRadius analysis x y time) calls.

End WithHost.

End GlyphDrawing.

(** The radii of the arcs among some calls. *)
Definition radii (calls : list GlyphDrawing.Call) : list Q :=
  flat_map (fun call => match call with
                        | GlyphDrawing.Arc _ _ radius _ _ => [radius]
                        | _ => []
                        end) calls.
(** * Properties *)

(** ** Arithmetic and list helpers *)

Lemma ofNat_nonneg (n : nat) : 0 <= ofNat n.
Proof.
  unfold ofNat. change 0 with (inject_Z 0). rewrite <- Zle_Qle. lia.
Qed.

Lemma ofNat_le (a b : nat) : (a <= b)%nat -> ofNat a <= ofNat b.
Proof.
  intros H. unfold ofNat. rewrite <- Zle_Qle. lia.
Qed.

Lemma ofNat_pos (n : nat) : (1 <= n)%nat -> 1 <= ofNat n.
Proof.
  intros H. change 1 with (ofNat 1). now apply ofNat_le.
Qed.

Lemma Qltb_true (a b : Q) : Qltb a b = true <-> a < b.
Proof.
  unfold Qltb. rewrite negb_true_iff. split.
  - intros H. apply Qnot_le_lt. intros Hle.
    apply Qle_bool_iff in Hle. congruence.
  - intros H. destruct (Qle_bool b a) eqn:E; [|reflexivity].
    apply Qle_bool_iff in E. exfalso. apply (Qlt_not_le _ _ H E).
Qed.

(** A sum accumulated by [reduce] from terms that are not negative. *)
Lemma fold_sum_ge {A} (g : A -> Q) (l : list A) :
  (forall a, 0 <= g a) ->
  forall init, init <= fold_left (fun sum a => sum + g a) l init.
Proof.
  intros Hg. induction l as [|a l IH]; intros init; simpl.
  - apply Qle_refl.
  - eapply Qle_trans; [|apply IH]. specialize (Hg a). lra.
Qed.

Lemma min100_range (v : Q) : 0 <= v -> 0 <= Qmin 100 v <= 100.
Proof.
  intros H. split.
  - apply Q.min_glb; [discriminate | exact H].
  - apply Q.le_min_l.
Qed.

Lemma Qdiv_nonneg (a b : Q) : 0 <= a -> 0 <= b -> 0 <= a / b.
Proof.
  intros Ha Hb. unfold Qdiv. apply Qmult_le_0_compat; [exact Ha|].
  now apply Qinv_le_0_compat.
Qed.

(** ** Splitting *)

Lemma splitFrom_length (m : matcher) (s : jsstring) :
  forall skip cur prev, (1 <= length (splitFrom m skip cur prev s))%nat.
Proof.
  induction s as [|c r IH]; intros skip cur prev; simpl.
  - lia.
  - destruct skip as [|k]; [|apply IH].
    destruct (m prev (c :: r)) as [[|k]|]; simpl; try apply IH. lia.
Qed.

Lemma split_length (m : matcher) (s : jsstring) :
  (1 <= length (split m s))%nat.
Proof. apply splitFrom_length. Qed.

(** ** The scores *)

Module AnalyzerFacts.
Import GlyphAnalyzer.

Lemma lexicon_score_nonneg (weight : Q) (text : jsstring) (ws : list jsstring) :
  0 <= weight ->
  0 <= fold_left
         (fun score word =>
            score + ofNat (countMatches (boundedWord word) text) * weight)
         ws 0.
Proof.
  intros Hw.
  apply (fold_sum_ge
           (fun word => ofNat (countMatches (boundedWord word) text) * weight)).
  intros w. apply Qmult_le_0_compat; [apply ofNat_nonneg | exact Hw].
Qed.

Lemma clauses_ge (sentences : list jsstring) :
  forall init,
    init + ofNat (length sentences)
    <= fold_left
         (fun sum sentence =>
            sum + ofNat (length (split clauseBreak sentence)))
         sentences init.
Proof.
  induction sentences as [|s l IH]; intros init.
  - change (init + 0 <= init). lra.
  - cbn [fold_left length]. eapply Qle_trans; [|apply IH].
    pose proof (ofNat_pos _ (split_length clauseBreak s)) as H1.
    assert (H2 : ofNat (S (length l)) == ofNat (length l) + 1).
    { unfold ofNat. rewrite Nat2Z.inj_succ, <- Z.add_1_r, inject_Z_plus.
      reflexivity. }
    lra.
Qed.

Lemma avgWordLength_nonneg (words : list jsstring) :
  0 <= fold_left (fun sum word => sum + ofNat (length word)) words 0
       / ofNat (length words).
Proof.
  apply Qdiv_nonneg; [|apply ofNat_nonneg].
  apply (fold_sum_ge (fun word => ofNat (length word))).
  intros a. apply ofNat_nonneg.
Qed.

Lemma cognitive_sum_ge_1 (text : jsstring) :
  1 <= fold_left (fun sum word => sum + ofNat (length word))
         (split whitespaceRun text) 0
       / ofNat (length (split whitespaceRun text)) * 10
       + ofNat (length (filter (fun word => (6 <? length word)%nat)
                               (split whitespaceRun text))) * 2
       + fold_left
           (fun sum sentence =>
              sum + ofNat (length (split clauseBreak sentence)))
           (split sentenceBreak text) 0.
Proof.
  pose proof (avgWordLength_nonneg (split whitespaceRun text)) as Ha.
  pose proof (ofNat_nonneg
                (length (filter (fun word => (6 <? length word)%nat)
                                (split whitespaceRun text)))) as Hc.
  pose proof (clauses_ge (split sentenceBreak text) 0) as Hs.
  pose proof (ofNat_pos _ (split_length sentenceBreak text)) as H1.
  lra.
Qed.

Lemma calculateCognitiveLoad_ge_1 (text : jsstring) :
  1 <= calculateCognitiveLoad text.
Proof.
  unfold calculateCognitiveLoad.
  apply Q.min_glb; [discriminate | apply cognitive_sum_ge_1].
Qed.

Lemma calculateCognitiveLoad_range (text : jsstring) :
  0 <= calculateCognitiveLoad text <= 100.
Proof.
  split.
  - pose proof (calculateCognitiveLoad_ge_1 text). lra.
  - apply Q.le_min_l.
Qed.

Lemma calculateEmotionalIntensity_range (text : jsstring) :
  0 <= calculateEmotionalIntensity text <= 100.
Proof.
  unfold calculateEmotionalIntensity. apply min100_range.
  pose proof (lexicon_score_nonneg 15 text emotionalWords) as H1.
  pose proof (lexicon_score_nonneg 5 text intensifiers) as H2.
  pose proof (ofNat_nonneg (countMatches (classTwoOrMore isBangOrQuery) text)).
  assert (0 <= 15) by discriminate. assert (0 <= 5) by discriminate.
  specialize (H1 ltac:(assumption)). specialize (H2 ltac:(assumption)). lra.
Qed.

Lemma calculateSymbolicDensity_range (text : jsstring) :
  0 <= calculateSymbolicDensity text <= 100.
Proof.
  unfold calculateSymbolicDensity. apply min100_range.
  pose proof (lexicon_score_nonneg 20 text abstractWords) as H1.
  pose proof (ofNat_nonneg (countMatches (classOne isSymbol) text)).
  pose proof (ofNat_nonneg
                (countMatches (boundedAlternatives metaphorWords) text)).
  assert (0 <= 20) by discriminate.
  specialize (H1 ltac:(assumption)). lra.
Qed.

Lemma calculateTemporalFlow_range (text : jsstring) :
  0 <= calculateTemporalFlow text <= 100.
Proof.
  unfold calculateTemporalFlow. apply min100_range.
  pose proof (lexicon_score_nonneg 8 text timeWords) as H1.
  pose proof (lexicon_score_nonneg 12 text transitionWords) as H2.
  assert (0 <= 8) by discriminate. assert (0 <= 12) by discriminate.
  specialize (H1 ltac:(assumption)). specialize (H2 ltac:(assumption)). lra.
Qed.

End AnalyzerFacts.

(** ** Emergence points *)

Module EmergenceFacts.
Import GlyphAnalyzer.

Lemma forEachFrom_selected {A} (keep : A -> bool) (position : nat -> Q)
  (items : list A) :
  forall index points,
    forEachFrom
      (fun points item index =>
         if keep item then points ++ [position index] else points)
      index items points
    = points ++ map position (selected keep index items).
Proof.
  induction items as [|item rest IH]; intros index points; simpl.
  - now rewrite app_nil_r.
  - rewrite IH. destruct (keep item); simpl.
    + now rewrite <- app_assoc.
    + reflexivity.
Qed.

Lemma selected_bounds {A} (keep : A -> bool) (items : list A) :
  forall index,
    Forall (fun k => (index <= k < index + length items)%nat)
           (selected keep index items).
Proof.
  induction items as [|item rest IH]; intros index; simpl.
  - constructor.
  - apply Forall_app. split.
    + destruct (keep item); constructor; [lia | constructor].
    + eapply Forall_impl; [|apply IH]. simpl. intros k Hk. lia.
Qed.

Lemma selected_sorted {A} (keep : A -> bool) (items : list A) :
  forall index, StronglySorted le (selected keep index items).
Proof.
  induction items as [|item rest IH]; intros index; simpl.
  - constructor.
  - destruct (keep item); simpl; [|apply IH].
    constructor; [apply IH|].
    eapply Forall_impl; [|apply selected_bounds]. simpl. intros k Hk. lia.
Qed.

Lemma position_monotone (count a b : nat) :
  (a <= b)%nat -> position count a <= position count b.
Proof.
  intros H. unfold position, Qdiv.
  apply Qmult_le_compat_r; [|discriminate].
  apply Qmult_le_compat_r; [now apply ofNat_le|].
  apply Qinv_le_0_compat, ofNat_nonneg.
Qed.

Lemma position_range (count index : nat) :
  (index < count)%nat -> inPercent (position count index).
Proof.
  intros H. unfold inPercent, position. split.
  - apply Qmult_le_0_compat; [|discriminate].
    apply Qdiv_nonneg; apply ofNat_nonneg.
  - assert (Hc : 0 < ofNat count).
    { apply Qlt_le_trans with (y := 1); [reflexivity|].
      apply ofNat_pos. lia. }
    assert (Hd : ofNat index / ofNat count <= 1).
    { apply Qle_shift_div_r; [exact Hc|].
      pose proof (ofNat_le index count ltac:(lia)). lra. }
    lra.
Qed.

Lemma map_sorted (count : nat) (ks : list nat) :
  StronglySorted le ks -> StronglySorted Qle (map (position count) ks).
Proof.
  induction 1 as [|k ks Hs IH Hall]; simpl; constructor.
  - exact IH.
  - apply Forall_map. eapply Forall_impl; [|exact Hall].
    simpl. intros b Hb. now apply position_monotone.
Qed.

Lemma findEmergencePoints_selected (text : jsstring) :
  let sentences := filter nonBlank (split sentenceBreak text) in
  findEmergencePoints text
  = map (position (length sentences)) (selected emergent 0 sentences).
Proof.
  intros sentences. unfold findEmergencePoints, emergent, position.
  fold sentences. cbv zeta.
  exact (forEachFrom_selected
           (fun sentence =>
              Qltb 60 (calculateEmotionalIntensity sentence)
              || Qltb 70 (calculateCognitiveLoad sentence))
           (fun index => ofNat index / ofNat (length sentences) * 100)
           sentences 0 []).
Qed.

Lemma findEmergencePoints_sorted (text : jsstring) :
  StronglySorted Qle (findEmergencePoints text).
Proof.
  rewrite findEmergencePoints_selected. apply map_sorted, selected_sorted.
Qed.

Lemma findEmergencePoints_range (text : jsstring) :
  Forall inPercent (findEmergencePoints text).
Proof.
  rewrite findEmergencePoints_selected. apply Forall_map.
  eapply Forall_impl; [|apply selected_bounds].
  simpl. intros k Hk. apply position_range. lia.
Qed.

End EmergenceFacts.

(** ** The analysis as a whole *)

Section AnalysisFacts.
Context {host : Host}.
Import GlyphAnalyzer.

(** C1. For every text, the empty one included, the analysis [analyzeText]
    returns has its four scores between 0 and 100, a glyph frequency of at
    least 0.5, and emergence points in ascending order, each between 0 and
    100. *)
Theorem analyzeText_ranges (text : jsstring) :
  let r := analyzeText text in
  inPercent (cognitiveLoad r) /\ inPercent (emotionalIntensity r)
  /\ inPercent (symbolicDensity r) /\ inPercent (temporalFlow r)
  /\ 0.5 <= frequency (glyphData r)
  /\ StronglySorted Qle (emergencePoints r)
  /\ Forall inPercent (emergencePoints r).
Proof.
  cbn zeta. unfold analyzeText, analyzeTextBody, tryCatch. cbn [cognitiveLoad
    emotionalIntensity symbolicDensity temporalFlow emergencePoints glyphData
    generateGlyphData frequency].
  repeat split.
  - apply AnalyzerFacts.calculateCognitiveLoad_range.
  - apply AnalyzerFacts.calculateCognitiveLoad_range.
  - apply AnalyzerFacts.calculateEmotionalIntensity_range.
  - apply AnalyzerFacts.calculateEmotionalIntensity_range.
  - apply AnalyzerFacts.calculateSymbolicDensity_range.
  - apply AnalyzerFacts.calculateSymbolicDensity_range.
  - apply AnalyzerFacts.calculateTemporalFlow_range.
  - apply AnalyzerFacts.calculateTemporalFlow_range.
  - apply Q.le_max_l.
  - apply EmergenceFacts.findEmergencePoints_sorted.
  - apply EmergenceFacts.findEmergencePoints_range.
Qed.

(** C9. For every text, the empty one included, the cognitive load of the
    analysis is at least 1: the text splits into at least one sentence
    segment, and every segment splits into at least one clause. *)
Theorem cognitiveLoad_at_least_one (text : jsstring) :
  1 <= cognitiveLoad (analyzeText text)
  /\ (1 <= length (split sentenceBreak text))%nat
  /\ Forall (fun sentence => (1 <= length (split clauseBreak sentence))%nat)
            (split sentenceBreak text).
Proof.
  split; [|split].
  - apply AnalyzerFacts.calculateCognitiveLoad_ge_1.
  - apply split_length.
  - apply Forall_forall. intros s _. apply split_length.
Qed.

End AnalysisFacts.

(** ** The glyph mapping *)

Section GlyphMappingFacts.
Context {host : Host}.
Import GlyphAnalyzer.

Lemma at_in_bounds {A} (l : list A) (index : Z) :
  (0 <= index < Z.of_nat (length l))%Z ->
  at_ l index = nth_error l (Z.to_nat index)
  /\ exists a, nth_error l (Z.to_nat index) = Some a /\ In a l.
Proof.
  intros [Hlo Hhi]. unfold at_.
  destruct (index <? 0)%Z eqn:E; [apply Z.ltb_lt in E; lia|].
  split; [reflexivity|].
  destruct (nth_error l (Z.to_nat index)) as [a|] eqn:Hn.
  - exists a. split; [reflexivity|]. eapply nth_error_In, Hn.
  - apply nth_error_None in Hn. lia.
Qed.

Lemma floor_nonneg (v : Q) : 0 <= v -> (0 <= Qfloor v)%Z.
Proof.
  intros H. change 0%Z with (Qfloor 0). now apply Qfloor_resp_le.
Qed.

(** C6. For scores between 0 and 100, the glyph mapping takes the shape from
    the list of six at index [floor((cognitive+emotional)/33) mod 6] (which
    is always one of the six), the frequency [max(0.5, emotional/100)] and
    the complexity [floor((cognitive+symbolic)/20)]. *)
Theorem generateGlyphData_mapping (cognitive emotional symbolic : Q) :
  inPercent cognitive -> inPercent emotional -> inPercent symbolic ->
  let g := generateGlyphData cognitive emotional symbolic in
  shapes = map lit ["circle"; "triangle"; "square"; "hexagon"; "star";
                    "spiral"]%string
  /\ shape g = specShape cognitive emotional
  /\ (exists name, shape g = Some name /\ In name shapes)
  /\ frequency g == Qmax 0.5 (emotional / 100)
  /\ complexity g == inject_Z (Qfloor ((cognitive + symbolic) / 20)).
Proof.
  intros [Hc _] [He _] _ g.
  assert (Hsum : 0 <= (cognitive + emotional) / 33).
  { apply Qdiv_nonneg; [lra | discriminate]. }
  pose proof (floor_nonneg _ Hsum) as Hfloor.
  assert (Hrem : Z.rem (Qfloor ((cognitive + emotional) / 33))
                       (Z.of_nat (length shapes))
                 = (Qfloor ((cognitive + emotional) / 33) mod 6)%Z).
  { change (Z.of_nat (length shapes)) with 6%Z.
    apply Z.rem_mod_nonneg; lia. }
  assert (Hidx : (0 <= Qfloor ((cognitive + emotional) / 33) mod 6
                  < Z.of_nat (length shapes))%Z).
  { change (Z.of_nat (length shapes)) with 6%Z. apply Z.mod_pos_bound. lia. }
  destruct (at_in_bounds shapes _ Hidx) as [Hat [name [Hname Hin]]].
  split; [reflexivity|]. subst g. cbn [generateGlyphData shape frequency
    complexity]. rewrite Hrem, Hat.
  split; [reflexivity|]. split.
  - exists name. now split.
  - split; reflexivity.
Qed.

End GlyphMappingFacts.

(** The mapping at the scores of the default analysis, 50, 30 and 40: the
    third shape, the floor frequency, complexity 4. *)
Lemma generateGlyphData_mapping_witness :
  inPercent 50 /\ inPercent 30 /\ inPercent 40
  /\ shape (@GlyphAnalyzer.generateGlyphData coarseHost 50 30 40)
     = Some (lit "square")
  /\ frequency (@GlyphAnalyzer.generateGlyphData coarseHost 50 30 40) == 0.5
  /\ complexity (@GlyphAnalyzer.generateGlyphData coarseHost 50 30 40) == 4.
Proof.
  assert (H50 : inPercent 50) by (split; discriminate).
  assert (H30 : inPercent 30) by (split; discriminate).
  assert (H40 : inPercent 40) by (split; discriminate).
  destruct (@generateGlyphData_mapping coarseHost 50 30 40 H50 H30 H40)
    as [_ [Hshape [_ [Hfreq Hcomplexity]]]].
  split; [exact H50|]. split; [exact H30|]. split; [exact H40|].
  split; [rewrite Hshape; reflexivity|].
  split; [rewrite Hfreq; reflexivity | rewrite Hcomplexity; reflexivity].
Defined.

(** ** The empty text *)

(** C2, as the claim states it, fails: on the empty string no host makes
    [analyzeText] return the default analysis (its cognitive load is 1, not
    50). *)
Lemma analyzeText_empty_not_default :
  ~ (exists host : Host,
       sameAnalysis (@GlyphAnalyzer.analyzeText host [])
                    GlyphAnalyzer.getDefaultAnalysis).
Proof.
  intros [host [H _]]. vm_compute in H. discriminate H.
Qed.

(** C2, amended. On the empty string [analyzeText] does not take the failure
    path: it returns the vector it computes, cognitiveLoad 1, the three other
    scores 0, no emergence point, the signature of the first archetype with
    the neutral mood and the fallback theme, and the glyph circle, 0.5,
    [hsl(1, 50%, 70%)], 0. The default vector is what the failure path
    returns. *)
Theorem analyzeText_empty (host : Host) :
  sameAnalysis (GlyphAnalyzer.analyzeText []) emptyTextAnalysis
  /\ throws (GlyphAnalyzer.analyzeTextBody []) = false
  /\ forall e, tryCatch (Throw e) (fun _ => GlyphAnalyzer.getDefaultAnalysis)
               = GlyphAnalyzer.getDefaultAnalysis.
Proof.
  split; [|split; [reflexivity | reflexivity]].
  unfold sameAnalysis, sameGlyphData. vm_compute.
  repeat split; try reflexivity. constructor.
Qed.

(** ** Colour conversion *)

Lemma hexDigit_some (c : codeunit) (v : Z) :
  hexDigit c = Some v ->
  ((48 <= c <= 57)%N \/ (65 <= c <= 70)%N \/ (97 <= c <= 102)%N)
  /\ (0 <= v <= 15)%Z.
Proof.
  unfold hexDigit, inRange.
  destruct ((48 <=? c)%N && (c <=? 57)%N) eqn:E1;
    [|destruct ((97 <=? c)%N && (c <=? 102)%N) eqn:E2;
      [|destruct ((65 <=? c)%N && (c <=? 70)%N) eqn:E3]];
    intros H; inversion H; subst;
    match goal with
    | E : (_ && _) = true |- _ => apply andb_true_iff in E as [? ?]
    end; bool_to_N; lia.
Qed.

Lemma hexDigit_not_space (c : codeunit) (v : Z) :
  hexDigit c = Some v -> isSpace c = false.
Proof.
  intros H. apply hexDigit_some in H as [H _].
  unfold isSpace.
  repeat (apply orb_false_intro);
    first [ apply N.eqb_neq; lia | outside_range ].
Qed.

(** Two hexadecimal digits read by [parseInt]. *)
Lemma parseInt16_two_digits (c1 c2 : codeunit) (v1 v2 : Z) :
  hexDigit c1 = Some v1 -> hexDigit c2 = Some v2 ->
  parseInt16 [c1; c2] = Some (v1 * 16 + v2)%Z.
Proof.
  intros H1 H2. unfold parseInt16. cbv zeta. cbn [dropWhile].
  rewrite (hexDigit_not_space _ _ H1).
  pose proof (hexDigit_some _ _ H1) as [R1 _].
  pose proof (hexDigit_some _ _ H2) as [R2 _].
  assert (E45 : (c1 =? 45)%N = false) by (apply N.eqb_neq; lia).
  assert (E43 : (c1 =? 43)%N = false) by (apply N.eqb_neq; lia).
  assert (E120 : (c2 =? 120)%N = false) by (apply N.eqb_neq; lia).
  assert (E88 : (c2 =? 88)%N = false) by (apply N.eqb_neq; lia).
  rewrite E45, E43. cbn [orb]. cbv iota. rewrite E120, E88. cbn [orb].
  rewrite andb_false_r. cbn [hexPrefix]. rewrite H1, H2.
  cbn [fold_left]. reflexivity.
Qed.

(** A slice that starts with something [parseInt] cannot read gives [NaN]. *)
Lemma parseInt16_not_a_number (c : codeunit) (rest : jsstring) :
  isSpace c = false -> c <> 43%N -> c <> 45%N -> isHexDigit c = false ->
  parseInt16 (c :: rest) = None.
Proof.
  intros Hs Hp Hm Hd. unfold parseInt16. cbv zeta. cbn [dropWhile].
  rewrite Hs.
  apply N.eqb_neq in Hp, Hm. rewrite Hp, Hm. cbn [orb].
  unfold isHexDigit in Hd.
  assert (Hprefix : hexPrefix (c :: rest) = []).
  { cbn [hexPrefix]. destruct (hexDigit c); [discriminate | reflexivity]. }
  destruct rest as [|x r].
  - rewrite Hprefix. reflexivity.
  - destruct ((c =? 48)%N && ((x =? 120)%N || (x =? 88)%N)) eqn:E.
    + apply andb_true_iff in E as [E _]. apply N.eqb_eq in E. subst c.
      discriminate Hd.
    + rewrite Hprefix. reflexivity.
Qed.

Lemma isHexColor_digits (hex : jsstring) :
  isHexColor hex = true ->
  exists c1 c2 c3 c4 c5 c6 v1 v2 v3 v4 v5 v6,
    hex = [35%N; c1; c2; c3; c4; c5; c6]
    /\ hexDigit c1 = Some v1 /\ hexDigit c2 = Some v2
    /\ hexDigit c3 = Some v3 /\ hexDigit c4 = Some v4
    /\ hexDigit c5 = Some v5 /\ hexDigit c6 = Some v6.
Proof.
  unfold isHexColor. destruct hex as [|h digits]; [discriminate|].
  destruct (N.eq_dec h 35) as [->|Hne].
  2:{ destruct h as [|p]; try discriminate.
      do 6 (destruct p as [p|p|]; try discriminate). congruence. }
  change (((length digits =? 6)%nat && forallb isHexDigit digits) = true
          -> exists c1 c2 c3 c4 c5 c6 v1 v2 v3 v4 v5 v6,
              35%N :: digits = [35%N; c1; c2; c3; c4; c5; c6]
              /\ hexDigit c1 = Some v1 /\ hexDigit c2 = Some v2
              /\ hexDigit c3 = Some v3 /\ hexDigit c4 = Some v4
              /\ hexDigit c5 = Some v5 /\ hexDigit c6 = Some v6).
  intros H. apply andb_true_iff in H as [Hlen Hall].
  apply Nat.eqb_eq in Hlen.
  do 7 (destruct digits as [|? digits]; try discriminate Hlen).
  cbn [forallb] in Hall. unfold isHexDigit in Hall.
  repeat match type of Hall with
         | (_ && _) = true =>
             let H := fresh "Hd" in apply andb_true_iff in Hall as [H Hall]
         end.
  repeat match goal with
         | H : match hexDigit ?c with Some _ => true | None => false end = true
           |- _ => destruct (hexDigit c) eqn:?; [clear H | discriminate H]
         end.
  repeat eexists; eassumption.
Qed.

Section ColorFacts.
Context {host : Host}.
Import GlyphRenderer.

(** C5, amended. The conversion has no colour to fall back to: for every
    string it returns, without throwing, the text [rgba(r, g, b, alpha)] of
    what [parseInt] reads in the three two-character slices. For a
    well-formed [#rrggbb] string these are three numbers between 0 and 255;
    a slice that starts with a character that is no white space, sign or
    hexadecimal digit reads as [NaN]. *)
Theorem hexToRgba_no_fallback (hex : jsstring) (alpha : Q) :
  hexToRgba hex alpha
  = lit "rgba(" ++ showChannel (parseInt16 (slice 1 3 hex)) ++ lit ", "
    ++ showChannel (parseInt16 (slice 3 5 hex)) ++ lit ", "
    ++ showChannel (parseInt16 (slice 5 7 hex)) ++ lit ", "
    ++ numberToString alpha ++ lit ")"
  /\ (isHexColor hex = true ->
      exists r g b,
        hexChannels hex = (Some r, Some g, Some b)
        /\ isByte r /\ isByte g /\ isByte b)
  /\ (forall c rest,
        isSpace c = false -> c <> 43%N -> c <> 45%N -> isHexDigit c = false ->
        parseInt16 (c :: rest) = None /\ showChannel None = lit "NaN").
Proof.
  split; [reflexivity|]. split.
  - intros H.
    destruct (isHexColor_digits hex H)
      as (c1 & c2 & c3 & c4 & c5 & c6 & v1 & v2 & v3 & v4 & v5 & v6
          & -> & H1 & H2 & H3 & H4 & H5 & H6).
    exists (v1 * 16 + v2)%Z, (v3 * 16 + v4)%Z, (v5 * 16 + v6)%Z.
    unfold hexChannels, slice. cbn [skipn firstn Nat.sub].
    rewrite (parseInt16_two_digits _ _ _ _ H1 H2),
            (parseInt16_two_digits _ _ _ _ H3 H4),
            (parseInt16_two_digits _ _ _ _ H5 H6).
    apply hexDigit_some in H1 as [_ ?], H2 as [_ ?], H3 as [_ ?],
                           H4 as [_ ?], H5 as [_ ?], H6 as [_ ?].
    unfold isByte. repeat split; lia.
  - intros c rest Hs Hp Hm Hd. split; [|reflexivity].
    now apply parseInt16_not_a_number.
Qed.

End ColorFacts.

(** The conversion at the colour of the default analysis, and [parseInt] at
    the slice the analyzer's colours put under the red channel. *)
Lemma hexToRgba_no_fallback_witness :
  isHexColor (lit "#8b5cf6") = true
  /\ (exists r g b,
        GlyphRenderer.hexChannels (lit "#8b5cf6") = (Some r, Some g, Some b)
        /\ isByte r /\ isByte g /\ isByte b)
  /\ parseInt16 (lit "sl") = None.
Proof.
  destruct (@hexToRgba_no_fallback coarseHost (lit "#8b5cf6") 1)
    as [_ [Hhex Hnan]].
  split; [reflexivity|]. split; [apply Hhex; reflexivity|].
  apply (Hnan 115%N [108%N]); [reflexivity | discriminate | discriminate
                               | reflexivity].
Defined.

(** C5, as the claim states it, fails: the colour the analyzer produces for
    the empty text, [hsl(1, 50%, 70%)], is no hex colour, and its conversion
    is no colour either, its three channels being [NaN]. *)
Lemma hexToRgba_hsl_is_no_color :
  (forall host : Host,
     color (glyphData (@GlyphAnalyzer.analyzeText host []))
     = lit "hsl(1, 50%, 70%)")
  /\ isHexColor (lit "hsl(1, 50%, 70%)") = false
  /\ GlyphRenderer.hexChannels (lit "hsl(1, 50%, 70%)") = (None, None, None)
  /\ ~ isColor (GlyphRenderer.hexChannels (lit "hsl(1, 50%, 70%)"))
  /\ (forall (host : Host) (alpha : Q),
        exists rest,
          GlyphRenderer.hexToRgba (lit "hsl(1, 50%, 70%)") alpha
          = lit "rgba(NaN, NaN, NaN, " ++ rest).
Proof.
  split; [intros host; vm_compute; reflexivity|].
  split; [reflexivity|]. split; [reflexivity|]. split.
  - intros (r & g & b & H). vm_compute in H. discriminate H.
  - intros host alpha. eexists. reflexivity.
Qed.

(** The same for every colour the analyzer can produce: red and green are
    read from [sl] and from [(] and come out as [NaN]. *)
Lemma hexToRgba_of_glyph_color (host : Host) (cognitive emotional symbolic : Q) :
  exists b,
    GlyphRenderer.hexChannels
      (GlyphAnalyzer.generateGlyphColor cognitive emotional symbolic)
    = (None, None, b).
Proof.
  unfold GlyphAnalyzer.generateGlyphColor, GlyphRenderer.hexChannels.
  set (hue := numberToString _). set (tail := lit ", " ++ _).
  change (lit "hsl(" ++ hue ++ tail)
    with (104%N :: 115%N :: 108%N :: 40%N :: (hue ++ tail)).
  unfold slice. cbn [skipn firstn Nat.sub].
  eexists. f_equal. f_equal.
  destruct (hue ++ tail) as [|c r]; reflexivity.
Qed.

(** ** Particles *)

Section ParticleFacts.
Context {host : Host}.
Import Particle.

(** A particle whose life runs out in a tick is respawned in that tick: its
    life is its [maxLife] again, and its position is drawn in a rectangle of
    800 by 600, whatever the canvas. *)
Lemma update_respawns (p : t) (centerX centerY frequency time : Q) (rng : Rng) :
  life p - 1 <= 0 ->
  let p' := fst (update p centerX centerY frequency time rng) in
  life p' = maxLife p
  /\ maxLife p' = maxLife p
  /\ x p' = source rng (taken rng) * 800
  /\ y p' = source rng (S (taken rng)) * 600.
Proof.
  intros Hlife. unfold update.
  destruct (Qltb 0 (Math_sqrt _)); cbv zeta; cbn [life];
    (replace (Qle_bool (life p - 1) 0) with true
      by (symmetry; now apply Qle_bool_iff));
    unfold respawn, Math_random; cbn; repeat split.
Qed.

(** While it lives, a particle is only moved. *)
Lemma update_moves (p : t) (centerX centerY frequency time : Q) (rng : Rng) :
  0 < life p - 1 ->
  let p' := fst (update p centerX centerY frequency time rng) in
  life p' = life p - 1 /\ maxLife p' = maxLife p
  /\ snd (update p centerX centerY frequency time rng) = rng.
Proof.
  intros Hlife. unfold update.
  assert (E : Qle_bool (life p - 1) 0 = false).
  { destruct (Qle_bool (life p - 1) 0) eqn:E; [|reflexivity].
    apply Qle_bool_iff in E. lra. }
  destruct (Qltb 0 (Math_sqrt _)); cbv zeta; cbn [life]; rewrite E;
    cbn; repeat split.
Qed.

(** Where the two ways of placing a particle put it, for a draw in
    [[0, 1)]: [initializeParticles] inside the canvas, [respawn] inside 800
    by 600. *)
Lemma spawn_inside_canvas (canvasWidth canvasHeight : Q) (color0 : jsstring)
  (rng : Rng) :
  0 < canvasWidth -> 0 < canvasHeight ->
  (forall n, 0 <= source rng n < 1) ->
  let placed := fst (spawn canvasWidth canvasHeight color0 rng) in
  0 <= x placed < canvasWidth /\ 0 <= y placed < canvasHeight.
Proof.
  intros Hw Hh Hdraw. unfold spawn, create, Math_random. cbn.
  pose proof (Hdraw (taken rng)) as [H1 H2].
  pose proof (Hdraw (S (taken rng))) as [H3 H4].
  repeat split; nra.
Qed.

Lemma respawn_inside_800_by_600 (p : t) (rng : Rng) :
  (forall n, 0 <= source rng n < 1) ->
  let placed := fst (respawn p rng) in
  0 <= x placed < 800 /\ 0 <= y placed < 600.
Proof.
  intros Hdraw. unfold respawn, Math_random. cbn.
  pose proof (Hdraw (taken rng)) as [H1 H2].
  pose proof (Hdraw (S (taken rng))) as [H3 H4].
  repeat split; lra.
Qed.

(** C3, on the code. A canvas of 400 by 300, a particle in its last tick,
    and a random source that returns 0.9: the particle is respawned in the
    same tick with its life back at [maxLife], but at (720, 540), outside
    the canvas, where [initializeParticles] would have put it at (360, 270). *)
Theorem respawn_outside_canvas :
  let canvasWidth := 400 in
  let canvasHeight := 300 in
  let rng := {| source := fun _ => 0.9; taken := 0 |} in
  let p := {| x := 100; y := 100; vx := 0; vy := 0; color := lit "#8b5cf6";
              size := 2; life := 1; maxLife := 80 |} in
  let p' := fst (update p (canvasWidth / 2) (canvasHeight / 2) 0.5 0 rng) in
  let placed := fst (spawn canvasWidth canvasHeight (lit "#8b5cf6") rng) in
  life p' == maxLife p'
  /\ x p' == 720 /\ y p' == 540
  /\ ~ x p' < canvasWidth /\ ~ y p' < canvasHeight
  /\ x placed == 360 /\ y placed == 270.
Proof.
  intros canvasWidth canvasHeight rng p p' placed.
  assert (Hlife : life p - 1 <= 0) by (vm_compute; discriminate).
  destruct (update_respawns p (canvasWidth / 2) (canvasHeight / 2) 0.5 0 rng
                            Hlife) as (H1 & H2 & H3 & H4).
  fold p' in H1, H2, H3, H4. rewrite H1, H2, H3, H4.
  repeat split; try reflexivity; vm_compute; intros H; discriminate H.
Qed.

End ParticleFacts.

(** ** Arrays and loops *)

Section ArrayFacts.
Context {A : Type}.

Lemma arraySet_middle (hole : A) (pre post : list A) (e v : A) :
  arraySet hole (pre ++ e :: post) (length pre) v = pre ++ v :: post.
Proof.
  induction pre as [|a pre IH]; simpl; [reflexivity | now rewrite IH].
Qed.

Lemma arraySet_end (hole : A) (pre : list A) (v : A) :
  arraySet hole pre (length pre) v = pre ++ [v].
Proof.
  induction pre as [|a pre IH]; simpl; [reflexivity | now rewrite IH].
Qed.

Lemma element_middle (pre post : list A) (e : A) :
  element (pre ++ e :: post) (length pre) = Normal e.
Proof.
  unfold element. rewrite nth_error_app2 by lia.
  now rewrite Nat.sub_diag.
Qed.

End ArrayFacts.

Module FieldFacts.
Import ResonanceField.

Lemma setCell_extend (pre post : list (list Q)) (done : list Q) (v : Q) :
  setCell (pre ++ done :: post) (length pre) (length done) v
  = Normal (pre ++ (done ++ [v]) :: post).
Proof.
  unfold setCell. rewrite element_middle. cbn [bind].
  now rewrite arraySet_middle, arraySet_end.
Qed.

Lemma setCell_overwrite (pre post : list (list Q)) (done rest : list Q)
  (e v : Q) :
  setCell (pre ++ (done ++ e :: rest) :: post) (length pre) (length done) v
  = Normal (pre ++ (done ++ v :: rest) :: post).
Proof.
  unfold setCell. rewrite element_middle. cbn [bind].
  now rewrite arraySet_middle, arraySet_middle.
Qed.

(** The inner loop of [initializeField] appends [n] zeros to row [i]. *)
Lemma fill_row (pre post : list (list Q)) (n : nat) :
  forall done,
    forLoop n (length done) (fun j cells => setCell cells (length pre) j 0)
            (pre ++ done :: post)
    = Normal (pre ++ (done ++ repeat 0 n) :: post).
Proof.
  induction n as [|n IH]; intros done; cbn [forLoop repeat].
  - now rewrite app_nil_r.
  - rewrite setCell_extend. cbn [bind].
    replace (S (length done)) with (length (done ++ [0]))
      by (rewrite length_app; simpl; lia).
    rewrite IH, <- app_assoc. reflexivity.
Qed.

(** Its outer loop appends [n] rows of [cols] zeros. *)
Lemma fill_rows (cols : Z) (n : nat) :
  forall pre,
    forLoop n (length pre)
            (fun i cells =>
               forUpTo cols (fun j cells => setCell cells i j 0)
                       (arraySet [] cells i []))
            pre
    = Normal (pre ++ repeat (repeat 0 (Z.to_nat cols)) n).
Proof.
  induction n as [|n IH]; intros pre; cbn [forLoop repeat].
  - now rewrite app_nil_r.
  - rewrite arraySet_end. unfold forUpTo at 1.
    pose proof (fill_row pre [] (Z.to_nat cols) []) as Hrow.
    cbn [length app] in Hrow. rewrite Hrow. cbn [bind].
    replace (S (length pre))
      with (length (pre ++ [repeat 0 (Z.to_nat cols)]))
      by (rewrite length_app; simpl; lia).
    rewrite IH, <- app_assoc. reflexivity.
Qed.

Lemma initializeField_grid (f : t) :
  initializeField f
  = Normal (setField f (zeroGrid (Qceiling (height f / gridSize))
                                 (Qceiling (width f / gridSize)))).
Proof.
  unfold initializeField, forUpTo at 1.
  pose proof (fill_rows (Qceiling (width f / gridSize))
                        (Z.to_nat (Qceiling (height f / gridSize))) [])
    as Hrows.
  cbn [length app] in Hrows. rewrite Hrows. reflexivity.
Qed.

Lemma zeroGrid_dimensions (rows cols : Z) :
  (0 <= rows)%Z -> (0 <= cols)%Z ->
  hasDimensions (zeroGrid rows cols) rows cols /\ allZero (zeroGrid rows cols).
Proof.
  intros Hr Hc. unfold hasDimensions, allZero, zeroGrid. repeat split.
  - rewrite repeat_length. lia.
  - apply Forall_forall. intros row Hrow. apply repeat_spec in Hrow.
    subst row. rewrite repeat_length. lia.
  - apply Forall_forall. intros row Hrow. apply repeat_spec in Hrow.
    subst row. apply Forall_forall. intros v Hv.
    now apply repeat_spec in Hv.
Qed.

(** The inner loop of [update] writes the cells of row [i] one by one. *)
Lemma write_row (pre post : list (list Q)) (value : nat -> Q)
  (rest : list Q) :
  forall done,
    forLoop (length rest) (length done)
            (fun j cells => setCell cells (length pre) j (value j))
            (pre ++ (done ++ rest) :: post)
    = Normal
        (pre ++ (done ++ map value (seq (length done) (length rest))) :: post).
Proof.
  induction rest as [|e rest IH]; intros done; cbn [forLoop length seq map].
  - reflexivity.
  - rewrite setCell_overwrite. cbn [bind].
    replace (S (length done)) with (length (done ++ [value (length done)]))
      by (rewrite length_app; simpl; lia).
    replace (done ++ value (length done) :: rest)
      with ((done ++ [value (length done)]) ++ rest)
      by (now rewrite <- app_assoc).
    rewrite IH, <- app_assoc. reflexivity.
Qed.

(** Its outer loop does so for every row of a rectangular grid. *)
Lemma write_rows (cols : nat) (value : nat -> nat -> Q)
  (todo : list (list Q)) :
  Forall (fun row => length row = cols) todo ->
  forall pre,
    forLoop (length todo) (length pre)
            (fun i cells =>
               forUpTo (Z.of_nat cols)
                       (fun j cells => setCell cells i j (value i j)) cells)
            (pre ++ todo)
    = Normal
        (pre ++ map (fun i => map (value i) (seq 0 cols))
                    (seq (length pre) (length todo))).
Proof.
  induction 1 as [|row todo Hrow _ IH]; intros pre;
    cbn [forLoop length seq map].
  - reflexivity.
  - unfold forUpTo at 1. rewrite Nat2Z.id, <- Hrow.
    pose proof (write_row pre todo (value (length pre)) row []) as Hw.
    cbn [length app] in Hw. rewrite Hw. cbn [bind].
    set (written := map (value (length pre)) (seq 0 (length row))).
    replace (S (length pre)) with (length (pre ++ [written]))
      by (rewrite length_app; simpl; lia).
    replace (pre ++ written :: todo) with ((pre ++ [written]) ++ todo)
      by (now rewrite <- app_assoc).
    rewrite Hrow in *. rewrite IH, <- app_assoc. reflexivity.
Qed.

Section WithHost.
Context {host : Host}.

(** [update] on a grid that has a first row and whose rows all have its
    length: every cell gets its wave value, the shape of the grid stays. *)
Lemma update_rectangular (f : t) (analysis : ResonanceAnalysis) (time : Q)
  (row0 : list Q) (others : list (list Q)) :
  field f = row0 :: others ->
  Forall (fun row => length row = length row0) (field f) ->
  update f analysis time
  = Normal
      (setField f
         (map (fun i =>
                 map (wave analysis time (length row0) (length (field f)) i)
                     (seq 0 (length row0)))
              (seq 0 (length (field f))))).
Proof.
  intros Hfield Hrect. unfold update. rewrite Hfield at 1.
  cbn [element nth_error bind]. unfold forUpTo at 1. rewrite Nat2Z.id.
  pose proof (write_rows (length row0)
                (wave analysis time (length row0) (length (field f)))
                (field f) Hrect []) as Hw.
  cbn [length app] in Hw. rewrite Hw. reflexivity.
Qed.

Lemma update_empty (f : t) (analysis : ResonanceAnalysis) (time : Q) :
  field f = [] ->
  update f analysis time
  = Throw (TypeError "Cannot read properties of undefined").
Proof.
  intros Hfield. unfold update. now rewrite Hfield.
Qed.

End WithHost.

End FieldFacts.

(** ** Resizing the field *)

Section ResizeFacts.
Context {host : Host}.
Import ResonanceField FieldFacts.

Lemma ceiling_pos (v : Q) : 0 < v -> (1 <= Qceiling v)%Z.
Proof.
  intros H. pose proof (Qle_ceiling v) as Hc.
  assert (Hlt : inject_Z 0 < inject_Z (Qceiling v)).
  { change (inject_Z 0) with 0. lra. }
  rewrite <- Zlt_Qlt in Hlt. lia.
Qed.

Lemma ceiling_nonneg (v : Q) : 0 <= v -> (0 <= Qceiling v)%Z.
Proof.
  intros H. change 0%Z with (Qceiling 0). now apply Qceiling_resp_le.
Qed.

Lemma map_length_Forall {A B} (g : nat -> list B) (n : nat) (l : list A)
  (indices : list nat) :
  (forall i, length (g i) = n) ->
  Forall (fun row => Z.of_nat (length row) = Z.of_nat n) (map g indices).
Proof.
  intros Hg. apply Forall_map, Forall_forall. intros i _. now rewrite Hg.
Qed.

(** C7, amended. For every width and height, [resize] does not throw. For
    every width that is not negative and every height above 0, it rebuilds
    the grid with [ceil(height/20)] rows of [ceil(width/20)] cells, all
    zero; the update that follows does not throw either and leaves a grid of
    these dimensions. *)
Theorem resize_rebuilds_grid (f : t) (w h : Q) (analysis : ResonanceAnalysis)
  (time : Q) :
  throws (resize f w h) = false
  /\ (0 <= w -> 0 < h ->
      exists resized updated,
        resize f w h = Normal resized
        /\ width resized = w /\ height resized = h
        /\ hasDimensions (field resized)
                         (Qceiling (h / 20)) (Qceiling (w / 20))
        /\ allZero (field resized)
        /\ update resized analysis time = Normal updated
        /\ hasDimensions (field updated)
                         (Qceiling (h / 20)) (Qceiling (w / 20))).
Proof.
  split; [unfold resize; now rewrite initializeField_grid|].
  intros Hw Hh.
  assert (Hrows : (1 <= Qceiling (h / 20))%Z).
  { apply ceiling_pos. apply Qlt_shift_div_l; [reflexivity | lra]. }
  assert (Hcols : (0 <= Qceiling (w / 20))%Z).
  { apply ceiling_nonneg. apply Qdiv_nonneg; [exact Hw | discriminate]. }
  unfold resize. rewrite initializeField_grid. cbn [width height].
  unfold gridSize.
  set (rows := Qceiling (h / 20)) in *. set (cols := Qceiling (w / 20)) in *.
  destruct (zeroGrid_dimensions rows cols ltac:(lia) Hcols) as [Hdim Hzero].
  set (resized := setField _ (zeroGrid rows cols)).
  assert (Hfield : field resized = zeroGrid rows cols) by reflexivity.
  assert (Hfirst : exists others,
             field resized = repeat 0 (Z.to_nat cols) :: others).
  { rewrite Hfield. unfold zeroGrid.
    destruct (Z.to_nat rows) as [|n] eqn:E; [lia|].
    cbn [repeat]. eexists. reflexivity. }
  destruct Hfirst as [others Hothers].
  assert (Hrect : Forall (fun row => length row
                                     = length (repeat 0 (Z.to_nat cols)))
                         (field resized)).
  { rewrite Hfield. apply Forall_forall. intros row Hrow.
    apply repeat_spec in Hrow. now subst row. }
  eexists resized, _. split; [reflexivity|].
  split; [reflexivity|]. split; [reflexivity|].
  split; [exact Hdim|]. split; [exact Hzero|].
  split; [apply (update_rectangular resized analysis time _ others Hothers
                                    Hrect)|].
  cbn [field setField]. rewrite Hfield, repeat_length.
  destruct Hdim as [Hlen _]. split.
  - rewrite length_map, length_seq. exact Hlen.
  - apply Forall_map, Forall_forall. intros i _.
    rewrite length_map, length_seq. lia.
Qed.

Lemma update_empty_rows (w h : Q) (n : nat) (analysis : ResonanceAnalysis)
  (time : Q) :
  update {| width := w; height := h; field := [] :: repeat [] n |}
         analysis time
  = Normal {| width := w; height := h; field := [] :: repeat [] n |}.
Proof.
  rewrite (update_rectangular _ analysis time [] (repeat [] n)).
  - cbn [field length seq map setField width height].
    rewrite repeat_length.
    assert (Hrows : forall k, map (fun _ : nat => @nil Q) (seq k n)
                              = repeat [] n).
    { induction n as [|m IH]; intros k; simpl;
        [reflexivity | now rewrite IH]. }
    unfold setField. cbn [width height]. now rewrite Hrows.
  - reflexivity.
  - cbn [field]. constructor; [reflexivity|].
    apply Forall_forall. intros row Hrow. apply repeat_spec in Hrow.
    now subst row.
Qed.

(** C10, amended. A field resized to height 0 has no row, whatever the
    width, and the update that follows throws on reading the length of its
    first row. A field resized to width 0 with a height above 0 has
    [ceil(height/20)] empty rows, and the update that follows returns
    without throwing and leaves it as it is. *)
Theorem update_after_empty_resize (f : t) (w h : Q)
  (analysis : ResonanceAnalysis) (time : Q) :
  (exists resized,
     resize f w 0 = Normal resized /\ field resized = []
     /\ throws (update resized analysis time) = true)
  /\ (0 < h ->
      exists resized,
        resize f 0 h = Normal resized
        /\ hasDimensions (field resized) (Qceiling (h / 20)) 0
        /\ update resized analysis time = Normal resized).
Proof.
  split.
  - unfold resize. rewrite initializeField_grid. eexists.
    split; [reflexivity|]. split; [reflexivity|].
    rewrite update_empty; reflexivity.
  - intros Hh.
    assert (Hrows : (1 <= Qceiling (h / 20))%Z).
    { apply ceiling_pos. apply Qlt_shift_div_l; [reflexivity | lra]. }
    unfold resize. rewrite initializeField_grid. cbn [width height].
    unfold gridSize.
    change (Qceiling (0 / 20)) with 0%Z.
    set (rows := Qceiling (h / 20)) in *.
    destruct (zeroGrid_dimensions rows 0 ltac:(lia) ltac:(lia)) as [Hdim _].
    assert (Hgrid : exists n, zeroGrid rows 0 = [] :: repeat [] n).
    { unfold zeroGrid. destruct (Z.to_nat rows) as [|n] eqn:E; [lia|].
      exists n. reflexivity. }
    destruct Hgrid as [n Hgrid].
    eexists. split; [reflexivity|]. split; [exact Hdim|].
    unfold setField. cbn [width height field]. rewrite Hgrid.
    apply update_empty_rows.
Qed.

End ResizeFacts.

(** A field of 400 by 400 resized to 800 by 600: 30 rows of 40 cells, before
    and after the update. *)
Lemma resize_rebuilds_grid_witness :
  0 <= 800 /\ 0 < 600
  /\ exists resized updated,
       ResonanceField.resize
         {| ResonanceField.width := 400; ResonanceField.height := 400;
            ResonanceField.field := zeroGrid 20 20 |} 800 600
       = Normal resized
       /\ hasDimensions (ResonanceField.field resized) 30 40
       /\ @ResonanceField.update coarseHost resized
            GlyphAnalyzer.getDefaultAnalysis 1 = Normal updated
       /\ hasDimensions (ResonanceField.field updated) 30 40.
Proof.
  assert (Hw : 0 <= 800) by discriminate.
  assert (Hh : 0 < 600) by reflexivity.
  split; [exact Hw|]. split; [exact Hh|].
  destruct (proj2 (@resize_rebuilds_grid coarseHost
                     {| ResonanceField.width := 400;
                        ResonanceField.height := 400;
                        ResonanceField.field := zeroGrid 20 20 |}
                     800 600 GlyphAnalyzer.getDefaultAnalysis 1) Hw Hh)
    as (resized & updated & H1 & _ & _ & H2 & _ & H3 & H4).
  exists resized, updated.
  split; [exact H1|]. split; [exact H2|]. split; [exact H3 | exact H4].
Defined.

(** A field resized to 0 by 100: five empty rows, which the update keeps. *)
Lemma update_after_empty_resize_witness :
  0 < 100
  /\ exists resized,
       ResonanceField.resize
         {| ResonanceField.width := 400; ResonanceField.height := 400;
            ResonanceField.field := [] |} 0 100
       = Normal resized
       /\ hasDimensions (ResonanceField.field resized) 5 0
       /\ @ResonanceField.update coarseHost resized
            GlyphAnalyzer.getDefaultAnalysis 1 = Normal resized.
Proof.
  assert (Hh : 0 < 100) by reflexivity.
  split; [exact Hh|].
  exact (proj2 (@update_after_empty_resize coarseHost
                  {| ResonanceField.width := 400; ResonanceField.height := 400;
                     ResonanceField.field := [] |}
                  400 100 GlyphAnalyzer.getDefaultAnalysis 1) Hh).
Defined.

(** C7, as the claim states it, fails. Resized to 400 by 0 the field has no
    row and the update that follows throws, for every host, analysis and
    time; resized to a negative width, the rows are empty, not of
    [ceil(width/20)] cells. *)
Lemma resize_zero_height_then_update_throws :
  (forall f,
     ResonanceField.resize f 400 0
     = Normal {| ResonanceField.width := 400; ResonanceField.height := 0;
                 ResonanceField.field := [] |})
  /\ (forall (host : Host) analysis time,
        ResonanceField.update
          {| ResonanceField.width := 400; ResonanceField.height := 0;
             ResonanceField.field := [] |} analysis time
        = Throw (TypeError "Cannot read properties of undefined"))
  /\ (forall f,
        ResonanceField.resize f (-20) 20
        = Normal {| ResonanceField.width := -20; ResonanceField.height := 20;
                    ResonanceField.field := [[]] |})
  /\ ~ hasDimensions [[]] (Qceiling (20 / 20)) (Qceiling (-20 / 20)).
Proof.
  split; [intros f; reflexivity|]. split; [intros; reflexivity|].
  split; [intros f; reflexivity|].
  intros [_ H]. inversion H as [|row rest Hrow _]. vm_compute in Hrow.
  discriminate Hrow.
Qed.

(** C10, as the claim states it, fails for a width of 0: resized to 0 by 20
    the field has one empty row, and the update that follows returns, for
    every host, analysis and time, leaving the field as it is. *)
Lemma resize_zero_width_then_update_returns :
  (forall f,
     ResonanceField.resize f 0 20
     = Normal {| ResonanceField.width := 0; ResonanceField.height := 20;
                 ResonanceField.field := [[]] |})
  /\ (forall (host : Host) analysis time,
        ResonanceField.update
          {| ResonanceField.width := 0; ResonanceField.height := 20;
             ResonanceField.field := [[]] |} analysis time
        = Normal {| ResonanceField.width := 0; ResonanceField.height := 20;
                    ResonanceField.field := [[]] |}).
Proof.
  split; [intros f; reflexivity | intros; reflexivity].
Qed.

(** ** Painting the field *)

(** C8, on the code. In a grid of two rows and two columns whose four cells
    all have an opacity over 0.05, [render] fills one rectangle, that of row
    0 and column 0: the last row and the last column are never looked at.
    The same in a grid of three by three, where four of the nine are
    filled. *)
Theorem render_skips_last_row_and_column (host : Host) :
  let small := {| ResonanceField.width := 40; ResonanceField.height := 40;
                  ResonanceField.field := [[1; 1]; [1; 1]] |} in
  let large := {| ResonanceField.width := 60; ResonanceField.height := 60;
                  ResonanceField.field :=
                    [[1; 1; 1]; [1; 1; 1]; [1; 1; 1]] |} in
  visibleCells (ResonanceField.field small)
  = [(0, 0); (0, 1); (1, 0); (1, 1)]%nat
  /\ (exists ops,
        ResonanceField.render small = Normal ops
        /\ filledCells ops = [(0, 0)]%nat)
  /\ length (visibleCells (ResonanceField.field large)) = 9%nat
  /\ (exists ops,
        ResonanceField.render large = Normal ops
        /\ filledCells ops = [(0, 0); (0, 1); (1, 0); (1, 1)]%nat).
Proof.
  intros small large.
  split; [vm_compute; reflexivity|].
  split; [eexists; split; [reflexivity | vm_compute; reflexivity]|].
  split; [vm_compute; reflexivity|].
  eexists; split; [reflexivity | vm_compute; reflexivity].
Qed.

(** ** What [render] paints, in general *)

Section RenderFacts.
Context {host : Host}.
Import ResonanceField.

Lemma paintStep_paintCell (cells : list (list Q)) (i j : nat)
  (ops : list CanvasOp) :
  (i < length cells)%nat ->
  paintStep cells i j ops = Normal (ops ++ paintCell cells i j).
Proof.
  intros Hi. unfold paintStep, paintCell, cell, element, visible.
  destruct (nth_error cells i) as [row|] eqn:Hrow;
    [|apply nth_error_None in Hrow; lia].
  cbn [bind]. destruct (nth_error row j) as [v|].
  - destruct (Qltb 0.05 (Qmin 0.3 (Qabs v * 0.5))); [reflexivity|].
    now rewrite app_nil_r.
  - now rewrite app_nil_r.
Qed.

Lemma render_columns (cells : list (list Q)) (i : nat) (n : nat) :
  (i < length cells)%nat ->
  forall j0 ops,
    forLoop n j0 (paintStep cells i) ops
    = Normal (ops ++ flat_map (paintCell cells i) (seq j0 n)).
Proof.
  intros Hi. induction n as [|n IH]; intros j0 ops.
  - cbn [forLoop seq flat_map]. now rewrite app_nil_r.
  - cbn [forLoop seq flat_map]. rewrite paintStep_paintCell by exact Hi.
    cbn [bind]. rewrite IH, <- app_assoc. reflexivity.
Qed.

Lemma render_rows (cells : list (list Q)) (bound : Z) (n : nat) :
  forall i0 ops,
    (i0 + n <= length cells)%nat ->
    forLoop n i0 (fun i ops => forUpTo bound (paintStep cells i) ops) ops
    = Normal
        (ops ++ flat_map
                  (fun i => flat_map (paintCell cells i)
                                     (seq 0 (Z.to_nat bound)))
                  (seq i0 n)).
Proof.
  induction n as [|n IH]; intros i0 ops Hle.
  - cbn [forLoop seq flat_map]. now rewrite app_nil_r.
  - cbn [forLoop seq flat_map]. unfold forUpTo at 1.
    rewrite render_columns by lia. cbn [bind].
    rewrite IH by lia. now rewrite <- app_assoc.
Qed.

(** [render] on a field that has a first row. *)
Lemma render_operations (f : t) (row0 : list Q) (others : list (list Q)) :
  field f = row0 :: others ->
  render f
  = Normal
      ([CtxSave]
       ++ flat_map
            (fun i =>
               flat_map (paintCell (field f) i) (seq 0 (length row0 - 1)))
            (seq 0 (length (field f) - 1))
       ++ [CtxRestore]).
Proof.
  intros Hfield.
  pose proof (render_rows (field f) (Z.of_nat (length row0) - 1)
                (Z.to_nat (Z.of_nat (length (field f)) - 1)) 0%nat [CtxSave]
                ltac:(lia)) as Hloop.
  replace (Z.to_nat (Z.of_nat (length row0) - 1))
    with (length row0 - 1)%nat in Hloop by lia.
  replace (Z.to_nat (Z.of_nat (length (field f)) - 1))
    with (length (field f) - 1)%nat in Hloop at 2 by lia.
  unfold render. rewrite Hfield at 1. cbn [element nth_error bind].
  change (bind
            (forLoop (Z.to_nat (Z.of_nat (length (field f)) - 1)) 0
               (fun i ops =>
                  forUpTo (Z.of_nat (length row0) - 1)
                          (paintStep (field f) i) ops)
               [CtxSave])
            (fun ops => Normal (ops ++ [CtxRestore]))
          = Normal
              ([CtxSave]
               ++ flat_map
                    (fun i =>
                       flat_map (paintCell (field f) i)
                                (seq 0 (length row0 - 1)))
                    (seq 0 (length (field f) - 1))
               ++ [CtxRestore])).
  rewrite Hloop. cbn [bind]. now rewrite <- app_assoc.
Qed.

Lemma cell_index (n : nat) :
  Z.to_nat (Qfloor (ofNat n * gridSize / gridSize)) = n.
Proof.
  assert (H : ofNat n * gridSize / gridSize == inject_Z (Z.of_nat n)).
  { unfold ofNat, gridSize. field. }
  rewrite H, Qfloor_Z. apply Nat2Z.id.
Qed.

Lemma filledCells_app (a b : list CanvasOp) :
  filledCells (a ++ b) = filledCells a ++ filledCells b.
Proof. unfold filledCells. apply flat_map_app. Qed.

Lemma in_filledCells_flat_map {A} (h : A -> list CanvasOp) (s : list A)
  (c : nat * nat) :
  In c (filledCells (flat_map h s))
  <-> exists a, In a s /\ In c (filledCells (h a)).
Proof.
  unfold filledCells. rewrite in_flat_map. split.
  - intros (op & Hop & Hc). apply in_flat_map in Hop as (a & Ha & Hop).
    exists a. split; [exact Ha|]. apply in_flat_map. now exists op.
  - intros (a & Ha & Hc). apply in_flat_map in Hc as (op & Hop & Hc).
    exists op. split; [|exact Hc]. apply in_flat_map. now exists a.
Qed.

Lemma filledCells_paintCell (cells : list (list Q)) (i j : nat) :
  filledCells (paintCell cells i j)
  = match nth_error cells i with
    | Some row =>
        match nth_error row j with
        | Some v => if visible v then [(i, j)] else []
        | None => []
        end
    | None => []
    end.
Proof.
  unfold paintCell.
  destruct (nth_error cells i) as [row|]; [|reflexivity].
  destruct (nth_error row j) as [v|]; [|reflexivity].
  destruct (visible v); [|reflexivity].
  cbn [filledCells flat_map app]. now rewrite !cell_index.
Qed.

Lemma filledCells_columns (cells : list (list Q)) (i : nat) (n : nat)
  (cellAt : nat * nat) :
  In cellAt (filledCells (flat_map (paintCell cells i) (seq 0 n)))
  <-> fst cellAt = i /\ (snd cellAt < n)%nat
      /\ visibleAt cells (fst cellAt) (snd cellAt).
Proof.
  destruct cellAt as [i' j']. cbn [fst snd].
  rewrite in_filledCells_flat_map. split.
  - intros (j & Hj & Hin). apply in_seq in Hj.
    rewrite filledCells_paintCell in Hin.
    destruct (nth_error cells i) as [row|] eqn:Hrow; [|contradiction].
    destruct (nth_error row j) as [v|] eqn:Hv; [|contradiction].
    destruct (visible v) eqn:Hvis; [|contradiction].
    destruct Hin as [Heq|[]]. inversion Heq; subst i' j'.
    split; [reflexivity|]. split; [lia|]. now exists row, v.
  - intros (-> & Hlt & row & v & Hrow & Hv & Hvis). exists j'. split.
    + apply in_seq. lia.
    + rewrite filledCells_paintCell, Hrow, Hv, Hvis. now left.
Qed.

(** The general form of what C8 is about. On a field that has a first row,
    [render] returns, and the cells it fills are those over the threshold
    among the rows before the last one and the columns before the last
    one. *)
Lemma render_paints_interior (f : t) (row0 : list Q)
  (others : list (list Q)) :
  field f = row0 :: others ->
  exists ops,
    render f = Normal ops
    /\ forall i j,
         In (i, j) (filledCells ops)
         <-> (i < length (field f) - 1)%nat /\ (j < length row0 - 1)%nat
             /\ visibleAt (field f) i j.
Proof.
  intros Hfield. eexists. split; [apply (render_operations f row0 others Hfield)|].
  intros i j. rewrite !filledCells_app.
  change (filledCells [CtxSave]) with (@nil (nat * nat)).
  change (filledCells [CtxRestore]) with (@nil (nat * nat)).
  rewrite app_nil_l, app_nil_r, in_filledCells_flat_map. split.
  - intros (i' & Hi' & Hin). apply in_seq in Hi'.
    apply filledCells_columns in Hin as (Heq & Hj & Hvis).
    cbn [fst snd] in *. subst i'. split; [lia|]. now split.
  - intros (Hi & Hj & Hvis). exists i. split; [apply in_seq; lia|].
    apply filledCells_columns. cbn [fst snd]. now repeat split.
Qed.

Lemma in_combine_seq {A} (l : list A) (i : nat) (a : A) :
  forall start,
    In (i, a) (combine (seq start (length l)) l)
    <-> (start <= i)%nat /\ nth_error l (i - start) = Some a.
Proof.
  induction l as [|e l IH]; intros start; cbn [length seq combine].
  - split; [contradiction|]. intros [_ H].
    destruct (i - start)%nat; discriminate H.
  - cbn [In]. rewrite IH. split.
    + intros [Heq | [Hle Hnth]].
      * inversion Heq; subst. split; [lia|]. now rewrite Nat.sub_diag.
      * split; [lia|].
        replace (i - start)%nat with (S (i - S start)) by lia. exact Hnth.
    + intros [Hle Hnth]. destruct (Nat.eq_dec start i) as [->|Hne].
      * rewrite Nat.sub_diag in Hnth. cbn in Hnth. left. congruence.
      * right. split; [lia|].
        replace (i - start)%nat with (S (i - S start)) in Hnth by lia.
        exact Hnth.
Qed.

(** The cells of the specification are the cells over the threshold. *)
Lemma visibleCells_spec (cells : list (list Q)) (i j : nat) :
  In (i, j) (visibleCells cells) <-> visibleAt cells i j.
Proof.
  unfold visibleCells, visibleAt. rewrite in_concat. split.
  - intros (l & Hl & Hin). apply in_map_iff in Hl as ([i' row] & <- & Hrow).
    apply in_combine_seq in Hrow as [_ Hrow]. rewrite Nat.sub_0_r in Hrow.
    apply in_map_iff in Hin as ([j' v] & Heq & Hv).
    inversion Heq; subst i' j'.
    apply filter_In in Hv as [Hv Hvis].
    apply in_combine_seq in Hv as [_ Hv]. rewrite Nat.sub_0_r in Hv.
    now exists row, v.
  - intros (row & v & Hrow & Hv & Hvis).
    exists (map (fun '(j, _) => (i, j))
                (filter (fun '(_, v) => visible v)
                        (combine (seq 0 (length row)) row))).
    split.
    + apply in_map_iff. exists (i, row). split; [reflexivity|].
      apply in_combine_seq. rewrite Nat.sub_0_r. split; [lia | exact Hrow].
    + apply in_map_iff. exists (j, v). split; [reflexivity|].
      apply filter_In. split; [|exact Hvis].
      apply in_combine_seq. rewrite Nat.sub_0_r. split; [lia | exact Hv].
Qed.

(** So a cell over the threshold in the last row, or in the last column, is
    one the specification paints and [render] does not. *)
Lemma render_misses_the_border (f : t) (row0 : list Q)
  (others : list (list Q)) (i j : nat) :
  field f = row0 :: others ->
  In (i, j) (visibleCells (field f)) ->
  i = (length (field f) - 1)%nat \/ j = (length row0 - 1)%nat ->
  exists ops,
    render f = Normal ops /\ ~ In (i, j) (filledCells ops).
Proof.
  intros Hfield Hvis Hborder.
  destruct (render_paints_interior f row0 others Hfield) as (ops & Hops & Hin).
  exists ops. split; [exact Hops|]. rewrite Hin. intros (Hi & Hj & _). lia.
Qed.

End RenderFacts.

(** ** Scheduling *)

Module SchedulingFacts.
Import GlyphRenderer.

Lemma cancel_only (handle : nat) (callback : Animate) (last : nat) :
  cancelAnimationFrame handle
    {| frameCallbacks := [(handle, callback)]; lastHandle := last |}
  = {| frameCallbacks := []; lastHandle := last |}.
Proof.
  unfold cancelAnimationFrame. cbn [frameCallbacks lastHandle filter fst].
  now rewrite Nat.eqb_refl.
Qed.

Lemma cancel_none (handle last : nat) :
  cancelAnimationFrame handle {| frameCallbacks := []; lastHandle := last |}
  = {| frameCallbacks := []; lastHandle := last |}.
Proof. reflexivity. Qed.

(** What the states a run reaches look like. *)
Lemma wellScheduled_cases (r : t) (w : Window) :
  wellScheduled (r, w) ->
  (exists last, w = {| frameCallbacks := []; lastHandle := last |})
  \/ (exists handle callback last start,
        w = {| frameCallbacks := [(S handle, callback)]; lastHandle := last |}
        /\ r = {| animationId := Some (S handle); startTime := start |}
        /\ (S handle <= last)%nat).
Proof.
  unfold wellScheduled. destruct r as [id start], w as [callbacks last].
  cbn [fst snd frameCallbacks animationId lastHandle].
  destruct callbacks as [|[handle callback] [|second rest]]; intros H.
  - left. now exists last.
  - right. destruct H as [-> Hpos]. destruct handle as [|handle]; [lia|].
    exists handle, callback, last, start. repeat split. lia.
  - contradiction.
Qed.

Lemma startAnimation_replaces (r : t) (w : Window)
  (analysis : ResonanceAnalysis) (options : GlyphRenderOptions) (now : Q) :
  wellScheduled (r, w) ->
  startAnimation r w analysis options now
  = ({| animationId := Some (S (lastHandle w)); startTime := now |},
     {| frameCallbacks :=
          [(S (lastHandle w),
            {| closedAnalysis := analysis; closedOptions := options |})];
        lastHandle := S (lastHandle w) |}).
Proof.
  intros H. apply wellScheduled_cases in H
    as [[last ->] | (handle & callback & last & start & -> & -> & Hle)].
  - unfold startAnimation. destruct (animationId r) as [[|id]|]; reflexivity.
  - unfold startAnimation. cbn [animationId truthy]. now rewrite cancel_only.
Qed.

Lemma stopAnimation_clears (r : t) (w : Window) :
  wellScheduled (r, w) ->
  frameCallbacks (snd (stopAnimation r w)) = [].
Proof.
  intros H. apply wellScheduled_cases in H
    as [[last ->] | (handle & callback & last & start & -> & -> & Hle)].
  - unfold stopAnimation. destruct (animationId r) as [[|id]|]; reflexivity.
  - unfold stopAnimation. cbn [animationId truthy]. now rewrite cancel_only.
Qed.

(** [stopAnimation] twice is [stopAnimation] once, in every state. *)
Lemma stopAnimation_idempotent (r : t) (w : Window) :
  let '(r1, w1) := stopAnimation r w in stopAnimation r1 w1 = (r1, w1).
Proof.
  destruct r as [[[|id]|] start]; reflexivity.
Qed.

Lemma step_wellScheduled (ev : Event) (s : t * Window) :
  wellScheduled s -> wellScheduled (step ev s).
Proof.
  destruct s as [r w]. intros H. destruct ev as [analysis options now | | throwsAt];
    cbn [step].
  - unfold render. destruct (animate options); [|exact H].
    rewrite (startAnimation_replaces r w analysis options now H).
    unfold wellScheduled. cbn. split; [reflexivity | lia].
  - pose proof (stopAnimation_clears r w H) as Hclear.
    unfold wellScheduled. now rewrite Hclear.
  - apply wellScheduled_cases in H
      as [[last ->] | (handle & callback & last & start & -> & -> & Hle)].
    + exact I.
    + unfold runFrame. cbn [frameCallbacks runCallbacks existsb fst].
      rewrite Nat.eqb_refl. cbn [orb]. rewrite cancel_only.
      unfold runAnimate. destruct (throwsAt (S handle)).
      * exact I.
      * unfold wellScheduled. cbn. split; [reflexivity | lia].
Qed.

Lemma run_snoc (events : list Event) (ev : Event) :
  run (events ++ [ev]) = step ev (run events).
Proof. unfold run. now rewrite fold_left_app. Qed.

Lemma run_wellScheduled (events : list Event) : wellScheduled (run events).
Proof.
  induction events as [|ev events IH] using rev_ind.
  - exact I.
  - rewrite run_snoc. now apply step_wellScheduled.
Qed.

(** C4. After every sequence of calls of [render] and [stopAnimation] and of
    frames, at most one animation callback is scheduled. Starting an
    animation then leaves exactly the newly scheduled callback, the previous
    one being cancelled first; stopping leaves none, and stopping once more
    changes nothing. *)
Theorem at_most_one_scheduled_callback (events : list Event) :
  let '(r, w) := run events in
  (length (frameCallbacks w) <= 1)%nat
  /\ (forall analysis options now,
        let '(r', w') := startAnimation r w analysis options now in
        animationId r' = Some (S (lastHandle w))
        /\ frameCallbacks w'
           = [(S (lastHandle w),
               {| closedAnalysis := analysis; closedOptions := options |})]
        /\ forall entry, In entry (frameCallbacks w) ->
                         ~ In entry (frameCallbacks w'))
  /\ (let '(r1, w1) := stopAnimation r w in
      frameCallbacks w1 = [] /\ stopAnimation r1 w1 = (r1, w1)).
Proof.
  pose proof (run_wellScheduled events) as H.
  destruct (run events) as [r w]. split; [|split].
  - unfold wellScheduled in H. cbn [fst snd] in H.
    destruct (frameCallbacks w) as [|[handle callback] [|second rest]];
      simpl; first [lia | contradiction].
  - intros analysis options now.
    rewrite (startAnimation_replaces r w analysis options now H).
    cbn [animationId frameCallbacks]. split; [reflexivity|].
    split; [reflexivity|].
    intros entry Hin [Hnew|[]]. subst entry.
    apply wellScheduled_cases in H
      as [[last ->] | (handle & callback & last & start & -> & -> & Hle)].
    + exact Hin.
    + cbn [frameCallbacks lastHandle] in Hin. destruct Hin as [Hin|[]].
      inversion Hin. lia.
  - pose proof (stopAnimation_clears r w H) as Hclear.
    pose proof (stopAnimation_idempotent r w) as Hidem.
    destruct (stopAnimation r w) as [r1 w1]. now split.
Qed.

End SchedulingFacts.

(** * Further properties *)

(** ** Splitting, in general *)

Module SplitFacts.

Lemma takeWhile_head {A} (p : A -> bool) (a : A) (l : list A) (k : nat) :
  (S k <= length (takeWhile p (a :: l)))%nat ->
  p a = true /\ (k <= length (takeWhile p l))%nat.
Proof.
  cbn [takeWhile]. destruct (p a); cbn [length]; intros H; [|lia].
  split; [reflexivity | lia].
Qed.

(** Splitting on runs of a class: the pieces, put together, are the string
    without the code units of the class. *)
Lemma splitFrom_classPlus_concat (cls : codeunit -> bool) (s : jsstring) :
  forall skip cur prev,
    (skip <= length (takeWhile cls s))%nat ->
    concat (splitFrom (classPlus cls) skip cur prev s)
    = rev cur ++ without cls s.
Proof.
  unfold without.
  induction s as [|c r IH]; intros skip cur prev Hskip.
  - cbn. now rewrite app_nil_r.
  - cbn [splitFrom]. destruct skip as [|k].
    + unfold classPlus at 1. cbn [takeWhile filter].
      destruct (cls c) eqn:Hc; cbn [negb length].
      * cbn [concat]. rewrite IH by lia. reflexivity.
      * rewrite IH by lia. cbn [rev]. now rewrite <- app_assoc.
    + apply takeWhile_head in Hskip as [Hc Hk].
      cbn [filter]. rewrite Hc. cbn [negb]. now apply IH.
Qed.

Lemma splitFrom_classPlus_pieces (cls : codeunit -> bool) (s : jsstring) :
  forall skip cur prev,
    (skip <= length (takeWhile cls s))%nat ->
    Forall (fun c => cls c = false) cur ->
    Forall (Forall (fun c => cls c = false))
           (splitFrom (classPlus cls) skip cur prev s).
Proof.
  induction s as [|c r IH]; intros skip cur prev Hskip Hcur.
  - cbn. constructor; [|constructor]. now apply Forall_rev.
  - cbn [splitFrom]. destruct skip as [|k].
    + unfold classPlus at 1. cbn [takeWhile].
      destruct (cls c) eqn:Hc; cbn [length].
      * constructor; [now apply Forall_rev|]. apply IH; [lia | constructor].
      * apply IH; [lia|]. now constructor.
    + apply takeWhile_head in Hskip as [Hc Hk]. now apply IH.
Qed.

(** Splitting on single code units of a class. *)
Lemma splitFrom_classOne_concat (cls : codeunit -> bool) (s : jsstring) :
  forall cur prev,
    concat (splitFrom (classOne cls) 0 cur prev s) = rev cur ++ without cls s.
Proof.
  unfold without.
  induction s as [|c r IH]; intros cur prev.
  - cbn. now rewrite app_nil_r.
  - cbn [splitFrom classOne filter]. destruct (cls c); cbn [negb].
    + cbn [concat]. now rewrite IH.
    + rewrite IH. cbn [rev]. now rewrite <- app_assoc.
Qed.

Lemma splitFrom_classOne_length (cls : codeunit -> bool) (s : jsstring) :
  forall cur prev,
    length (splitFrom (classOne cls) 0 cur prev s) = S (countIf cls s).
Proof.
  unfold countIf.
  induction s as [|c r IH]; intros cur prev.
  - reflexivity.
  - cbn [splitFrom classOne filter]. destruct (cls c); cbn [length].
    + now rewrite IH.
    + apply IH.
Qed.

End SplitFacts.

(** ** What the cognitive load counts *)

Section ReduceFacts.
Context {A : Type}.

Lemma ofNat_add (a b : nat) : ofNat (a + b) == ofNat a + ofNat b.
Proof. unfold ofNat. now rewrite Nat2Z.inj_add, inject_Z_plus. Qed.

(** A [reduce] that adds a count per item adds up the counts. *)
Lemma reduce_counts (g : A -> nat) (l : list A) :
  forall init,
    fold_left (fun sum a => sum + ofNat (g a)) l init
    == init + ofNat (list_sum (map g l)).
Proof.
  induction l as [|a l IH]; intros init.
  - change (init == init + 0). lra.
  - change (fold_left (fun sum a => sum + ofNat (g a)) l (init + ofNat (g a))
            == init + ofNat (g a + list_sum (map g l))).
    rewrite IH. pose proof (ofNat_add (g a) (list_sum (map g l))). lra.
Qed.

End ReduceFacts.

Lemma length_concat_sum (l : list jsstring) :
  length (concat l) = list_sum (map (@length codeunit) l).
Proof. apply length_concat. Qed.

Lemma countIf_app (cls : codeunit -> bool) (a b : jsstring) :
  countIf cls (a ++ b) = (countIf cls a + countIf cls b)%nat.
Proof. unfold countIf. now rewrite filter_app, length_app. Qed.

Lemma countIf_concat (cls : codeunit -> bool) (l : list jsstring) :
  countIf cls (concat l) = list_sum (map (countIf cls) l).
Proof.
  induction l as [|a l IH]; [reflexivity|].
  cbn [concat map]. rewrite countIf_app, IH. reflexivity.
Qed.

(** Removing code units of one class does not change the count of a class
    disjoint from it. *)
Lemma countIf_without (keep drop : codeunit -> bool) (s : jsstring) :
  (forall c, keep c = true -> drop c = false) ->
  countIf keep (without drop s) = countIf keep s.
Proof.
  intros Hdisjoint. unfold countIf, without.
  induction s as [|c r IH]; [reflexivity|]. cbn [filter].
  destruct (keep c) eqn:Hk.
  - rewrite (Hdisjoint c Hk). cbn [negb filter]. rewrite Hk. cbn [length].
    now rewrite IH.
  - destruct (drop c); cbn [negb filter]; [|rewrite Hk]; exact IH.
Qed.

Module TextFacts.
Import GlyphAnalyzer.

Lemma words_concat (text : jsstring) :
  concat (split whitespaceRun text) = without isSpace text.
Proof.
  unfold split, whitespaceRun.
  rewrite SplitFacts.splitFrom_classPlus_concat by (cbn; lia). reflexivity.
Qed.

Lemma sentences_concat (text : jsstring) :
  concat (split sentenceBreak text) = without isSentenceEnd text.
Proof.
  unfold split, sentenceBreak.
  rewrite SplitFacts.splitFrom_classPlus_concat by (cbn; lia). reflexivity.
Qed.

Lemma clauses_length (sentence : jsstring) :
  length (split clauseBreak sentence) = S (countIf isClauseMark sentence).
Proof. apply SplitFacts.splitFrom_classOne_length. Qed.

Lemma clause_mark_is_no_sentence_end (c : codeunit) :
  isClauseMark c = true -> isSentenceEnd c = false.
Proof.
  unfold isClauseMark, isSentenceEnd. intros H.
  repeat (apply orb_true_iff in H as [H|H]); apply N.eqb_eq in H; subst c;
    reflexivity.
Qed.

Lemma list_sum_succ {A} (g : A -> nat) (l : list A) :
  list_sum (map (fun a => S (g a)) l) = (length l + list_sum (map g l))%nat.
Proof.
  induction l as [|a l IH]; [reflexivity|].
  change (S (g a) + list_sum (map (fun a => S (g a)) l)
          = S (length l) + (g a + list_sum (map g l)))%nat.
  rewrite IH. lia.
Qed.

(** The clauses of all sentence pieces: one per piece, and one more per
    comma, semicolon or colon of the text. *)
Lemma sentenceComplexity_counts (text : jsstring) :
  fold_left
    (fun sum sentence => sum + ofNat (length (split clauseBreak sentence)))
    (split sentenceBreak text) 0
  == ofNat (length (split sentenceBreak text) + countIf isClauseMark text).
Proof.
  rewrite (reduce_counts (fun sentence => length (split clauseBreak sentence))).
  assert (H : list_sum (map (fun sentence =>
                               length (split clauseBreak sentence))
                            (split sentenceBreak text))
              = (length (split sentenceBreak text)
                 + countIf isClauseMark text)%nat).
  { rewrite (map_ext _ (fun s => S (countIf isClauseMark s)))
      by (intros s; apply clauses_length).
    rewrite list_sum_succ, <- countIf_concat, sentences_concat.
    rewrite countIf_without by apply clause_mark_is_no_sentence_end.
    reflexivity. }
  rewrite H. ring.
Qed.

End TextFacts.

(** X1. The words of a text are what white space separates: none holds a
    white-space code unit, and together they hold the text without its white
    space. So the cognitive load is, capped at 100, ten times the number of
    code units that are no white space divided by the number of words, plus
    two per word longer than six, plus one per sentence piece and one per
    comma, semicolon or colon. *)
Theorem cognitiveLoad_counts (text : jsstring) :
  let words := split GlyphAnalyzer.whitespaceRun text in
  let pieces := split GlyphAnalyzer.sentenceBreak text in
  concat words = without isSpace text
  /\ Forall (Forall (fun c => isSpace c = false)) words
  /\ GlyphAnalyzer.calculateCognitiveLoad text
     == Qmin 100
          (ofNat (length (without isSpace text)) / ofNat (length words) * 10
           + ofNat (length (filter (fun word => (6 <? length word)%nat) words))
             * 2
           + ofNat (length pieces
                    + countIf GlyphAnalyzer.isClauseMark text)).
Proof.
  intros words pieces. split; [apply TextFacts.words_concat|]. split.
  - apply SplitFacts.splitFrom_classPlus_pieces; [cbn; lia | constructor].
  - unfold GlyphAnalyzer.calculateCognitiveLoad. fold words. fold pieces.
    apply Q.min_compat; [reflexivity|].
    rewrite (reduce_counts (@length codeunit)), <- length_concat_sum.
    unfold words at 1. rewrite TextFacts.words_concat.
    unfold pieces. rewrite TextFacts.sentenceComplexity_counts.
    rewrite Qplus_0_l. reflexivity.
Qed.

(** ** Letter case *)

Module CaseFacts.

Lemma lower_letter (c : codeunit) :
  isLowerAscii c = true -> exists k, (k < 26)%nat /\ c = N.of_nat (97 + k).
Proof.
  unfold isLowerAscii, inRange. intros H.
  apply andb_true_iff in H as [H1 H2]. apply N.leb_le in H1, H2.
  exists (N.to_nat c - 97)%nat. split; lia.
Qed.

Lemma upper_letter (c : codeunit) :
  isUpperAscii c = true -> exists k, (k < 26)%nat /\ c = N.of_nat (65 + k).
Proof.
  unfold isUpperAscii, inRange. intros H.
  apply andb_true_iff in H as [H1 H2]. apply N.leb_le in H1, H2.
  exists (N.to_nat c - 65)%nat. split; lia.
Qed.

(** A property of code units that holds of the 26 lower-case and the 26
    upper-case letters holds of what [canonicalize] and [lowerAscii] change. *)
Lemma canonicalize_class (cls : codeunit -> bool) :
  (forall k, (k < 26)%nat ->
             cls (N.of_nat (97 + k) - 32)%N = cls (N.of_nat (97 + k))) ->
  forall c, cls (canonicalize c) = cls c.
Proof.
  intros H c. unfold canonicalize. destruct (isLowerAscii c) eqn:E;
    [|reflexivity].
  apply lower_letter in E as (k & Hk & ->). now apply H.
Qed.

Lemma lowerAscii_class (cls : codeunit -> bool) :
  (forall k, (k < 26)%nat ->
             cls (N.of_nat (65 + k) + 32)%N = cls (N.of_nat (65 + k))) ->
  forall c, cls (lowerAscii c) = cls c.
Proof.
  intros H c. unfold lowerAscii. destruct (isUpperAscii c) eqn:E;
    [|reflexivity].
  apply upper_letter in E as (k & Hk & ->). now apply H.
Qed.

Lemma caseBlind_intro {B} (g : codeunit -> B) :
  (forall k, (k < 26)%nat ->
             g (N.of_nat (97 + k) - 32)%N = g (N.of_nat (97 + k))) ->
  (forall k, (k < 26)%nat ->
             g (N.of_nat (65 + k) + 32)%N = g (N.of_nat (65 + k))) ->
  caseBlind g.
Proof.
  intros Hup Hlow f Hf c. destruct (Hf c) as [-> | [-> | ->]].
  - reflexivity.
  - unfold canonicalize. destruct (isLowerAscii c) eqn:E; [|reflexivity].
    apply lower_letter in E as (k & Hk & ->). now apply Hup.
  - unfold lowerAscii. destruct (isUpperAscii c) eqn:E; [|reflexivity].
    apply upper_letter in E as (k & Hk & ->). now apply Hlow.
Qed.

Lemma caseBlind_isWordChar : caseBlind isWordChar.
Proof. apply caseBlind_intro; intros k Hk; by_letter k Hk. Qed.

Lemma caseBlind_isSpace : caseBlind isSpace.
Proof. apply caseBlind_intro; intros k Hk; by_letter k Hk. Qed.

Lemma caseBlind_isAscii : caseBlind isAscii.
Proof. apply caseBlind_intro; intros k Hk; by_letter k Hk. Qed.

Lemma caseBlind_canonicalize : caseBlind canonicalize.
Proof. apply caseBlind_intro; intros k Hk; by_letter k Hk. Qed.

Lemma caseBlind_lowerAscii : caseBlind lowerAscii.
Proof. apply caseBlind_intro; intros k Hk; by_letter k Hk. Qed.

Lemma caseBlind_isSentenceEnd : caseBlind GlyphAnalyzer.isSentenceEnd.
Proof. apply caseBlind_intro; intros k Hk; by_letter k Hk. Qed.

Lemma caseBlind_isClauseMark : caseBlind GlyphAnalyzer.isClauseMark.
Proof. apply caseBlind_intro; intros k Hk; by_letter k Hk. Qed.

Lemma caseBlind_isBangOrQuery : caseBlind GlyphAnalyzer.isBangOrQuery.
Proof. apply caseBlind_intro; intros k Hk; by_letter k Hk. Qed.

Lemma caseBlind_isSymbol : caseBlind GlyphAnalyzer.isSymbol.
Proof.
  intros f Hf c. unfold GlyphAnalyzer.isSymbol.
  now rewrite (caseBlind_isWordChar f Hf), (caseBlind_isSpace f Hf).
Qed.

End CaseFacts.

Module MatchFacts.
Import CaseFacts.

Section UnderMap.
Variable f : codeunit -> codeunit.

Lemma takeWhile_map (cls : codeunit -> bool) (s : jsstring) :
  (forall c, cls (f c) = cls c) ->
  takeWhile cls (map f s) = map f (takeWhile cls s).
Proof.
  intros H. induction s as [|c r IH]; [reflexivity|].
  cbn [map takeWhile]. rewrite H. destruct (cls c); [|reflexivity].
  cbn [map]. now rewrite IH.
Qed.

Lemma dropWhile_map (cls : codeunit -> bool) (s : jsstring) :
  (forall c, cls (f c) = cls c) ->
  dropWhile cls (map f s) = map f (dropWhile cls s).
Proof.
  intros H. induction s as [|c r IH]; [reflexivity|].
  cbn [map dropWhile]. rewrite H. destruct (cls c); [exact IH | reflexivity].
Qed.

Lemma classPlus_blind (cls : codeunit -> bool) :
  (forall c, cls (f c) = cls c) -> matcherBlind f (classPlus cls).
Proof.
  intros H prev s. unfold classPlus. rewrite (takeWhile_map cls s H).
  destruct (takeWhile cls s); [reflexivity|]. cbn [map length].
  now rewrite length_map.
Qed.

Lemma classOne_blind (cls : codeunit -> bool) :
  (forall c, cls (f c) = cls c) -> matcherBlind f (classOne cls).
Proof.
  intros H prev s. unfold classOne. destruct s as [|c r]; [reflexivity|].
  cbn [map]. now rewrite H.
Qed.

Lemma classTwoOrMore_blind (cls : codeunit -> bool) :
  (forall c, cls (f c) = cls c) -> matcherBlind f (classTwoOrMore cls).
Proof.
  intros H prev s. unfold classTwoOrMore. cbv zeta.
  now rewrite (takeWhile_map cls s H), length_map.
Qed.

Hypothesis f_case : changesCaseOnly f.

Lemma wordCharAt_map (c : option codeunit) :
  wordCharAt (option_map f c) = wordCharAt c.
Proof.
  destruct c as [c|]; [|reflexivity]. apply (caseBlind_isWordChar f f_case).
Qed.

Lemma boundary_map (prev : option codeunit) (s : jsstring) :
  boundary (option_map f prev) (map f s) = boundary prev s.
Proof.
  unfold boundary. rewrite wordCharAt_map. f_equal.
  destruct s as [|c r]; [reflexivity|]. cbn [map hd_error].
  apply (wordCharAt_map (Some c)).
Qed.

Lemma literalNoCase_map (w s : jsstring) :
  literalNoCase w (map f s) = literalNoCase w s.
Proof.
  revert s. induction w as [|a w IH]; intros s; [reflexivity|].
  destruct s as [|b s]; [reflexivity|]. cbn [map literalNoCase].
  now rewrite (caseBlind_canonicalize f f_case), IH.
Qed.

Lemma before_map (n : nat) (prev : option codeunit) (s : jsstring) :
  before n (option_map f prev) (map f s) = option_map f (before n prev s).
Proof.
  destruct n as [|k]; [reflexivity|]. cbn [before]. apply nth_error_map.
Qed.

Lemma boundedWord_blind (w : jsstring) : matcherBlind f (boundedWord w).
Proof.
  intros prev s. unfold boundedWord. cbv zeta.
  now rewrite boundary_map, literalNoCase_map, before_map, skipn_map,
    boundary_map.
Qed.

Lemma boundedAlternatives_blind (ws : list jsstring) :
  matcherBlind f (boundedAlternatives ws).
Proof.
  intros prev s. induction ws as [|w ws IH]; [reflexivity|].
  cbn [boundedAlternatives]. now rewrite boundedWord_blind, IH.
Qed.

End UnderMap.

Lemma countFrom_map (f : codeunit -> codeunit) (m : matcher) (s : jsstring) :
  matcherBlind f m ->
  forall skip prev,
    countFrom m skip (option_map f prev) (map f s) = countFrom m skip prev s.
Proof.
  intros Hm. induction s as [|c r IH]; intros skip prev; [reflexivity|].
  cbn [map countFrom]. destruct skip as [|k].
  - change (f c :: map f r) with (map f (c :: r)). rewrite Hm.
    destruct (m prev (c :: r)) as [[|k]|];
      rewrite (IH _ (Some c)); reflexivity.
  - apply (IH k (Some c)).
Qed.

Lemma countMatches_map (f : codeunit -> codeunit) (m : matcher)
  (s : jsstring) :
  matcherBlind f m -> countMatches m (map f s) = countMatches m s.
Proof. intros Hm. apply (countFrom_map f m s Hm 0%nat None). Qed.

Lemma splitFrom_map (f : codeunit -> codeunit) (m : matcher) (s : jsstring) :
  matcherBlind f m ->
  forall skip cur prev,
    splitFrom m skip (map f cur) (option_map f prev) (map f s)
    = map (map f) (splitFrom m skip cur prev s).
Proof.
  intros Hm. induction s as [|c r IH]; intros skip cur prev.
  - cbn. now rewrite map_rev.
  - cbn [map splitFrom]. destruct skip as [|k].
    + change (f c :: map f r) with (map f (c :: r)). rewrite Hm.
      destruct (m prev (c :: r)) as [[|k]|].
      * apply (IH 0%nat (c :: cur) (Some c)).
      * cbn [map]. rewrite map_rev. f_equal. apply (IH k [] (Some c)).
      * apply (IH 0%nat (c :: cur) (Some c)).
    + apply (IH k cur (Some c)).
Qed.

Lemma split_map (f : codeunit -> codeunit) (m : matcher) (s : jsstring) :
  matcherBlind f m -> split m (map f s) = map (map f) (split m s).
Proof. intros Hm. apply (splitFrom_map f m s Hm 0%nat [] None). Qed.

End MatchFacts.

Section ListFacts.
Context {A B : Type}.

Lemma fold_left_same (g h : A -> B -> A) (l : list B) :
  (forall a b, g a b = h a b) ->
  forall init, fold_left g l init = fold_left h l init.
Proof.
  intros H. induction l as [|b l IH]; intros init; [reflexivity|].
  cbn [fold_left]. now rewrite H, IH.
Qed.

Lemma fold_left_of_map {C} (g : A -> B -> A) (h : C -> B) (l : list C) :
  forall init,
    fold_left g (map h l) init = fold_left (fun a c => g a (h c)) l init.
Proof.
  induction l as [|c l IH]; intros init; [reflexivity|].
  cbn [map fold_left]. apply IH.
Qed.

Lemma filter_of_map (p : B -> bool) (h : B -> B) (l : list B) :
  (forall b, p (h b) = p b) ->
  filter p (map h l) = map h (filter p l).
Proof.
  intros H. induction l as [|b l IH]; [reflexivity|].
  cbn [map filter]. rewrite H. destruct (p b); cbn [map]; now rewrite IH.
Qed.

End ListFacts.

Module CaseScores.
Import GlyphAnalyzer CaseFacts MatchFacts.

Section UnderCaseChange.
Variable f : codeunit -> codeunit.
Hypothesis f_case : changesCaseOnly f.

Lemma lexicon_map (weight : Q) (ws : list jsstring) (text : jsstring) :
  fold_left
    (fun score word =>
       score + ofNat (countMatches (boundedWord word) (map f text)) * weight)
    ws 0
  = fold_left
      (fun score word =>
         score + ofNat (countMatches (boundedWord word) text) * weight)
      ws 0.
Proof.
  apply fold_left_same. intros score word.
  now rewrite (countMatches_map f _ text (boundedWord_blind f f_case word)).
Qed.

Lemma calculateEmotionalIntensity_map (text : jsstring) :
  calculateEmotionalIntensity (map f text) = calculateEmotionalIntensity text.
Proof.
  unfold calculateEmotionalIntensity. cbv zeta.
  rewrite !lexicon_map.
  now rewrite (countMatches_map f _ text
                 (classTwoOrMore_blind f isBangOrQuery
                    (caseBlind_isBangOrQuery f f_case))).
Qed.

Lemma calculateSymbolicDensity_map (text : jsstring) :
  calculateSymbolicDensity (map f text) = calculateSymbolicDensity text.
Proof.
  unfold calculateSymbolicDensity. cbv zeta. rewrite lexicon_map.
  rewrite (countMatches_map f _ text
             (classOne_blind f isSymbol (caseBlind_isSymbol f f_case))).
  now rewrite (countMatches_map f _ text
                 (boundedAlternatives_blind f f_case metaphorWords)).
Qed.

Lemma calculateTemporalFlow_map (text : jsstring) :
  calculateTemporalFlow (map f text) = calculateTemporalFlow text.
Proof.
  unfold calculateTemporalFlow. cbv zeta. now rewrite !lexicon_map.
Qed.

Lemma words_map (text : jsstring) :
  split whitespaceRun (map f text) = map (map f) (split whitespaceRun text).
Proof.
  apply split_map, classPlus_blind, (caseBlind_isSpace f f_case).
Qed.

Lemma sentences_map (text : jsstring) :
  split sentenceBreak (map f text) = map (map f) (split sentenceBreak text).
Proof.
  apply split_map, classPlus_blind, (caseBlind_isSentenceEnd f f_case).
Qed.

Lemma clauses_map (sentence : jsstring) :
  split clauseBreak (map f sentence)
  = map (map f) (split clauseBreak sentence).
Proof.
  apply split_map, classOne_blind, (caseBlind_isClauseMark f f_case).
Qed.

Lemma calculateCognitiveLoad_map (text : jsstring) :
  calculateCognitiveLoad (map f text) = calculateCognitiveLoad text.
Proof.
  unfold calculateCognitiveLoad. cbv zeta.
  rewrite words_map, sentences_map, !fold_left_of_map, !length_map.
  rewrite (filter_of_map (fun word => (6 <? length word)%nat) (map f))
    by (intros w; now rewrite length_map).
  rewrite length_map.
  rewrite (fold_left_same
             (fun sum word => sum + ofNat (length (map f word)))
             (fun sum word => sum + ofNat (length word)))
    by (intros sum w; now rewrite length_map).
  rewrite (fold_left_same
             (fun sum sentence =>
                sum + ofNat (length (split clauseBreak (map f sentence))))
             (fun sum sentence =>
                sum + ofNat (length (split clauseBreak sentence))))
    by (intros sum s; now rewrite clauses_map, length_map).
  reflexivity.
Qed.

Lemma trim_map (s : jsstring) : trim (map f s) = map f (trim s).
Proof.
  unfold trim.
  rewrite (dropWhile_map f isSpace s (caseBlind_isSpace f f_case)).
  rewrite <- map_rev.
  rewrite (dropWhile_map f isSpace _ (caseBlind_isSpace f f_case)).
  now rewrite map_rev.
Qed.

Lemma nonBlank_map (s : jsstring) : nonBlank (map f s) = nonBlank s.
Proof. unfold nonBlank. now rewrite trim_map, length_map. Qed.

Lemma emergent_map (s : jsstring) : emergent (map f s) = emergent s.
Proof.
  unfold emergent.
  now rewrite calculateEmotionalIntensity_map, calculateCognitiveLoad_map.
Qed.

Lemma selected_map (items : list jsstring) :
  forall index,
    selected emergent index (map (map f) items)
    = selected emergent index items.
Proof.
  induction items as [|s items IH]; intros index; [reflexivity|].
  cbn [map selected]. now rewrite emergent_map, IH.
Qed.

Lemma findEmergencePoints_map (text : jsstring) :
  findEmergencePoints (map f text) = findEmergencePoints text.
Proof.
  rewrite !EmergenceFacts.findEmergencePoints_selected. cbv zeta.
  rewrite sentences_map, (filter_of_map nonBlank (map f)) by apply nonBlank_map.
  now rewrite selected_map, length_map.
Qed.

Context {host : Host}.

Lemma toLowerCase_map (text : jsstring) :
  forallb isAscii text = true ->
  toLowerCase (map f text) = toLowerCase text.
Proof.
  intros Hascii. unfold toLowerCase.
  assert (H : forallb isAscii (map f text) = true).
  { rewrite forallb_forall in *. intros c Hc.
    apply in_map_iff in Hc as (b & <- & Hb).
    rewrite (caseBlind_isAscii f f_case). now apply Hascii. }
  rewrite H, Hascii, map_map. apply map_ext. intros c.
  apply (caseBlind_lowerAscii f f_case).
Qed.

Lemma hasKeyword_map (text : jsstring) (keywords : list jsstring) :
  forallb isAscii text = true ->
  hasKeyword (map f text) keywords = hasKeyword text keywords.
Proof.
  intros Hascii. unfold hasKeyword. now rewrite toLowerCase_map.
Qed.

Lemma generateMeaningSignature_map (text : jsstring) :
  forallb isAscii text = true ->
  generateMeaningSignature (map f text) = generateMeaningSignature text.
Proof.
  intros Hascii. unfold generateMeaningSignature. cbv zeta.
  assert (Hthemes : extractThemes (map f text) = extractThemes text).
  { unfold extractThemes. cbv zeta.
    rewrite (fold_left_same
               (fun themes entry =>
                  let '(theme, keywords) := entry in
                  if hasKeyword (map f text) keywords
                  then themes ++ [theme] else themes)
               (fun themes entry =>
                  let '(theme, keywords) := entry in
                  if hasKeyword text keywords
                  then themes ++ [theme] else themes))
      by (intros themes [theme keywords]; now rewrite hasKeyword_map).
    reflexivity. }
  assert (Hmood : extractMood (map f text) = extractMood text).
  { unfold extractMood. induction moodKeywords as [|[mood keywords] rest IH];
      [reflexivity|].
    cbn [firstMood]. now rewrite hasKeyword_map, IH. }
  assert (Harchetype : extractArchetype (map f text) = extractArchetype text).
  { unfold extractArchetype. now rewrite length_map. }
  now rewrite Hthemes, Hmood, Harchetype.
Qed.

End UnderCaseChange.

End CaseScores.

(** X2. The analysis does not see the case of ASCII letters. Changing the
    case of any letters of a text, and nothing else, leaves its cognitive
    load, emotional intensity, symbolic density, temporal flow and emergence
    points as they are; for a text of ASCII code units it leaves the whole
    analysis, meaning signature and glyph included, as it is. *)
Theorem analysis_ignores_letter_case (host : Host) (f : codeunit -> codeunit)
  (text : jsstring) :
  changesCaseOnly f ->
  GlyphAnalyzer.calculateCognitiveLoad (map f text)
  = GlyphAnalyzer.calculateCognitiveLoad text
  /\ GlyphAnalyzer.calculateEmotionalIntensity (map f text)
     = GlyphAnalyzer.calculateEmotionalIntensity text
  /\ GlyphAnalyzer.calculateSymbolicDensity (map f text)
     = GlyphAnalyzer.calculateSymbolicDensity text
  /\ GlyphAnalyzer.calculateTemporalFlow (map f text)
     = GlyphAnalyzer.calculateTemporalFlow text
  /\ GlyphAnalyzer.findEmergencePoints (map f text)
     = GlyphAnalyzer.findEmergencePoints text
  /\ (forallb isAscii text = true ->
      GlyphAnalyzer.analyzeText (map f text) = GlyphAnalyzer.analyzeText text).
Proof.
  intros Hf.
  pose proof (CaseScores.calculateCognitiveLoad_map f Hf text) as Hc.
  pose proof (CaseScores.calculateEmotionalIntensity_map f Hf text) as He.
  pose proof (CaseScores.calculateSymbolicDensity_map f Hf text) as Hs.
  pose proof (CaseScores.calculateTemporalFlow_map f Hf text) as Ht.
  pose proof (CaseScores.findEmergencePoints_map f Hf text) as Hp.
  repeat (split; [assumption|]).
  intros Hascii.
  unfold GlyphAnalyzer.analyzeText, GlyphAnalyzer.analyzeTextBody, tryCatch.
  cbv zeta.
  now rewrite Hc, He, Hs, Ht, Hp,
    (CaseScores.generateMeaningSignature_map f Hf text Hascii).
Qed.

(** [I LOVE you] scores as [I love you] does, and has the same analysis. *)
Lemma analysis_ignores_letter_case_witness :
  changesCaseOnly canonicalize
  /\ GlyphAnalyzer.calculateEmotionalIntensity (lit "I LOVE YOU")
     = GlyphAnalyzer.calculateEmotionalIntensity (lit "I love you")
  /\ @GlyphAnalyzer.analyzeText coarseHost (lit "I LOVE YOU")
     = @GlyphAnalyzer.analyzeText coarseHost (lit "I love you").
Proof.
  assert (Hf : changesCaseOnly canonicalize) by (intros c; right; now left).
  split; [exact Hf|].
  destruct (analysis_ignores_letter_case coarseHost canonicalize
              (lit "I love you") Hf) as (_ & He & _ & _ & _ & Hall).
  split; [exact He | exact (Hall eq_refl)].
Defined.

(** ** Whole scores and the glyph colour *)

Module IntegerFacts.
Import GlyphAnalyzer.

Lemma ofNat_mult_Z (n : nat) (w : Z) :
  ofNat n * inject_Z w == inject_Z (Z.of_nat n * w).
Proof. unfold ofNat. now rewrite inject_Z_mult. Qed.

(** A [reduce] that adds a weight per match adds up to the weight times the
    number of matches. *)
Lemma reduce_weighted {A} (g : A -> nat) (w : Z) (l : list A) :
  forall init,
    fold_left (fun score a => score + ofNat (g a) * inject_Z w) l init
    == init + inject_Z (Z.of_nat (list_sum (map g l)) * w).
Proof.
  induction l as [|a l IH]; intros init.
  - change (init == init + inject_Z (0 * w)). rewrite Z.mul_0_l.
    change (inject_Z 0) with 0. lra.
  - change (fold_left (fun score a => score + ofNat (g a) * inject_Z w) l
                      (init + ofNat (g a) * inject_Z w)
            == init + inject_Z (Z.of_nat (g a + list_sum (map g l)) * w)).
    rewrite IH, ofNat_mult_Z, Nat2Z.inj_add, Z.mul_add_distr_r,
      inject_Z_plus. ring.
Qed.

Lemma Qmin_inject (a b : Z) :
  Qmin (inject_Z a) (inject_Z b) == inject_Z (Z.min a b).
Proof.
  destruct (Z.le_ge_cases a b) as [H|H].
  - rewrite Z.min_l by exact H. apply Q.min_l. now rewrite <- Zle_Qle.
  - rewrite Z.min_r by exact H. apply Q.min_r. now rewrite <- Zle_Qle.
Qed.

Lemma Qmax_inject (a b : Z) :
  Qmax (inject_Z a) (inject_Z b) == inject_Z (Z.max a b).
Proof.
  destruct (Z.le_ge_cases a b) as [H|H].
  - rewrite Z.max_r by exact H. apply Q.max_r. now rewrite <- Zle_Qle.
  - rewrite Z.max_l by exact H. apply Q.max_l. now rewrite <- Zle_Qle.
Qed.

Lemma calculateEmotionalIntensity_whole (text : jsstring) :
  exists k : Z,
    (0 <= k)%Z
    /\ calculateEmotionalIntensity text == inject_Z (Z.min 100 (5 * k)).
Proof.
  unfold calculateEmotionalIntensity. cbv zeta.
  set (a := list_sum (map (fun word => countMatches (boundedWord word) text)
                          emotionalWords)).
  set (b := list_sum (map (fun word => countMatches (boundedWord word) text)
                          intensifiers)).
  set (c := countMatches (classTwoOrMore isBangOrQuery) text).
  exists (3 * Z.of_nat a + Z.of_nat b + 2 * Z.of_nat c)%Z. split; [lia|].
  rewrite <- Qmin_inject. apply Q.min_compat; [reflexivity|].
  rewrite (reduce_weighted
             (fun word => countMatches (boundedWord word) text) 15),
          (reduce_weighted
             (fun word => countMatches (boundedWord word) text) 5).
  fold a. fold b. change 10 with (inject_Z 10). rewrite ofNat_mult_Z.
  change 0 with (inject_Z 0).
  rewrite <- !inject_Z_plus. apply inject_Z_injective. lia.
Qed.

Lemma calculateSymbolicDensity_whole (text : jsstring) :
  exists k : Z,
    (0 <= k)%Z
    /\ calculateSymbolicDensity text == inject_Z (Z.min 100 (2 * k)).
Proof.
  unfold calculateSymbolicDensity. cbv zeta.
  set (a := list_sum (map (fun word => countMatches (boundedWord word) text)
                          abstractWords)).
  set (s := countMatches (classOne isSymbol) text).
  set (m := countMatches (boundedAlternatives metaphorWords) text).
  exists (Z.of_nat s + 5 * Z.of_nat m + 10 * Z.of_nat a)%Z. split; [lia|].
  rewrite <- Qmin_inject. apply Q.min_compat; [reflexivity|].
  rewrite (reduce_weighted
             (fun word => countMatches (boundedWord word) text) 20).
  fold a. change 2 with (inject_Z 2). change 10 with (inject_Z 10).
  rewrite !ofNat_mult_Z. change 0 with (inject_Z 0).
  rewrite <- !inject_Z_plus. apply inject_Z_injective. lia.
Qed.

Lemma calculateTemporalFlow_whole (text : jsstring) :
  exists k : Z,
    (0 <= k)%Z
    /\ calculateTemporalFlow text == inject_Z (Z.min 100 (4 * k)).
Proof.
  unfold calculateTemporalFlow. cbv zeta.
  set (a := list_sum (map (fun word => countMatches (boundedWord word) text)
                          timeWords)).
  set (b := list_sum (map (fun word => countMatches (boundedWord word) text)
                          transitionWords)).
  exists (2 * Z.of_nat a + 3 * Z.of_nat b)%Z. split; [lia|].
  rewrite <- Qmin_inject. apply Q.min_compat; [reflexivity|].
  rewrite (reduce_weighted
             (fun word => countMatches (boundedWord word) text) 8),
          (reduce_weighted
             (fun word => countMatches (boundedWord word) text) 12).
  fold a. fold b. change 0 with (inject_Z 0).
  rewrite <- !inject_Z_plus. apply inject_Z_injective. lia.
Qed.

Lemma Qred_inject_Z (z : Z) : Qred (inject_Z z) = inject_Z z.
Proof.
  unfold Qred, inject_Z. cbn [Qnum Qden].
  pose proof (Z.ggcd_gcd z 1) as Hg.
  pose proof (Z.ggcd_correct_divisors z 1) as Hd.
  destruct (Z.ggcd z 1) as [g [aa bb]]. cbn [fst] in Hg.
  rewrite Z.gcd_1_r in Hg. subst g. destruct Hd as [Ha Hb].
  rewrite Z.mul_1_l in Ha, Hb. now subst aa bb.
Qed.

Section WithHost.
Context {host : Host}.

(** The text of a number that is a whole number below [10^21]. *)
Lemma numberToString_whole (x : Q) (z : Z) :
  x == inject_Z z -> (0 <= z < 10 ^ 21)%Z ->
  numberToString x = decimal (Z.to_N z).
Proof.
  intros Hx Hz. unfold numberToString. cbv zeta.
  rewrite (Qred_complete _ _ Hx).
  rewrite Qred_inject_Z.
  cbn [Qden Qnum inject_Z]. cbn [Pos.eqb andb].
  replace (Z.abs z <? 10 ^ 21)%Z with true
    by (symmetry; apply Z.ltb_lt; lia).
  replace (z <? 0)%Z with false by (symmetry; apply Z.ltb_ge; lia).
  cbn [app]. f_equal. lia.
Qed.

End WithHost.

End IntegerFacts.

(** X3. Three of the four scores are whole numbers: for every text the
    emotional intensity is a multiple of 5, the symbolic density a multiple
    of 2 and the temporal flow a multiple of 4, each between 0 and 100. *)
Theorem scores_are_whole (text : jsstring) :
  exists e s t : Z,
    GlyphAnalyzer.calculateEmotionalIntensity text == inject_Z e
    /\ GlyphAnalyzer.calculateSymbolicDensity text == inject_Z s
    /\ GlyphAnalyzer.calculateTemporalFlow text == inject_Z t
    /\ (5 | e)%Z /\ (2 | s)%Z /\ (4 | t)%Z
    /\ (0 <= e <= 100)%Z /\ (0 <= s <= 100)%Z /\ (0 <= t <= 100)%Z.
Proof.
  destruct (IntegerFacts.calculateEmotionalIntensity_whole text)
    as (ke & Hke & He).
  destruct (IntegerFacts.calculateSymbolicDensity_whole text)
    as (ks & Hks & Hs).
  destruct (IntegerFacts.calculateTemporalFlow_whole text)
    as (kt & Hkt & Ht).
  exists (Z.min 100 (5 * ke)), (Z.min 100 (2 * ks)), (Z.min 100 (4 * kt)).
  split; [exact He|]. split; [exact Hs|]. split; [exact Ht|].
  split; [exists (Z.min 20 ke); lia|].
  split; [exists (Z.min 50 ks); lia|].
  split; [exists (Z.min 25 kt); lia|]. lia.
Qed.

Lemma hue_range (c e s : Q) :
  0 <= c <= 100 -> 0 <= e <= 100 -> 0 <= s <= 100 ->
  0 <= (c + e + s) / 3 * 3.6 <= 360.
Proof.
  intros Hc He Hs.
  assert (E : (c + e + s) / 3 * 3.6 == (c + e + s) * (6 # 5)) by field.
  rewrite E. split; lra.
Qed.

Section ColorOfAnalysis.
Context {host : Host}.
Import GlyphAnalyzer.

(** X4. The glyph colour of every analysis is the text
    [hsl(H, S%, L%)] with [H] a whole number from 0 to 360, [S] a whole
    number from 50 to 100 and [L] a number from 30 to 70 (the ranges the
    comments of [generateGlyphColor] give). *)
Theorem glyph_color_is_hsl (text : jsstring) :
  exists (hue saturation : N) (lightness : Q),
    color (glyphData (analyzeText text))
    = lit "hsl(" ++ decimal hue ++ lit ", " ++ decimal saturation
      ++ lit "%, " ++ numberToString lightness ++ lit "%)"
    /\ (hue <= 360)%N /\ (50 <= saturation <= 100)%N
    /\ 30 <= lightness <= 70.
Proof.
  unfold analyzeText, analyzeTextBody, tryCatch. cbv zeta.
  cbn [glyphData generateGlyphData color]. unfold generateGlyphColor.
  cbv zeta.
  pose proof (AnalyzerFacts.calculateCognitiveLoad_range text) as [Hc0 Hc1].
  pose proof (AnalyzerFacts.calculateEmotionalIntensity_range text)
    as [He0 He1].
  pose proof (AnalyzerFacts.calculateSymbolicDensity_range text) as [Hs0 Hs1].
  destruct (IntegerFacts.calculateEmotionalIntensity_whole text)
    as (k & Hk & He).
  set (c := calculateCognitiveLoad text) in *.
  set (e := calculateEmotionalIntensity text) in *.
  set (s := calculateSymbolicDensity text) in *.
  set (x := (c + e + s) / 3 * 3.6).
  assert (Hx : 0 <= x <= 360) by (apply hue_range; split; assumption).
  assert (Hhue : (0 <= Qfloor x <= 360)%Z).
  { split.
    - change 0%Z with (Qfloor 0). apply Qfloor_resp_le, Hx.
    - rewrite Zle_Qle. eapply Qle_trans; [apply Qfloor_le|]. apply Hx. }
  assert (Hsat : Qmax 50 e == inject_Z (Z.max 50 (Z.min 100 (5 * k)))).
  { rewrite <- IntegerFacts.Qmax_inject.
    apply Q.max_compat; [reflexivity | exact He]. }
  exists (Z.to_N (Qfloor x)), (Z.to_N (Z.max 50 (Z.min 100 (5 * k)))),
    (Qmax 30 (Qmin 70 (100 - c))).
  split; [|split; [lia | split; [lia|]]].
  - unfold floor.
    rewrite (IntegerFacts.numberToString_whole (inject_Z (Qfloor x))
               (Qfloor x)) by (try reflexivity; lia).
    rewrite (IntegerFacts.numberToString_whole (Qmax 50 e) _ Hsat) by lia.
    reflexivity.
  - split; [apply Q.le_max_l|].
    apply Q.max_lub; [discriminate | apply Q.le_min_l].
Qed.

(** X5. Whatever the text, the colour of its analysis is one the renderer
    cannot convert: [hexToRgba] reads its red and green channels as [NaN],
    so the stroke and fill styles of the main glyph are no colours. *)
Theorem hexToRgba_of_analysis_is_NaN (text : jsstring) (alpha : Q) :
  exists rest,
    GlyphRenderer.hexToRgba (color (glyphData (analyzeText text))) alpha
    = lit "rgba(NaN, NaN, " ++ rest.
Proof.
  unfold analyzeText, analyzeTextBody, tryCatch. cbv zeta.
  cbn [glyphData generateGlyphData color].
  destruct (hexToRgba_of_glyph_color host (calculateCognitiveLoad text)
              (calculateEmotionalIntensity text)
              (calculateSymbolicDensity text)) as [b Hb].
  unfold GlyphRenderer.hexToRgba. rewrite Hb.
  eexists. reflexivity.
Qed.

End ColorOfAnalysis.

(** ** The meaning signature *)

Module SignatureFacts.
Import GlyphAnalyzer.

Lemma at_mod {A} (l : list A) (n : nat) :
  l <> [] ->
  exists a, at_ l (Z.rem (Z.of_nat n) (Z.of_nat (length l))) = Some a
            /\ nth_error l (n mod length l) = Some a.
Proof.
  intros Hl.
  assert (Hlen : (0 < length l)%nat) by (destruct l; [congruence | cbn; lia]).
  assert (E : Z.rem (Z.of_nat n) (Z.of_nat (length l))
              = Z.of_nat (n mod length l)).
  { rewrite Z.rem_mod_nonneg by lia. rewrite Nat2Z.inj_mod. reflexivity. }
  rewrite E. unfold at_.
  destruct (Z.ltb_spec (Z.of_nat (n mod length l)) 0) as [H|_]; [lia|].
  rewrite Nat2Z.id.
  destruct (nth_error l (n mod length l)) as [a|] eqn:Ha.
  - exists a. split; reflexivity.
  - apply nth_error_None in Ha.
    pose proof (Nat.mod_upper_bound n (length l)). lia.
Qed.

Lemma fold_left_collect {A B} (keep : A -> bool) (name : A -> B)
    (entries : list A) (acc : list B) :
  fold_left (fun found entry =>
               if keep entry then found ++ [name entry] else found)
            entries acc
  = acc ++ map name (filter keep entries).
Proof.
  revert acc. induction entries as [|entry rest IH]; intros acc; cbn.
  - now rewrite app_nil_r.
  - rewrite IH. destruct (keep entry); cbn; [|reflexivity].
    now rewrite <- app_assoc.
Qed.

Section WithHost.
Context {host : Host}.

Lemma extractThemes_filter (text : jsstring) :
  extractThemes text
  = match map fst (filter (fun entry => hasKeyword text (snd entry))
                          themeKeywords) with
    | [] => [lit "existence"]
    | found => found
    end.
Proof.
  unfold extractThemes. cbv zeta.
  rewrite (fold_left_same
             (fun themes (entry : jsstring * list jsstring) =>
                let '(theme, keywords) := entry in
                if hasKeyword text keywords then themes ++ [theme] else themes)
             (fun themes entry =>
                if hasKeyword text (snd entry) then themes ++ [fst entry]
                else themes)) by (intros ? [? ?]; reflexivity).
  rewrite (fold_left_collect (fun entry => hasKeyword text (snd entry)) fst).
  cbn [app].
  destruct (map fst _) as [|theme found]; reflexivity.
Qed.

Lemma firstMood_in (text : jsstring) entries :
  In (firstMood text entries) (lit "neutral" :: map fst entries).
Proof.
  induction entries as [|[mood keywords] rest IH]; cbn [firstMood].
  - left. reflexivity.
  - destruct (hasKeyword text keywords).
    + right. left. reflexivity.
    + destruct IH as [IH|IH]; [left; exact IH | right; right; exact IH].
Qed.

End WithHost.
End SignatureFacts.

(** X6. The meaning signature of every text is
    [<archetype> resonance with <mood> undertones, exploring themes of
    <themes joined by ", ">], where the archetype is the entry of the table
    at position (length of the text) modulo 10 (never [undefined]), the
    mood is [neutral] or one of the five names of the mood table, and the
    themes are, in the order of the theme table, the names whose keywords
    occur in the text, or the single theme [existence] when none occurs;
    the list of themes is never empty. *)
Theorem meaningSignature_parts {host : Host} (text : jsstring) :
  exists archetype mood themes,
    GlyphAnalyzer.generateMeaningSignature text
    = archetype ++ lit " resonance with " ++ mood
      ++ lit " undertones, exploring themes of " ++ join (lit ", ") themes
    /\ nth_error GlyphAnalyzer.archetypes (length text mod 10) = Some archetype
    /\ In mood (lit "neutral" :: map fst GlyphAnalyzer.moodKeywords)
    /\ themes <> []
    /\ themes
       = match map fst
                 (filter (fun entry =>
                            GlyphAnalyzer.hasKeyword text (snd entry))
                         GlyphAnalyzer.themeKeywords) with
         | [] => [lit "existence"]
         | found => found
         end.
Proof.
  destruct (SignatureFacts.at_mod GlyphAnalyzer.archetypes (length text))
    as (archetype & Hat & Hnth); [discriminate|].
  exists archetype, (GlyphAnalyzer.extractMood text),
    (GlyphAnalyzer.extractThemes text).
  split; [|split; [exact Hnth | split; [apply SignatureFacts.firstMood_in|]]].
  - unfold GlyphAnalyzer.generateMeaningSignature,
      GlyphAnalyzer.extractArchetype. cbv zeta. rewrite Hat. reflexivity.
  - rewrite SignatureFacts.extractThemes_filter.
    split; [|reflexivity].
    destruct (map fst _); discriminate.
Qed.

(** ** The life of an animation *)

Module AnimationFacts.
Import GlyphRenderer SchedulingFacts.

Lemma run_app (history later : list Event) :
  run (history ++ later)
  = fold_left (fun s ev => step ev s) later (run history).
Proof. unfold run. now rewrite fold_left_app. Qed.

Lemma steps_wellScheduled (later : list Event) (s : t * Window) :
  wellScheduled s ->
  wellScheduled (fold_left (fun s ev => step ev s) later s).
Proof.
  revert s. induction later as [|ev later IH]; intros s H; [exact H|].
  cbn [fold_left]. apply IH. now apply step_wellScheduled.
Qed.

Lemma render_animated (r : t) (w : Window) (analysis : ResonanceAnalysis)
  (options : GlyphRenderOptions) (now : Q) :
  wellScheduled (r, w) -> animate options = true ->
  step (CallRender analysis options now) (r, w)
  = ({| animationId := Some (S (lastHandle w)); startTime := now |},
     {| frameCallbacks :=
          [(S (lastHandle w),
            {| closedAnalysis := analysis; closedOptions := options |})];
        lastHandle := S (lastHandle w) |}).
Proof.
  intros H Ha. cbn [step]. unfold render. rewrite Ha.
  now apply startAnimation_replaces.
Qed.

Lemma quiet_step (analysis : ResonanceAnalysis) (options : GlyphRenderOptions)
  (ev : Event) (s : t * Window) :
  wellScheduled s -> animating analysis options s -> quiet ev ->
  animating analysis options (step ev s)
  /\ startTime (fst (step ev s)) = startTime (fst s).
Proof.
  destruct s as [r w]. intros Hw (handle & Hcb & Hid) Hq.
  destruct ev as [analysis' options' now | | throwsAt]; cbn [quiet] in Hq.
  - cbn [step]. unfold render. rewrite Hq. split; [|reflexivity].
    exists handle. now split.
  - contradiction.
  - apply wellScheduled_cases in Hw
      as [[last ->] | (h & callback & last & start & -> & -> & Hle)].
    + discriminate Hcb.
    + cbn [snd frameCallbacks] in Hcb. inversion Hcb; subst.
      cbn [step]. unfold runFrame.
      cbn [frameCallbacks runCallbacks existsb fst].
      rewrite Nat.eqb_refl. cbn [orb]. rewrite cancel_only.
      unfold runAnimate. rewrite Hq. cbn. split; [|reflexivity].
      exists (S last). now split.
Qed.

Lemma quiet_steps (analysis : ResonanceAnalysis) (options : GlyphRenderOptions)
  (later : list Event) (s : t * Window) :
  wellScheduled s -> animating analysis options s -> Forall quiet later ->
  animating analysis options (fold_left (fun s ev => step ev s) later s)
  /\ startTime (fst (fold_left (fun s ev => step ev s) later s))
     = startTime (fst s).
Proof.
  revert s. induction later as [|ev later IH]; intros s Hw Ha Hq.
  - now split.
  - inversion Hq as [|? ? Hev Hrest]; subst. cbn [fold_left].
    destruct (quiet_step analysis options ev s Hw Ha Hev) as [Ha' Hs'].
    destruct (IH (step ev s) (step_wellScheduled ev s Hw) Ha' Hrest)
      as [Ha'' Hs''].
    split; [exact Ha''|]. now rewrite Hs''.
Qed.

(** With no callback waiting, frames and static renders change nothing, and
    [stopAnimation] can only clear [animationId]. *)
Lemma idle_step (ev : Event) (s : t * Window) :
  frameCallbacks (snd s) = [] -> startsNothing ev ->
  frameCallbacks (snd (step ev s)) = []
  /\ (passive ev -> step ev s = s)
  /\ (animationId (fst s) = None -> animationId (fst (step ev s)) = None).
Proof.
  destruct s as [r w]. cbn [fst snd]. intros Hcb Hev.
  destruct ev as [analysis options now | | throwsAt];
    cbn [startsNothing] in Hev.
  - cbn [step]. unfold render. rewrite Hev. cbn [fst snd].
    repeat split; auto.
  - cbn [step]. unfold stopAnimation.
    destruct (animationId r) as [[|id]|] eqn:Hid; cbn [truthy fst snd];
      (split; [|split]); try exact Hcb; try contradiction; try congruence;
      try reflexivity.
    + unfold cancelAnimationFrame. now rewrite Hcb.
  - cbn [step]. unfold runFrame. rewrite Hcb. cbn [runCallbacks fst snd].
    repeat split; auto.
Qed.

Lemma idle_steps (later : list Event) (s : t * Window) :
  frameCallbacks (snd s) = [] -> Forall startsNothing later ->
  frameCallbacks (snd (fold_left (fun s ev => step ev s) later s)) = []
  /\ (Forall passive later ->
      fold_left (fun s ev => step ev s) later s = s)
  /\ (animationId (fst s) = None ->
      animationId (fst (fold_left (fun s ev => step ev s) later s)) = None).
Proof.
  revert s. induction later as [|ev later IH]; intros s Hcb Hall.
  - repeat split; auto.
  - inversion Hall as [|? ? Hev Hrest]; subst. cbn [fold_left].
    destruct (idle_step ev s Hcb Hev) as (Hcb' & Hsame & Hnone).
    destruct (IH (step ev s) Hcb' Hrest) as (Hcb'' & Hsame' & Hnone').
    split; [exact Hcb''|]. split.
    + intros Hp. inversion Hp as [|? ? Hpev Hprest]; subst.
      rewrite (Hsame' Hprest). now apply Hsame.
    + intros Hid. apply Hnone'. now apply Hnone.
Qed.


(** Handles start at 1: [animationId] is never the falsy [0]. *)
Lemma step_handle_positive (ev : Event) (s : t * Window) :
  wellScheduled s -> animationId (fst s) <> Some 0%nat ->
  animationId (fst (step ev s)) <> Some 0%nat.
Proof.
  destruct s as [r w]. cbn [fst]. intros Hw Hid.
  destruct ev as [analysis options now | | throwsAt].
  - destruct (animate options) eqn:Ha.
    + rewrite (render_animated r w analysis options now Hw Ha). discriminate.
    + cbn [step]. unfold render. now rewrite Ha.
  - cbn [step]. unfold stopAnimation.
    destruct (animationId r) as [[|id]|] eqn:E; cbn [truthy fst animationId];
      congruence.
  - apply wellScheduled_cases in Hw
      as [[last ->] | (h & callback & last & start & -> & -> & Hle)].
    + exact Hid.
    + cbn [step]. unfold runFrame.
      cbn [frameCallbacks runCallbacks existsb fst].
      rewrite Nat.eqb_refl. cbn [orb]. rewrite cancel_only.
      unfold runAnimate. destruct (throwsAt (S h)); cbn; discriminate.
Qed.

Lemma run_handle_positive (events : list Event) :
  animationId (fst (run events)) <> Some 0%nat.
Proof.
  induction events as [|ev events IH] using rev_ind.
  - discriminate.
  - rewrite run_snoc. apply step_handle_positive; [|exact IH].
    apply run_wellScheduled.
Qed.

Lemma stop_clears_id (r : t) (w : Window) :
  animationId r <> Some 0%nat ->
  animationId (fst (stopAnimation r w)) = None.
Proof.
  intros Hid. unfold stopAnimation.
  destruct (animationId r) as [[|id]|] eqn:E; cbn [truthy fst animationId];
    congruence.
Qed.

End AnimationFacts.

(** X7. Once [render] has started an animation (its options ask for one),
    that animation keeps running through every later frame in which
    [renderFrame] does not throw and through every later static [render]:
    after them exactly one callback waits, it still draws the analysis and
    the options of the animated call (a static render of another analysis
    does not replace or stop it), [animationId] names it and [startTime] is
    the time of the animated call. *)
Theorem animation_survives_static_render
  (history later : list GlyphRenderer.Event) (analysis : ResonanceAnalysis)
  (options : GlyphRenderOptions) (now : Q) :
  animate options = true ->
  Forall quiet later ->
  let s := GlyphRenderer.run
             (history ++ GlyphRenderer.CallRender analysis options now :: later)
  in animating analysis options s
     /\ GlyphRenderer.startTime (fst s) = now.
Proof.
  intros Ha Hq. cbv zeta. rewrite AnimationFacts.run_app. cbn [fold_left].
  pose proof (SchedulingFacts.run_wellScheduled history) as Hw.
  destruct (GlyphRenderer.run history) as [r w].
  pose proof (SchedulingFacts.step_wellScheduled
                (GlyphRenderer.CallRender analysis options now) (r, w) Hw)
    as Hw'.
  rewrite (AnimationFacts.render_animated r w analysis options now Hw Ha)
    in *.
  apply (AnimationFacts.quiet_steps analysis options later _ Hw'); [|exact Hq].
  eexists. split; reflexivity.
Qed.

Lemma animation_survives_static_render_witness :
  animate (appOptions true) = true
  /\ animating GlyphAnalyzer.getDefaultAnalysis (appOptions true)
       (GlyphRenderer.run
          [GlyphRenderer.CallRender GlyphAnalyzer.getDefaultAnalysis
             (appOptions true) 5;
           GlyphRenderer.Frame (fun _ => false);
           GlyphRenderer.CallRender GlyphAnalyzer.getDefaultAnalysis
             (appOptions false) 9]).
Proof.
  split; [reflexivity|].
  apply (animation_survives_static_render [] _
           GlyphAnalyzer.getDefaultAnalysis (appOptions true) 5).
  - reflexivity.
  - repeat constructor.
Defined.

(** X8. After [stopAnimation], whatever happened before, nothing is
    scheduled and [animationId] is [null], and this stays so through every
    later frame, static render and further [stopAnimation]: only an animated
    [render] starts drawing again. *)
Theorem stopAnimation_is_final
  (history later : list GlyphRenderer.Event) :
  Forall startsNothing later ->
  let s := GlyphRenderer.run (history ++ GlyphRenderer.CallStop :: later) in
  GlyphRenderer.frameCallbacks (snd s) = []
  /\ GlyphRenderer.animationId (fst s) = None.
Proof.
  intros Hall. cbv zeta. rewrite AnimationFacts.run_app. cbn [fold_left].
  pose proof (SchedulingFacts.run_wellScheduled history) as Hw.
  pose proof (AnimationFacts.run_handle_positive history) as Hpos.
  destruct (GlyphRenderer.run history) as [r w]. cbn [fst] in Hpos.
  assert (Hcb : GlyphRenderer.frameCallbacks
                  (snd (GlyphRenderer.step GlyphRenderer.CallStop (r, w))) = [])
    by (apply SchedulingFacts.stopAnimation_clears, Hw).
  destruct (AnimationFacts.idle_steps later _ Hcb Hall) as (H1 & _ & H3).
  split; [exact H1|]. apply H3.
  now apply AnimationFacts.stop_clears_id.
Qed.

Lemma stopAnimation_is_final_witness :
  GlyphRenderer.frameCallbacks
    (snd (GlyphRenderer.run
            [GlyphRenderer.CallRender GlyphAnalyzer.getDefaultAnalysis
               (appOptions true) 5;
             GlyphRenderer.CallStop;
             GlyphRenderer.Frame (fun _ => false);
             GlyphRenderer.CallStop])) = [].
Proof.
  apply (stopAnimation_is_final
           [GlyphRenderer.CallRender GlyphAnalyzer.getDefaultAnalysis
              (appOptions true) 5]
           [GlyphRenderer.Frame (fun _ => false); GlyphRenderer.CallStop]).
  repeat constructor.
Defined.



(** ** The particles of a renderer *)

Module ParticleSystemFacts.
Import Particle ParticleSystem.

Lemma unitDraws_next (rng : Rng) :
  unitDraws rng -> unitDraws (snd (Math_random rng)).
Proof. intros H n. exact (H n). Qed.

Lemma spawn_fresh (canvasWidth canvasHeight : Q) (color0 : jsstring)
  (rng : Rng) :
  0 < canvasWidth -> 0 < canvasHeight -> unitDraws rng ->
  freshParticle canvasWidth canvasHeight color0
                (fst (spawn canvasWidth canvasHeight color0 rng))
  /\ source (snd (spawn canvasWidth canvasHeight color0 rng)) = source rng
  /\ taken (snd (spawn canvasWidth canvasHeight color0 rng))
     = (taken rng + 6)%nat.
Proof.
  intros Hw Hh Hdraw. unfold spawn, create, Math_random, freshParticle. cbn.
  pose proof (Hdraw (taken rng)) as [? ?].
  pose proof (Hdraw (S (taken rng))) as [? ?].
  pose proof (Hdraw (S (S (taken rng)))) as [? ?].
  pose proof (Hdraw (S (S (S (taken rng))))) as [? ?].
  pose proof (Hdraw (S (S (S (S (taken rng)))))) as [? ?].
  pose proof (Hdraw (S (S (S (S (S (taken rng))))))) as [? ?].
  split; [|split; [reflexivity | lia]].
  split; [split; nra|]. split; [split; nra|].
  split; [split; lra|]. split; [split; lra|].
  split; [split; lra|]. split; [split; lra|].
  split; reflexivity.
Qed.

Lemma pushParticles_spec (count : nat) (canvasWidth canvasHeight : Q)
  (color0 : jsstring) (particles : list t) (rng : Rng) :
  0 < canvasWidth -> 0 < canvasHeight -> unitDraws rng ->
  Forall (freshParticle canvasWidth canvasHeight color0) particles ->
  let result :=
    pushParticles count canvasWidth canvasHeight color0 particles rng in
  length (fst result) = (length particles + count)%nat
  /\ Forall (freshParticle canvasWidth canvasHeight color0) (fst result)
  /\ source (snd result) = source rng
  /\ taken (snd result) = (taken rng + 6 * count)%nat.
Proof.
  intros Hw Hh. revert particles rng.
  induction count as [|count IH]; intros particles rng Hdraw Hall; cbv zeta.
  - cbn [pushParticles fst snd]. repeat split; [lia | exact Hall | lia].
  - cbn [pushParticles].
    destruct (spawn_fresh canvasWidth canvasHeight color0 rng Hw Hh Hdraw)
      as (Hfresh & Hsource & Htaken).
    destruct (spawn canvasWidth canvasHeight color0 rng) as [p rng1].
    cbn [fst snd] in Hfresh, Hsource, Htaken.
    assert (Hdraw1 : unitDraws rng1)
      by (intros n; rewrite Hsource; apply Hdraw).
    assert (Hall1 : Forall (freshParticle canvasWidth canvasHeight color0)
                           (particles ++ [p]))
      by (apply Forall_app; split; [exact Hall | now constructor]).
    destruct (IH (particles ++ [p]) rng1 Hdraw1 Hall1) as (H1 & H2 & H3 & H4).
    rewrite length_app in H1. cbn [length] in H1.
    split; [lia|]. split; [exact H2|]. split; [congruence | lia].
Qed.

Lemma particleCount_range (density : Q) :
  inPercent density ->
  (10 <= Qfloor (density / 10) + 10 <= 20)%Z.
Proof.
  intros [H0 H1].
  assert (Hlo : (0 <= Qfloor (density / 10))%Z).
  { change 0%Z with (Qfloor 0). apply Qfloor_resp_le.
    apply Qle_shift_div_l; [reflexivity | lra]. }
  assert (Hhi : (Qfloor (density / 10) <= 10)%Z).
  { rewrite Zle_Qle. eapply Qle_trans; [apply Qfloor_le|].
    apply Qle_shift_div_r; [reflexivity|].
    change (density <= 10 * 10). lra. }
  lia.
Qed.

Lemma fresh_drawable (canvasWidth canvasHeight : Q) (color0 : jsstring)
  (p : t) :
  freshParticle canvasWidth canvasHeight color0 p -> drawable p.
Proof.
  intros (_ & _ & _ & _ & Hsize & Hmax & Hlife & _). unfold drawable.
  rewrite Hlife. split; [split; lra | split; assumption].
Qed.

Section WithHost.
Context {host : Host}.

Lemma update_drawable (p : t) (centerX centerY frequency0 time : Q)
  (rng : Rng) :
  drawable p ->
  drawable (fst (update p centerX centerY frequency0 time rng))
  /\ source (snd (update p centerX centerY frequency0 time rng)) = source rng.
Proof.
  intros ((Hl0 & Hl1) & Hmax & Hsize).
  destruct (Qlt_le_dec 0 (life p - 1)) as [Hlive|Hdead].
  - destruct (update_moves p centerX centerY frequency0 time rng Hlive)
      as (Hlife & Hmaxlife & Hrng).
    rewrite Hrng. split; [|reflexivity].
    unfold drawable. rewrite Hlife, Hmaxlife.
    split; [split; lra|]. split; [exact Hmax|].
    replace (size (fst (update p centerX centerY frequency0 time rng)))
      with (size p); [exact Hsize|].
    unfold update. destruct (Qltb 0 (Math_sqrt _)); cbv zeta;
      destruct (Qle_bool _ 0); reflexivity.
  - destruct (update_respawns p centerX centerY frequency0 time rng Hdead)
      as (Hlife & Hmaxlife & _).
    split.
    + unfold drawable. rewrite Hlife, Hmaxlife.
      split; [split; lra|]. split; [exact Hmax|].
      replace (size (fst (update p centerX centerY frequency0 time rng)))
        with (size p); [exact Hsize|].
      unfold update. destruct (Qltb 0 (Math_sqrt _)); cbv zeta;
        destruct (Qle_bool _ 0); reflexivity.
    + unfold update. destruct (Qltb 0 (Math_sqrt _)); cbv zeta;
        destruct (Qle_bool _ 0); reflexivity.
Qed.

Lemma updateEach_drawable (particles : list t)
  (centerX centerY frequency0 time : Q) (rng : Rng) :
  Forall drawable particles ->
  let result := updateEach particles centerX centerY frequency0 time rng in
  length (fst result) = length particles
  /\ Forall drawable (fst result)
  /\ source (snd result) = source rng.
Proof.
  revert rng. induction particles as [|p rest IH]; intros rng Hall; cbv zeta.
  - cbn. repeat split. constructor.
  - inversion Hall as [|? ? Hp Hrest]; subst. cbn [updateEach].
    destruct (update_drawable p centerX centerY frequency0 time rng Hp)
      as [Hp' Hs'].
    destruct (update p centerX centerY frequency0 time rng) as [p' rng1].
    cbn [fst snd] in Hp', Hs'.
    destruct (IH rng1 Hrest) as (H1 & H2 & H3).
    destruct (updateEach rest centerX centerY frequency0 time rng1)
      as [rest' rng2].
    cbn [fst snd length] in *.
    split; [lia|]. split; [now constructor | congruence].
Qed.

Lemma afterFrames_cons (canvasWidth canvasHeight : Q)
  (analysis : ResonanceAnalysis) (time : Q) (times : list Q)
  (s : list t * Rng) :
  afterFrames canvasWidth canvasHeight analysis (time :: times) s
  = afterFrames canvasWidth canvasHeight analysis times
      (updateEach (fst s) (canvasWidth / 2) (canvasHeight / 2)
                  (frequency (glyphData analysis)) time (snd s)).
Proof. reflexivity. Qed.

Lemma afterFrames_drawable (canvasWidth canvasHeight : Q)
  (analysis : ResonanceAnalysis) (times : list Q) (s : list t * Rng) :
  Forall drawable (fst s) ->
  length (fst (afterFrames canvasWidth canvasHeight analysis times s))
  = length (fst s)
  /\ Forall drawable
            (fst (afterFrames canvasWidth canvasHeight analysis times s)).
Proof.
  revert s. induction times as [|time times IH]; intros s Hall.
  - split; [reflexivity | exact Hall].
  - rewrite afterFrames_cons.
    destruct (updateEach_drawable (fst s) (canvasWidth / 2) (canvasHeight / 2)
                (frequency (glyphData analysis)) time (snd s) Hall)
      as (H1 & H2 & _).
    destruct (IH _ H2) as [H3 H4].
    split; [|exact H4]. now rewrite H3.
Qed.

End WithHost.
End ParticleSystemFacts.

(** X10. On a canvas of positive size and with draws of [Math.random] in
    [[0, 1)], [initializeParticles] makes floor(symbolicDensity / 10) + 10
    particles, between 10 and 20 for a density in 0..100, from six draws
    each; every one lies inside the canvas, has both velocity components in
    [[-1, 1)], a size in [[1, 4)], a [maxLife] in [[50, 150)], a full life
    and the colour of the glyph. *)
Theorem initializeParticles_fresh (canvasWidth canvasHeight : Q)
  (analysis : ResonanceAnalysis) (rng : Rng) :
  0 < canvasWidth -> 0 < canvasHeight -> unitDraws rng ->
  inPercent (symbolicDensity analysis) ->
  let result :=
    ParticleSystem.initializeParticles canvasWidth canvasHeight analysis rng in
  Z.of_nat (length (fst result))
  = (Qfloor (symbolicDensity analysis / 10) + 10)%Z
  /\ (10 <= length (fst result) <= 20)%nat
  /\ taken (snd result) = (taken rng + 6 * length (fst result))%nat
  /\ Forall (freshParticle canvasWidth canvasHeight
                           (color (glyphData analysis))) (fst result).
Proof.
  intros Hw Hh Hdraw Hd. cbv zeta.
  pose proof (ParticleSystemFacts.particleCount_range _ Hd) as Hcount.
  unfold ParticleSystem.initializeParticles. cbv zeta.
  destruct (ParticleSystemFacts.pushParticles_spec
              (Z.to_nat (Qfloor (symbolicDensity analysis / 10) + 10))
              canvasWidth canvasHeight (color (glyphData analysis)) [] rng
              Hw Hh Hdraw (Forall_nil _)) as (H1 & H2 & _ & H4).
  cbn [length Nat.add] in H1.
  split; [rewrite H1; lia|]. split; [lia|]. split; [|exact H2].
  rewrite H4, H1. reflexivity.
Qed.

Lemma initializeParticles_fresh_witness :
  0 < 400 /\ 0 < 300
  /\ unitDraws {| source := fun _ => 0.9; taken := 0 |}
  /\ inPercent (symbolicDensity GlyphAnalyzer.getDefaultAnalysis)
  /\ length (fst (ParticleSystem.initializeParticles 400 300
                    GlyphAnalyzer.getDefaultAnalysis
                    {| source := fun _ => 0.9; taken := 0 |})) = 14%nat.
Proof.
  assert (Hw : 0 < 400) by reflexivity.
  assert (Hh : 0 < 300) by reflexivity.
  assert (Hdraw : unitDraws {| source := fun _ => 0.9; taken := 0 |})
    by (intros n; split; [discriminate | reflexivity]).
  assert (Hd : inPercent (symbolicDensity GlyphAnalyzer.getDefaultAnalysis))
    by (split; discriminate).
  destruct (initializeParticles_fresh 400 300 GlyphAnalyzer.getDefaultAnalysis
              _ Hw Hh Hdraw Hd) as (Hcount & _).
  split; [exact Hw|]. split; [exact Hh|]. split; [exact Hdraw|].
  split; [exact Hd|].
  apply Nat2Z.inj. rewrite Hcount. reflexivity.
Defined.

(** X11. The particles of an animation never die out: after
    [initializeParticles] and any number of frames, at any times, there are
    as many particles as at the start and each has a life above 0 and at
    most its [maxLife], a [maxLife] in [[50, 150)] and a size in [[1, 4)], so
    that [Particle.render] always draws with an opacity factor
    life / maxLife in (0, 1] and a positive radius. *)
Theorem particles_stay_drawable {host : Host} (canvasWidth canvasHeight : Q)
  (analysis : ResonanceAnalysis) (times : list Q) (rng : Rng) :
  0 < canvasWidth -> 0 < canvasHeight -> unitDraws rng ->
  inPercent (symbolicDensity analysis) ->
  let started :=
    ParticleSystem.initializeParticles canvasWidth canvasHeight analysis rng in
  let result :=
    ParticleSystem.afterFrames canvasWidth canvasHeight analysis times started
  in
  length (fst result) = length (fst started)
  /\ Forall drawable (fst result).
Proof.
  intros Hw Hh Hdraw Hd. cbv zeta.
  unfold ParticleSystem.initializeParticles. cbv zeta.
  destruct (ParticleSystemFacts.pushParticles_spec
              (Z.to_nat (Qfloor (symbolicDensity analysis / 10) + 10))
              canvasWidth canvasHeight (color (glyphData analysis)) [] rng
              Hw Hh Hdraw (Forall_nil _)) as (_ & H2 & _).
  apply ParticleSystemFacts.afterFrames_drawable.
  eapply Forall_impl; [|exact H2].
  intros p. apply ParticleSystemFacts.fresh_drawable.
Qed.

Lemma particles_stay_drawable_witness :
  0 < 400 /\ 0 < 300
  /\ unitDraws {| source := fun _ => 0.9; taken := 0 |}
  /\ inPercent (symbolicDensity GlyphAnalyzer.getDefaultAnalysis)
  /\ Forall drawable
       (fst (@ParticleSystem.afterFrames coarseHost 400 300
               GlyphAnalyzer.getDefaultAnalysis [0; 1]
               (ParticleSystem.initializeParticles 400 300
                  GlyphAnalyzer.getDefaultAnalysis
                  {| source := fun _ => 0.9; taken := 0 |}))).
Proof.
  assert (Hw : 0 < 400) by reflexivity.
  assert (Hh : 0 < 300) by reflexivity.
  assert (Hdraw : unitDraws {| source := fun _ => 0.9; taken := 0 |})
    by (intros n; split; [discriminate | reflexivity]).
  assert (Hd : inPercent (symbolicDensity GlyphAnalyzer.getDefaultAnalysis))
    by (split; discriminate).
  split; [exact Hw|]. split; [exact Hh|]. split; [exact Hdraw|].
  split; [exact Hd|].
  apply (@particles_stay_drawable coarseHost 400 300
           GlyphAnalyzer.getDefaultAnalysis [0; 1] _ Hw Hh Hdraw Hd).
Defined.

(** ** The field from frame to frame *)

Module WaveFacts.
Import ResonanceField FieldFacts.

Section WithHost.
Context {host : Host}.

Lemma waves_rectangular (value : nat -> nat -> Q) (rows cols : nat) :
  (0 < rows)%nat ->
  exists others,
    map (fun i => map (value i) (seq 0 cols)) (seq 0 rows)
    = map (value 0%nat) (seq 0 cols) :: others
    /\ Forall (fun row => length row
                          = length (map (value 0%nat) (seq 0 cols)))
              (map (fun i => map (value i) (seq 0 cols)) (seq 0 rows)).
Proof.
  intros Hrows. destruct rows as [|rows]; [lia|].
  cbn [seq map]. eexists. split; [reflexivity|].
  rewrite length_map, length_seq. constructor.
  - now rewrite length_map, length_seq.
  - apply Forall_map, Forall_forall. intros i _.
    now rewrite length_map, length_seq.
Qed.

Lemma update_twice (f : t) (first second : ResonanceAnalysis)
  (time1 time2 : Q) :
  rectangular (field f) ->
  exists f1 f2,
    update f first time1 = Normal f1
    /\ update f1 second time2 = Normal f2
    /\ update f second time2 = Normal f2
    /\ rectangular (field f1).
Proof.
  intros (row0 & others & Hfield & Hrect).
  assert (Hrows : (0 < length (field f))%nat)
    by (rewrite Hfield; cbn; lia).
  destruct (waves_rectangular
              (wave first time1 (length row0) (length (field f)))
              (length (field f)) (length row0) Hrows)
    as (others1 & Hfield1 & Hrect1).
  set (f1 := setField f
                (map (fun i =>
                        map (wave first time1 (length row0)
                                  (length (field f)) i)
                            (seq 0 (length row0)))
                     (seq 0 (length (field f))))).
  exists f1. eexists.
  split; [apply (update_rectangular f first time1 row0 others Hfield Hrect)|].
  split; [|split].
  - rewrite (update_rectangular f1 second time2 _ others1 Hfield1 Hrect1).
    unfold f1. cbn [field setField].
    rewrite !length_map, !length_seq. reflexivity.
  - rewrite (update_rectangular f second time2 row0 others Hfield Hrect).
    reflexivity.
  - exists (map (wave first time1 (length row0) (length (field f)) 0%nat)
                (seq 0 (length row0))), others1.
    split; [exact Hfield1 | exact Hrect1].
Qed.

Lemma wave_amplitude (analysis : ResonanceAnalysis) (time : Q)
  (cols rows i j : nat) :
  boundedWaves host ->
  0 <= emotionalIntensity analysis -> 0 <= cognitiveLoad analysis ->
  Qabs (wave analysis time cols rows i j)
  <= (emotionalIntensity analysis + cognitiveLoad analysis) / 200.
Proof.
  intros Hb He Hc. unfold wave. cbv zeta.
  set (s := Math_sin _). set (c := Math_cos _).
  assert (Hs : -1 <= s <= 1) by apply Hb.
  assert (Hcc : -1 <= c <= 1) by apply Hb.
  set (e := emotionalIntensity analysis) in *.
  set (g := cognitiveLoad analysis) in *.
  assert (E : (s * e / 100 + c * g / 100) * 0.5 == (s * e + c * g) / 200)
    by field.
  assert (E' : (e + g) / 200 == (e + g) * (1 # 200)) by field.
  rewrite E, E'. apply Qabs_Qle_condition.
  assert ((s * e + c * g) / 200 == (s * e + c * g) * (1 # 200)) as -> by field.
  split; nra.
Qed.

Lemma faint_is_invisible (v : Q) : Qabs v <= 0.1 -> visible v = false.
Proof.
  intros Hv. unfold visible.
  destruct (Qltb 0.05 (Qmin 0.3 (Qabs v * 0.5))) eqn:E; [|reflexivity].
  apply Qltb_true in E.
  pose proof (Q.le_min_r 0.3 (Qabs v * 0.5)). lra.
Qed.

Lemma paintCell_faint (cells : list (list Q)) (i j : nat) :
  Forall (Forall (fun v => Qabs v <= 0.1)) cells ->
  paintCell cells i j = [].
Proof.
  intros Hall. unfold paintCell.
  destruct (nth_error cells i) as [row|] eqn:Hrow; [|reflexivity].
  destruct (nth_error row j) as [v|] eqn:Hv; [|reflexivity].
  apply nth_error_In in Hrow, Hv.
  rewrite Forall_forall in Hall. specialize (Hall row Hrow).
  rewrite Forall_forall in Hall. specialize (Hall v Hv).
  now rewrite (faint_is_invisible v Hall).
Qed.

Lemma flat_map_nil {A B} (g : A -> list B) (l : list A) :
  (forall a, g a = []) -> flat_map g l = [].
Proof.
  intros Hg. induction l as [|a l IH]; [reflexivity|].
  cbn [flat_map]. now rewrite Hg, IH.
Qed.

Lemma render_faint (f : t) :
  rectangular (field f) ->
  Forall (Forall (fun v => Qabs v <= 0.1)) (field f) ->
  render f = Normal [CtxSave; CtxRestore].
Proof.
  intros (row0 & others & Hfield & _) Hall.
  rewrite (render_operations f row0 others Hfield).
  rewrite flat_map_nil; [reflexivity|].
  intros i. apply flat_map_nil. intros j. now apply paintCell_faint.
Qed.

End WithHost.
End WaveFacts.

(** X12. The field keeps nothing from frame to frame: on a grid with a first
    row and rows of one length, [update] does not throw and overwrites every
    cell, so that an update after another gives what the second alone gives,
    whatever the analysis and the time of the first. *)
Theorem update_overwrites {host : Host} (f : ResonanceField.t)
  (first second : ResonanceAnalysis) (time1 time2 : Q) :
  rectangular (ResonanceField.field f) ->
  exists f1 f2,
    ResonanceField.update f first time1 = Normal f1
    /\ ResonanceField.update f1 second time2 = Normal f2
    /\ ResonanceField.update f second time2 = Normal f2.
Proof.
  intros Hrect.
  destruct (WaveFacts.update_twice f first second time1 time2 Hrect)
    as (f1 & f2 & H1 & H2 & H3 & _).
  exists f1, f2. split; [exact H1|]. split; [exact H2 | exact H3].
Qed.

Lemma update_overwrites_witness :
  rectangular [[0; 0]; [0; 0]]
  /\ exists f1 f2,
       @ResonanceField.update coarseHost
         {| ResonanceField.width := 40; ResonanceField.height := 40;
            ResonanceField.field := [[0; 0]; [0; 0]] |}
         GlyphAnalyzer.getDefaultAnalysis 1 = Normal f1
       /\ @ResonanceField.update coarseHost f1
            GlyphAnalyzer.getDefaultAnalysis 2 = Normal f2
       /\ @ResonanceField.update coarseHost
            {| ResonanceField.width := 40; ResonanceField.height := 40;
               ResonanceField.field := [[0; 0]; [0; 0]] |}
            GlyphAnalyzer.getDefaultAnalysis 2 = Normal f2.
Proof.
  assert (Hrect : rectangular [[0; 0]; [0; 0]]).
  { exists [0; 0], [[0; 0]]. split; [reflexivity|]. repeat constructor. }
  split; [exact Hrect|].
  apply (@update_overwrites coarseHost
           {| ResonanceField.width := 40; ResonanceField.height := 40;
              ResonanceField.field := [[0; 0]; [0; 0]] |}
           GlyphAnalyzer.getDefaultAnalysis GlyphAnalyzer.getDefaultAnalysis
           1 2 Hrect).
Defined.

(** X13. With sines and cosines between -1 and 1 and scores that are not
    negative, no cell of an updated field is larger in absolute value than
    (emotionalIntensity + cognitiveLoad) / 200; when the two scores sum to
    at most 20, every opacity stays at or under the threshold 0.05 and
    [render] fills no rectangle at all. *)
Theorem update_amplitude {host : Host} (f : ResonanceField.t)
  (analysis : ResonanceAnalysis) (time : Q) :
  boundedWaves host ->
  0 <= emotionalIntensity analysis -> 0 <= cognitiveLoad analysis ->
  rectangular (ResonanceField.field f) ->
  exists updated,
    ResonanceField.update f analysis time = Normal updated
    /\ Forall (Forall (fun v =>
                 Qabs v <= (emotionalIntensity analysis
                            + cognitiveLoad analysis) / 200))
              (ResonanceField.field updated)
    /\ (emotionalIntensity analysis + cognitiveLoad analysis <= 20 ->
        ResonanceField.render updated
        = Normal [ResonanceField.CtxSave; ResonanceField.CtxRestore]).
Proof.
  intros Hb He Hc Hrect.
  destruct (WaveFacts.update_twice f analysis analysis time time Hrect)
    as (updated & _ & Hup & _ & _ & Hrect').
  assert (Hcells : Forall (Forall (fun v =>
                     Qabs v <= (emotionalIntensity analysis
                                + cognitiveLoad analysis) / 200))
                          (ResonanceField.field updated)).
  { destruct Hrect as (row0 & others & Hfield & Hrows).
    rewrite (FieldFacts.update_rectangular f analysis time row0 others
               Hfield Hrows) in Hup.
    injection Hup as <-. cbn [ResonanceField.field ResonanceField.setField].
    apply Forall_map, Forall_forall. intros i _.
    apply Forall_map, Forall_forall. intros j _.
    now apply WaveFacts.wave_amplitude. }
  exists updated. split; [exact Hup|]. split; [exact Hcells|].
  intros Hsum. apply WaveFacts.render_faint; [exact Hrect'|].
  eapply Forall_impl; [|exact Hcells]. intros row.
  apply Forall_impl. intros v Hv.
  eapply Qle_trans; [exact Hv|].
  apply Qle_shift_div_r; [reflexivity|].
  eapply Qle_trans; [exact Hsum|]. discriminate.
Qed.

Lemma update_amplitude_witness :
  boundedWaves clampedHost
  /\ 0 <= emotionalIntensity GlyphAnalyzer.getDefaultAnalysis
  /\ 0 <= cognitiveLoad GlyphAnalyzer.getDefaultAnalysis
  /\ rectangular [[0; 0]; [0; 0]]
  /\ exists updated,
       @ResonanceField.update clampedHost
         {| ResonanceField.width := 40; ResonanceField.height := 40;
            ResonanceField.field := [[0; 0]; [0; 0]] |}
         GlyphAnalyzer.getDefaultAnalysis 1 = Normal updated
       /\ Forall (Forall (fun v => Qabs v <= (30 + 50) / 200))
                 (ResonanceField.field updated).
Proof.
  assert (Hb : boundedWaves clampedHost).
  { intros v. cbn [Math_sin Math_cos clampedHost]. split; split;
      first [ apply Q.le_max_l
            | apply Q.max_lub; [discriminate | apply Q.le_min_l] ]. }
  assert (He : 0 <= emotionalIntensity GlyphAnalyzer.getDefaultAnalysis)
    by discriminate.
  assert (Hc : 0 <= cognitiveLoad GlyphAnalyzer.getDefaultAnalysis)
    by discriminate.
  assert (Hrect : rectangular [[0; 0]; [0; 0]]).
  { exists [0; 0], [[0; 0]]. split; [reflexivity|]. repeat constructor. }
  split; [exact Hb|]. split; [exact He|]. split; [exact Hc|].
  split; [exact Hrect|].
  destruct (@update_amplitude clampedHost
              {| ResonanceField.width := 40; ResonanceField.height := 40;
                 ResonanceField.field := [[0; 0]; [0; 0]] |}
              GlyphAnalyzer.getDefaultAnalysis 1 Hb He Hc Hrect)
    as (updated & Hup & Hcells & _).
  exists updated. split; [exact Hup | exact Hcells].
Defined.

(** ** The phase timeline *)

Module TimelineFacts.
Import PhaseTimeline.

Lemma differs_spec (p : Phase) (cur : option Phase) :
  differs p cur = false <-> cur = Some p.
Proof.
  unfold differs. destruct cur as [q|]; [|split; discriminate].
  destruct p, q; cbn; split; intros H; congruence.
Qed.

Lemma tiles_snoc (data : list ResonanceData) (segments : list Segment.t)
  (s : Segment.t) (from : nat) :
  tiles data from segments (Segment.start s) -> isRun data s ->
  tiles data from (segments ++ [s]) (S (Segment.end_ s)).
Proof.
  revert from. induction segments as [|t rest IH]; intros from Ht Hs.
  - cbn in *. repeat split; auto; apply Hs.
  - cbn [app tiles] in *. destruct Ht as (H1 & H2 & H3).
    split; [exact H1|]. split; [exact H2|]. now apply IH.
Qed.

Lemma alternates_snoc (segments : list Segment.t) (s : Segment.t) :
  alternates segments ->
  (forall t, last (map Some segments) None = Some t ->
             Segment.phase t <> Segment.phase s) ->
  alternates (segments ++ [s]).
Proof.
  induction segments as [|t rest IH]; intros Ha Hlast; [exact I|].
  destruct rest as [|u rest].
  - cbn. split; [|exact I]. apply Hlast. reflexivity.
  - cbn [app alternates] in *. destruct Ha as [Hd Ha].
    split; [exact Hd|]. apply IH; [exact Ha|].
    intros t' Ht'. apply Hlast. exact Ht'.
Qed.

Lemma last_snoc {A} (l : list A) (a d : A) : last (l ++ [a]) d = a.
Proof. apply last_last. Qed.

Lemma tiles_durations (data : list ResonanceData) (segments : list Segment.t)
  (from to : nat) :
  tiles data from segments to ->
  (from <= to)%nat
  /\ list_sum (map Segment.duration segments) = (to - from)%nat.
Proof.
  revert from. induction segments as [|s rest IH]; intros from Ht.
  - cbn in *. subst. split; [lia | cbn; lia].
  - cbn [tiles] in Ht. destruct Ht as (Hstart & Hrun & Hrest).
    destruct (IH _ Hrest) as [Hle Hsum].
    destruct Hrun as ((Hse & _) & Hdur & _).
    change (list_sum (map Segment.duration (s :: rest)))
      with (Segment.duration s + list_sum (map Segment.duration rest))%nat.
    rewrite Hsum, Hdur. split; lia.
Qed.

Lemma groupStep_grouped (data : list ResonanceData) (i : nat) (st : Grouping) :
  grouped data i st -> (i < length data)%nat ->
  exists st', groupStep data i st = Normal st' /\ grouped data (S i) st'.
Proof.
  intros ((Hlt & Hle) & Htiles & Halt & Hrun & Hlast) Hi.
  unfold groupStep, element.
  destruct (nth_error data i) as [d|] eqn:Hd;
    [|apply nth_error_None in Hd; lia].
  cbn [bind].
  destruct (differs (phase d) (currentPhase st)) eqn:Hdiff.
  - eexists. split; [reflexivity|].
    set (s := {| Segment.phase := currentPhase st;
                 Segment.start := segmentStart st;
                 Segment.end_ := i - 1;
                 Segment.duration := i - segmentStart st;
                 Segment.avgResonance := _ |}).
    assert (Hs : isRun data s).
    { unfold isRun, s.
      cbn [Segment.phase Segment.start Segment.end_ Segment.duration
           Segment.avgResonance].
      split; [lia|]. split; [lia|]. split.
      - intros k Hk. apply Hrun. lia.
      - replace (S (i - 1)) with i by lia. reflexivity. }
    unfold grouped. cbn [segmentStart phaseSegments currentPhase].
    split; [lia|]. split.
    { assert (Hend : S (Segment.end_ s) = i) by (cbn; lia).
      pose proof (tiles_snoc data _ s 0%nat Htiles Hs) as H.
      rewrite Hend in H. exact H. }
    split.
    { apply alternates_snoc; [exact Halt|]. intros t Ht.
      cbn. now apply Hlast. }
    split.
    { intros k Hk. assert (k = i) by lia. subst k. now rewrite Hd. }
    { intros t Ht. rewrite map_app in Ht. cbn [map] in Ht.
      rewrite last_snoc in Ht.
      injection Ht as <-. cbn. intros Heq.
      apply differs_spec in Heq. congruence. }
  - exists st. split; [reflexivity|].
    apply differs_spec in Hdiff.
    unfold grouped. split; [lia|]. split; [exact Htiles|].
    split; [exact Halt|]. split; [|exact Hlast].
    intros k Hk. destruct (Nat.eq_dec k i) as [->|Hne].
    + rewrite Hd. cbn. now rewrite Hdiff.
    + apply Hrun. lia.
Qed.

Lemma forLoop_grouped (data : list ResonanceData) (n : nat) :
  forall i st,
    grouped data i st -> (i + n = length data)%nat ->
    exists st',
      forLoop n i (groupStep data) st = Normal st'
      /\ grouped data (length data) st'.
Proof.
  induction n as [|n IH]; intros i st Hg Hn.
  - exists st. split; [reflexivity|].
    replace (length data) with i by lia. exact Hg.
  - cbn [forLoop].
    destruct (groupStep_grouped data i st Hg ltac:(lia)) as (st1 & -> & Hg1).
    cbn [bind]. apply IH; [exact Hg1 | lia].
Qed.

Lemma length_nonzero {A} (l : list A) : l <> [] -> ~ ofNat (length l) == 0.
Proof.
  intros Hl H. pose proof (ofNat_pos (length l)) as Hpos.
  assert (1 <= length l)%nat by (destruct l; [congruence | cbn; lia]).
  specialize (Hpos ltac:(assumption)). rewrite H in Hpos.
  apply (Qlt_not_le 0 1); [reflexivity | exact Hpos].
Qed.

Lemma sum_widths (data : list ResonanceData) (segments : list Segment.t) :
  data <> [] ->
  fold_right Qplus 0 (map (widthPercent data) segments)
  == ofNat (list_sum (map Segment.duration segments)) / ofNat (length data)
     * 100.
Proof.
  intros Hdata.
  pose proof (length_nonzero data Hdata) as Hlen.
  induction segments as [|s rest IH].
  - unfold ofNat. cbn. field. exact Hlen.
  - change (list_sum (map Segment.duration (s :: rest)))
      with (Segment.duration s + list_sum (map Segment.duration rest))%nat.
    cbn [map fold_right]. rewrite IH. unfold widthPercent.
    pose proof (ofNat_add (Segment.duration s)
                  (list_sum (map Segment.duration rest))) as E.
    rewrite E. field. exact Hlen.
Qed.

End TimelineFacts.

(** X14. The segments of the phase timeline are the runs of the data:
    grouping never throws; the segments follow one another from index 0 to
    the last index without gap or overlap; each is a run of data of one
    phase, with [end], [duration] and the mean resonance of exactly its
    data; neighbours have different phases; the durations add up to the
    number of data, so that the widths of a timeline with data add up to
    100 percent, and there is no segment exactly when there is no datum. *)
Theorem group_runs (data : list PhaseTimeline.ResonanceData) :
  exists segments,
    PhaseTimeline.group data = Normal segments
    /\ tiles data 0 segments (length data)
    /\ alternates segments
    /\ list_sum (map PhaseTimeline.Segment.duration segments) = length data
    /\ (segments = [] <-> data = [])
    /\ (data <> [] ->
        fold_right Qplus 0 (map (PhaseTimeline.widthPercent data) segments)
        == 100).
Proof.
  destruct data as [|d0 data'] eqn:Hdata.
  - exists []. cbn. repeat split; auto; intros H; congruence.
  - rewrite <- Hdata.
    assert (Hlen : (0 < length data)%nat) by (subst; cbn; lia).
    set (start := {| PhaseTimeline.phaseSegments := [];
                     PhaseTimeline.currentPhase :=
                       option_map PhaseTimeline.phase (nth_error data 0);
                     PhaseTimeline.segmentStart := 0 |}).
    assert (Hg : grouped data 1 start).
    { unfold grouped, start. cbn.
      split; [lia|]. split; [reflexivity|]. split; [exact I|].
      split; [|discriminate].
      intros k Hk. assert (k = 0)%nat by lia. now subst k. }
    destruct (TimelineFacts.forLoop_grouped data (length data - 1) 1 start Hg
                ltac:(lia))
      as (st & Hloop & (Hlt & Hle) & Htiles & Halt & Hrun & Hlast).
    unfold PhaseTimeline.group. cbv zeta. fold start. rewrite Hloop.
    cbn [bind]. destruct (Nat.ltb_spec 0 (length data)) as [_|]; [|lia].
    set (s := {| PhaseTimeline.Segment.phase := PhaseTimeline.currentPhase st;
                 PhaseTimeline.Segment.start := PhaseTimeline.segmentStart st;
                 PhaseTimeline.Segment.end_ := length data - 1;
                 PhaseTimeline.Segment.duration :=
                   length data - PhaseTimeline.segmentStart st;
                 PhaseTimeline.Segment.avgResonance := _ |}).
    assert (Hs : isRun data s).
    { unfold isRun, s.
      cbn [PhaseTimeline.Segment.phase PhaseTimeline.Segment.start
           PhaseTimeline.Segment.end_ PhaseTimeline.Segment.duration
           PhaseTimeline.Segment.avgResonance].
      split; [lia|]. split; [lia|]. split.
      - intros k Hk. apply Hrun. lia.
      - replace (S (length data - 1)) with (length data) by lia.
        reflexivity. }
    assert (Hall : tiles data 0 (PhaseTimeline.phaseSegments st ++ [s])
                         (length data)).
    { assert (Hend : S (PhaseTimeline.Segment.end_ s) = length data)
        by (cbn; lia).
      pose proof (TimelineFacts.tiles_snoc data _ s 0%nat Htiles Hs) as H.
      rewrite Hend in H. exact H. }
    destruct (TimelineFacts.tiles_durations _ _ _ _ Hall) as [_ Hsum].
    rewrite Nat.sub_0_r in Hsum.
    eexists. split; [reflexivity|]. split; [exact Hall|]. split.
    { apply TimelineFacts.alternates_snoc; [exact Halt|].
      intros t Ht. cbn. now apply Hlast. }
    split; [exact Hsum|]. split.
    { split; intros H.
      - destruct (PhaseTimeline.phaseSegments st); discriminate H.
      - subst data. discriminate H. }
    intros Hne. rewrite (TimelineFacts.sum_widths data _ Hne), Hsum.
    field. now apply TimelineFacts.length_nonzero.
Qed.

Lemma group_runs_witness :
  [{| PhaseTimeline.timestamp := 0; PhaseTimeline.resonance := 0.5;
      PhaseTimeline.phase := PhaseTimeline.Beginning;
      PhaseTimeline.emergenceScore := 0; PhaseTimeline.symbolDensity := 0 |};
   {| PhaseTimeline.timestamp := 1; PhaseTimeline.resonance := 0.7;
      PhaseTimeline.phase := PhaseTimeline.Climax;
      PhaseTimeline.emergenceScore := 0; PhaseTimeline.symbolDensity := 0 |}]
  <> []
  /\ exists segments,
       PhaseTimeline.group
         [{| PhaseTimeline.timestamp := 0; PhaseTimeline.resonance := 0.5;
             PhaseTimeline.phase := PhaseTimeline.Beginning;
             PhaseTimeline.emergenceScore := 0;
             PhaseTimeline.symbolDensity := 0 |};
          {| PhaseTimeline.timestamp := 1; PhaseTimeline.resonance := 0.7;
             PhaseTimeline.phase := PhaseTimeline.Climax;
             PhaseTimeline.emergenceScore := 0;
             PhaseTimeline.symbolDensity := 0 |}]
       = Normal segments
       /\ length segments = 2%nat.
Proof.
  split; [discriminate|].
  destruct (group_runs
              [{| PhaseTimeline.timestamp := 0; PhaseTimeline.resonance := 0.5;
                  PhaseTimeline.phase := PhaseTimeline.Beginning;
                  PhaseTimeline.emergenceScore := 0;
                  PhaseTimeline.symbolDensity := 0 |};
               {| PhaseTimeline.timestamp := 1; PhaseTimeline.resonance := 0.7;
                  PhaseTimeline.phase := PhaseTimeline.Climax;
                  PhaseTimeline.emergenceScore := 0;
                  PhaseTimeline.symbolDensity := 0 |}])
    as (segments & Hgroup & _).
  exists segments. split; [exact Hgroup|].
  cbn in Hgroup. injection Hgroup as <-. reflexivity.
Defined.

(** ** The voice recorder *)

Module VoiceFacts.
Import VoiceRecorder.

Lemma Qltb_false (a b : Q) : Qltb a b = false <-> b <= a.
Proof.
  unfold Qltb. rewrite negb_false_iff. apply Qle_bool_iff.
Qed.

Lemma Qltb_compat (a a' b b' : Q) :
  a == a' -> b == b' -> Qltb a b = Qltb a' b'.
Proof.
  intros Ha Hb. destruct (Qltb a' b') eqn:E.
  - apply Qltb_true in E. apply Qltb_true. now rewrite Ha, Hb.
  - apply Qltb_false in E. apply Qltb_false. now rewrite Ha, Hb.
Qed.

Lemma sum_from (data : list Q) (init : Q) :
  fold_left Qplus data init == init + sum data.
Proof.
  unfold sum. revert init. induction data as [|v data IH]; intros init.
  - cbn. lra.
  - cbn [fold_left]. rewrite (IH (init + v)), (IH (0 + v)). lra.
Qed.

Lemma sum_cons (v : Q) (data : list Q) : sum (v :: data) == v + sum data.
Proof. unfold sum at 1. cbn [fold_left]. rewrite sum_from. lra. Qed.

Lemma sum_nonneg (data : list Q) :
  Forall (fun v => 0 < v) data -> 0 <= sum data.
Proof.
  induction 1 as [|v data Hv _ IH]; [apply Qle_refl|].
  rewrite sum_cons. lra.
Qed.

Lemma sum_snoc (data : list Q) (v : Q) : sum (data ++ [v]) = sum data + v.
Proof. unfold sum. now rewrite fold_left_app. Qed.

Lemma max_from (others : list Q) (first : Q) :
  first <= Math_max first others
  /\ Forall (fun v => v <= Math_max first others) others.
Proof.
  unfold Math_max. revert first.
  induction others as [|v others IH]; intros first.
  - split; [apply Qle_refl | constructor].
  - cbn [fold_left]. destruct (IH (Qmax first v)) as [H1 H2].
    split; [|constructor; [|exact H2]].
    + eapply Qle_trans; [apply Q.le_max_l | exact H1].
    + eapply Qle_trans; [apply Q.le_max_r | exact H1].
Qed.

Lemma sum_le_bound (data : list Q) (bound : Q) :
  Forall (fun v => v <= bound) data -> sum data <= ofNat (length data) * bound.
Proof.
  induction 1 as [|v data Hv _ IH].
  - change (0 <= 0 * bound). lra.
  - rewrite sum_cons. cbn [length].
    pose proof (ofNat_add 1 (length data)) as E.
    change (1 + length data)%nat with (S (length data)) in E.
    rewrite E. change (ofNat 1) with 1. lra.
Qed.

Lemma average_le_peak (first : Q) (others : list Q) :
  sum (first :: others) / ofNat (length (first :: others))
  <= Math_max first others.
Proof.
  destruct (max_from others first) as [H1 H2].
  assert (Hpos : 0 < ofNat (length (first :: others))).
  { apply Qlt_le_trans with 1; [reflexivity|]. apply ofNat_pos. cbn. lia. }
  apply Qle_shift_div_r; [exact Hpos|].
  rewrite Qmult_comm. apply sum_le_bound. now constructor.
Qed.

Lemma Math_round_le (a b : Q) : a <= b -> Math_round a <= Math_round b.
Proof.
  intros H. unfold Math_round. rewrite <- Zle_Qle.
  apply Qfloor_resp_le. lra.
Qed.

Lemma Math_round_whole (x : Q) (z : Z) :
  x == inject_Z z -> Math_round x = inject_Z z.
Proof.
  intros H. unfold Math_round. f_equal.
  assert (E : x + 0.5 == inject_Z z + 0.5) by (rewrite H; reflexivity).
  rewrite (Qfloor_comp _ _ E).
  assert (Hlo : inject_Z z <= inject_Z z + 0.5) by lra.
  assert (Hhi : inject_Z z + 0.5 < inject_Z (z + 1)).
  { rewrite inject_Z_plus. change (inject_Z 1) with 1. lra. }
  apply Qfloor_resp_le in Hlo. rewrite Qfloor_Z in Hlo.
  pose proof (Qfloor_le (inject_Z z + 0.5)) as Hfl.
  assert (Hlt : inject_Z (Qfloor (inject_Z z + 0.5)) < inject_Z (z + 1))
    by (eapply Qle_lt_trans; [exact Hfl | exact Hhi]).
  rewrite <- Zlt_Qlt in Hlt. lia.
Qed.

Lemma timeStamp_monotone (count : nat) (duration0 : Q) (i j : nat) :
  0 <= duration0 -> (i <= j)%nat ->
  ofNat i / ofNat count * duration0 <= ofNat j / ofNat count * duration0.
Proof.
  intros Hd Hij. apply Qmult_le_compat_r; [|exact Hd].
  unfold Qdiv. apply Qmult_le_compat_r; [now apply ofNat_le|].
  apply Qinv_le_0_compat, ofNat_nonneg.
Qed.

Lemma timeStamp_increases (count : nat) (duration0 : Q) (i : nat) :
  0 < duration0 -> (0 < count)%nat ->
  ofNat i / ofNat count * duration0 < ofNat (S i) / ofNat count * duration0.
Proof.
  intros Hd Hc.
  assert (Hcount : 0 < ofNat count).
  { apply Qlt_le_trans with 1; [reflexivity|]. apply ofNat_pos. lia. }
  apply Qmult_lt_compat_r; [exact Hd|].
  unfold Qdiv. apply Qmult_lt_compat_r; [now apply Qinv_lt_0_compat|].
  unfold ofNat. rewrite <- Zlt_Qlt. lia.
Qed.

Lemma timeStamp_nonneg (count : nat) (duration0 : Q) (i : nat) :
  0 <= duration0 -> 0 <= ofNat i / ofNat count * duration0.
Proof.
  intros Hd. apply Qmult_le_0_compat; [|exact Hd].
  apply Qdiv_nonneg; apply ofNat_nonneg.
Qed.

Lemma Qeq_bool_minus_one (start : Q) :
  0 <= start -> Qeq_bool start (-1) = false.
Proof.
  intros H. destruct (Qeq_bool start (-1)) eqn:E; [|reflexivity].
  apply Qeq_bool_iff in E. lra.
Qed.

Lemma silenceStep_keeps (count : nat) (duration0 threshold : Q) (i : nat)
  (st : Silences) (volume : Q) :
  0 < duration0 -> (0 < count)%nat ->
  silencesBefore count duration0 i st ->
  silencesBefore count duration0 (S i)
                 (silenceStep count duration0 threshold st volume i).
Proof.
  intros Hd Hc [Hpos Hcase].
  pose proof (timeStamp_monotone count duration0 (i - 1) i
                ltac:(lra) ltac:(lia)) as Hmono.
  pose proof (timeStamp_nonneg count duration0 i ltac:(lra)) as Hnn.
  unfold silenceStep. cbv zeta. unfold silencesBefore.
  replace (S i - 1)%nat with i by lia.
  destruct Hcase as [[Hstart Hsum] | (Hi & Hstart & Hsum & Hbefore)].
  - assert (E : Qeq_bool (silenceStart st) (-1) = true)
      by now apply Qeq_bool_iff.
    rewrite E. cbn [negb andb]. rewrite !andb_false_r, !andb_true_r.
    destruct (Qltb volume threshold); cbn [periods silenceStart].
    + split; [exact Hpos|]. right.
      split; [lia|]. split; [exact Hnn|]. split; [lra | apply Qle_refl].
    + split; [exact Hpos|]. left. split; [exact Hstart | lra].
  - rewrite (Qeq_bool_minus_one _ Hstart). cbn [negb].
    rewrite !andb_false_r, !andb_true_r.
    destruct (Qltb volume threshold); cbn [negb periods silenceStart].
    + split; [exact Hpos|]. right.
      split; [lia|]. split; [exact Hstart|]. split; [exact Hsum | lra].
    + pose proof (timeStamp_increases count duration0 (i - 1) Hd Hc) as Hinc.
      replace (S (i - 1)) with i in Hinc by lia.
      split.
      * apply Forall_app. split; [exact Hpos|]. constructor; [lra|constructor].
      * left. split; [reflexivity|]. rewrite sum_snoc. lra.
Qed.

Lemma forEach_silences (count : nat) (duration0 threshold : Q)
  (volumes : list Q) :
  0 < duration0 -> (0 < count)%nat ->
  forall i st,
    silencesBefore count duration0 i st ->
    silencesBefore count duration0 (i + length volumes)
      (GlyphAnalyzer.forEachFrom (silenceStep count duration0 threshold)
                                 i volumes st).
Proof.
  intros Hd Hc. induction volumes as [|v volumes IH]; intros i st Hst.
  - cbn. now rewrite Nat.add_0_r.
  - cbn [GlyphAnalyzer.forEachFrom length].
    replace (i + S (length volumes))%nat with (S i + length volumes)%nat
      by lia.
    apply IH. now apply silenceStep_keeps.
Qed.

Lemma silences_total (count : nat) (duration0 : Q) (st : Silences) :
  0 < duration0 -> (0 < count)%nat ->
  silencesBefore count duration0 count st ->
  sum (periods st) <= ofNat (count - 1) / ofNat count * duration0
  /\ ofNat (count - 1) / ofNat count * duration0 < duration0.
Proof.
  intros Hd Hc [_ Hcase]. split.
  - destruct Hcase as [[_ H] | (_ & _ & H1 & H2)]; lra.
  - pose proof (timeStamp_increases count duration0 (count - 1) Hd Hc) as H.
    replace (S (count - 1)) with count in H by lia.
    assert (E : ofNat count / ofNat count * duration0 == duration0).
    { field. intros E0. pose proof (ofNat_pos count ltac:(lia)). lra. }
    lra.
Qed.

(** A loop over volumes none of which is under the threshold, with no
    silence open, finds none. *)
Lemma forEach_no_silence (count : nat) (duration0 threshold : Q)
  (volumes : list Q) :
  Forall (fun v => Qltb v threshold = false) volumes ->
  forall i,
    GlyphAnalyzer.forEachFrom (silenceStep count duration0 threshold) i
      volumes {| periods := []; silenceStart := -1 |}
    = {| periods := []; silenceStart := -1 |}.
Proof.
  induction 1 as [|v volumes Hv _ IH]; intros i; [reflexivity|].
  cbn [GlyphAnalyzer.forEachFrom]. unfold silenceStep at 2.
  cbv zeta. rewrite Hv. cbn [andb negb silenceStart].
  change (Qeq_bool (-1) (-1)) with true. cbn [negb andb]. apply IH.
Qed.

Lemma sum_repeat (c : Q) (n : nat) : sum (repeat c n) == ofNat n * c.
Proof.
  induction n as [|n IH].
  - change (0 == 0 * c). lra.
  - cbn [repeat]. rewrite sum_cons, IH.
    pose proof (ofNat_add 1 n) as E. change (1 + n)%nat with (S n) in E.
    rewrite E. change (ofNat 1) with 1. lra.
Qed.

Lemma average_repeat (c : Q) (n : nat) :
  sum (repeat c (S n)) / ofNat (length (repeat c (S n))) == c.
Proof.
  rewrite repeat_length, sum_repeat. field.
  intros E. pose proof (ofNat_pos (S n) ltac:(lia)). lra.
Qed.

Lemma max_repeat (c : Q) (n : nat) : Math_max c (repeat c n) == c.
Proof.
  unfold Math_max. induction n as [|n IH]; [reflexivity|].
  cbn [repeat fold_left].
  assert (E : fold_left Qmax (repeat c n) (Qmax c c)
              == fold_left Qmax (repeat c n) c).
  { assert (Hgen : forall a b, a == b ->
               fold_left Qmax (repeat c n) a == fold_left Qmax (repeat c n) b).
    { clear IH. induction n as [|n IHn]; intros a b Hab; [exact Hab|].
      cbn [repeat fold_left]. apply IHn. now rewrite Hab. }
    apply Hgen. apply Q.max_id. }
  now rewrite E.
Qed.

Lemma sum_zero (data : list Q) :
  Forall (fun v => v == 0) data -> sum data == 0.
Proof.
  induction 1 as [|v data Hv _ IH]; [reflexivity|].
  rewrite sum_cons, Hv, IH. reflexivity.
Qed.

Lemma variance_repeat (c : Q) (n : nat) :
  calculateVariance (repeat c (S n)) == 0.
Proof.
  unfold calculateVariance. cbv zeta.
  pose proof (average_repeat c n) as Havg.
  set (mean := sum (repeat c (S n)) / ofNat (length (repeat c (S n)))) in *.
  assert (Hzero : sum (map (fun value => (value - mean) ^ 2) (repeat c (S n)))
                  == 0).
  { apply sum_zero. apply Forall_map, Forall_forall. intros v Hv.
    apply repeat_spec in Hv. subst v. rewrite Havg. cbn. ring. }
  rewrite Hzero. unfold Qdiv. ring.
Qed.

End VoiceFacts.

(** X15. For a recording of positive duration with at least one volume
    sample: every silence period found is positive, the periods together
    are shorter than the duration, so that the speech rate is a number from
    0 to 150 words a minute, and the rounded average volume is at most the
    rounded peak. *)
Theorem analyzeVoiceData_bounds (volumeData : list Q) (duration0 : Q) :
  0 < duration0 -> volumeData <> [] ->
  let analysis := VoiceRecorder.analyzeVoiceData volumeData duration0 in
  Forall (fun period => 0 < period) (VoiceRecorder.silencePeriods analysis)
  /\ VoiceRecorder.sum (VoiceRecorder.silencePeriods analysis) < duration0
  /\ (exists rate,
        VoiceRecorder.speechRate analysis = Some rate /\ 0 <= rate <= 150)
  /\ VoiceRecorder.averageVolume analysis
     <= VoiceRecorder.peakVolume analysis.
Proof.
  intros Hd Hne. destruct volumeData as [|first others]; [congruence|].
  cbv zeta. unfold VoiceRecorder.analyzeVoiceData. cbv zeta.
  set (volumeData := first :: others).
  set (threshold := VoiceRecorder.sum volumeData
                    / ofNat (length volumeData) * 0.3).
  assert (Hc : (0 < length volumeData)%nat) by (cbn; lia).
  assert (Hstart : silencesBefore (length volumeData) duration0 0
                     {| VoiceRecorder.periods := [];
                        VoiceRecorder.silenceStart := -1 |}).
  { split; [constructor|]. left. split; [reflexivity|].
    cbn [VoiceRecorder.periods]. change (VoiceRecorder.sum []) with 0.
    change (ofNat (0 - 1)) with 0. unfold Qdiv. rewrite !Qmult_0_l.
    apply Qle_refl. }
  pose proof (VoiceFacts.forEach_silences (length volumeData) duration0
                threshold volumeData Hd Hc 0 _ Hstart) as Hend.
  cbn [Nat.add] in Hend.
  destruct (VoiceFacts.silences_total _ _ _ Hd Hc Hend) as [Hsum Hlt].
  destruct Hend as [Hpos _].
  set (silences := GlyphAnalyzer.forEachFrom _ 0 volumeData _) in *.
  cbn [VoiceRecorder.silencePeriods VoiceRecorder.speechRate
       VoiceRecorder.averageVolume VoiceRecorder.peakVolume].
  split; [exact Hpos|]. split; [lra|]. split.
  - assert (E : Qeq_bool duration0 0 = false).
    { destruct (Qeq_bool duration0 0) eqn:E; [|reflexivity].
      apply Qeq_bool_iff in E. lra. }
    rewrite E. eexists. split; [reflexivity|].
    set (total := VoiceRecorder.sum (VoiceRecorder.periods silences)) in *.
    assert (Htotal : 0 <= total).
    { apply VoiceFacts.sum_nonneg, Hpos. }
    assert (Hrate : (duration0 - total) * 2.5 / duration0 * 60
                    == 150 - 150 * total / duration0) by (field; lra).
    assert (Hfrac : 0 <= total / duration0 <= 1).
    { split.
      - apply Qle_shift_div_l; [exact Hd | lra].
      - apply Qle_shift_div_r; [exact Hd | lra]. }
    assert (Hbound : 0 <= (duration0 - total) * 2.5 / duration0 * 60 <= 150).
    { rewrite Hrate.
      assert (150 * total / duration0 == 150 * (total / duration0))
        as -> by (field; lra).
      split; lra. }
    split.
    + change 0 with (VoiceRecorder.Math_round 0).
      apply VoiceFacts.Math_round_le, Hbound.
    + change 150 with (VoiceRecorder.Math_round 150).
      apply VoiceFacts.Math_round_le, Hbound.
  - apply VoiceFacts.Math_round_le, VoiceFacts.average_le_peak.
Qed.

Lemma analyzeVoiceData_bounds_witness :
  0 < 3 /\ [10; 0; 50] <> []
  /\ VoiceRecorder.averageVolume (VoiceRecorder.analyzeVoiceData [10; 0; 50] 3)
     <= VoiceRecorder.peakVolume (VoiceRecorder.analyzeVoiceData [10; 0; 50] 3).
Proof.
  assert (Hd : 0 < 3) by reflexivity.
  assert (Hne : [10; 0; 50] <> (@nil Q)) by discriminate.
  split; [exact Hd|]. split; [exact Hne|].
  apply (analyzeVoiceData_bounds [10; 0; 50] 3 Hd Hne).
Defined.

(** X16. A recording whose samples all have one volume that is not negative
    has no silence period, whatever that volume: complete silence (volume
    0) is analysed like continuous speech, at 150 words a minute, with a
    tone that is [calm] under a volume of 30 and [neutral] from 30 on. *)
Theorem constant_volume_is_speech (c duration0 : Q) (n : nat) :
  0 <= c -> ~ duration0 == 0 ->
  let analysis :=
    VoiceRecorder.analyzeVoiceData (repeat c (S n)) duration0 in
  VoiceRecorder.silencePeriods analysis = []
  /\ VoiceRecorder.speechRate analysis = Some 150
  /\ VoiceRecorder.emotionalTone analysis
     = if Qltb c 30 then VoiceRecorder.Calm else VoiceRecorder.Neutral.
Proof.
  intros Hc Hd. cbv zeta.
  pose proof (VoiceFacts.average_repeat c n) as Havg.
  pose proof (VoiceFacts.variance_repeat c n) as Hvar.
  pose proof (VoiceFacts.max_repeat c n) as Hmax.
  unfold VoiceRecorder.analyzeVoiceData. cbn [repeat]. cbv zeta.
  change (c :: repeat c n) with (repeat c (S n)).
  set (avg := VoiceRecorder.sum (repeat c (S n))
              / ofNat (length (repeat c (S n)))) in *.
  rewrite (VoiceFacts.forEach_no_silence (length (repeat c (S n))) duration0
             (avg * 0.3) (repeat c (S n))).
  2:{ apply Forall_forall. intros v Hv. apply repeat_spec in Hv. subst v.
      apply VoiceFacts.Qltb_false. rewrite Havg. lra. }
  cbn [VoiceRecorder.silencePeriods VoiceRecorder.speechRate
       VoiceRecorder.emotionalTone VoiceRecorder.periods].
  split; [reflexivity|]. split.
  - assert (E : Qeq_bool duration0 0 = false).
    { destruct (Qeq_bool duration0 0) eqn:E; [|reflexivity].
      apply Qeq_bool_iff in E. contradiction. }
    rewrite E. f_equal. apply (VoiceFacts.Math_round_whole _ 150).
    unfold VoiceRecorder.sum. cbn [fold_left]. field. exact Hd.
  - unfold VoiceRecorder.determineEmotionalTone. cbv zeta.
    rewrite (VoiceFacts.Qltb_compat 500 500 _ 0 (Qeq_refl _) Hvar).
    rewrite (VoiceFacts.Qltb_compat 300 300 _ 0 (Qeq_refl _) Hvar).
    rewrite (VoiceFacts.Qltb_compat _ 0 100 100 Hvar (Qeq_refl _)).
    rewrite (VoiceFacts.Qltb_compat avg c 30 30 Havg (Qeq_refl _)).
    change (Qltb 500 0) with false. change (Qltb 300 0) with false.
    change (Qltb 0 100) with true. cbn [andb]. reflexivity.
Qed.

Lemma constant_volume_is_speech_witness :
  0 <= 0 /\ ~ 3 == 0
  /\ VoiceRecorder.speechRate
       (VoiceRecorder.analyzeVoiceData (repeat 0 (S 2)) 3) = Some 150.
Proof.
  assert (Hc : 0 <= 0) by discriminate.
  assert (Hd : ~ 3 == 0) by discriminate.
  split; [exact Hc|]. split; [exact Hd|].
  apply (constant_volume_is_speech 0 3 2 Hc Hd).
Defined.

(** ** The session store *)

Module SortFacts.

Section Sorting.
Context {A : Type} (key : A -> Z).

Lemma insertDesc_perm (x : A) (sorted : list A) :
  Permutation (insertDesc key x sorted) (x :: sorted).
Proof.
  induction sorted as [|y rest IH]; cbn [insertDesc]; [reflexivity|].
  destruct (key x <=? key y)%Z; [|reflexivity].
  rewrite IH. apply perm_swap.
Qed.

Lemma insertDesc_descending (x : A) (sorted : list A) :
  descending key sorted -> descending key (insertDesc key x sorted).
Proof.
  unfold descending. induction 1 as [|y rest Hrest IH Hy]; cbn [insertDesc].
  - constructor; constructor.
  - destruct (Z.leb_spec (key x) (key y)) as [Hle|Hgt].
    + constructor; [exact IH|].
      eapply Permutation_Forall; [symmetry; apply insertDesc_perm|].
      constructor; [exact Hle | exact Hy].
    + constructor; [constructor; assumption|].
      constructor; [lia|].
      eapply Forall_impl; [|exact Hy]. cbn. intros b Hb. lia.
Qed.

Lemma sortDesc_from (l sorted : list A) :
  descending key sorted ->
  Permutation (fold_left (fun sorted x => insertDesc key x sorted) l sorted)
              (sorted ++ l)
  /\ descending key
       (fold_left (fun sorted x => insertDesc key x sorted) l sorted).
Proof.
  revert sorted. induction l as [|x l IH]; intros sorted Hs.
  - cbn. rewrite app_nil_r. split; [reflexivity | exact Hs].
  - cbn [fold_left].
    destruct (IH _ (insertDesc_descending x sorted Hs)) as [Hp Hd].
    split; [|exact Hd]. rewrite Hp, insertDesc_perm.
    apply Permutation_cons_app. reflexivity.
Qed.

Lemma sortDesc_perm (l : list A) : Permutation (sortDesc key l) l.
Proof.
  apply (sortDesc_from l []). constructor.
Qed.

Lemma sortDesc_descending (l : list A) : descending key (sortDesc key l).
Proof.
  apply (sortDesc_from l []). constructor.
Qed.

Lemma sortDesc_length (l : list A) : length (sortDesc key l) = length l.
Proof. apply Permutation_length, sortDesc_perm. Qed.

Lemma descending_app (front back : list A) :
  descending key (front ++ back) ->
  descending key front
  /\ forall a b, In a front -> In b back -> (key b <= key a)%Z.
Proof.
  unfold descending. induction front as [|x front IH]; cbn [app]; intros H.
  - split; [constructor | intros a b []].
  - inversion H as [|? ? Hrest Hx]; subst.
    destruct (IH Hrest) as [Hf Hfb]. split.
    + constructor; [exact Hf|].
      apply Forall_app in Hx. apply Hx.
    + intros a b [<-|Ha] Hb.
      * apply Forall_app in Hx as [_ Hx].
        rewrite Forall_forall in Hx. now apply Hx.
      * now apply Hfb.
Qed.

(** The first [n] of a sorted list: sorted, and not under what is left. *)
Lemma firstn_descending (n : nat) (l : list A) :
  descending key l ->
  descending key (firstn n l)
  /\ forall a b, In a (firstn n l) -> In b (skipn n l) ->
                 (key b <= key a)%Z.
Proof.
  intros H. apply descending_app. now rewrite firstn_skipn.
Qed.

End Sorting.
End SortFacts.

Module SessionFacts.
Import SessionManager.

Lemma sameString_spec (a b : jsstring) : sameString a b = true <-> a = b.
Proof.
  unfold sameString. destruct (list_eq_dec N.eq_dec a b); split; congruence.
Qed.

Lemma sameString_refl (a : jsstring) : sameString a a = true.
Proof. now apply sameString_spec. Qed.

Lemma sameValue_spec (a b : option jsstring) : sameValue a b = true <-> a = b.
Proof.
  destruct a as [a|], b as [b|]; cbn; try (split; congruence).
  rewrite sameString_spec. split; congruence.
Qed.

Lemma keepCount_is_70 : Z.to_nat (Qfloor (ofNat MAX_ENTRIES * 0.7)) = 70%nat.
Proof. reflexivity. Qed.

(** What [saveSession] leaves of a session: all of it, or, when the quota is
    exceeded, all of it but the entries, cut down to the 70 newest. *)
Lemma saveSession_cases (m : t) :
  (outcomes (localStorage m) (attempts (localStorage m)) <> QuotaExceeded
   /\ currentSession (saveSession m) = currentSession m)
  \/ (outcomes (localStorage m) (attempts (localStorage m)) = QuotaExceeded
      /\ currentSession (saveSession m)
         = cleanupOldEntries (currentSession m)).
Proof.
  unfold saveSession, setItem. cbv zeta.
  destruct (outcomes (localStorage m) (attempts (localStorage m))) eqn:E;
    cbn; [left | right | left]; split; congruence.
Qed.

Lemma cleanupOldEntries_length (session : UserSession) :
  length (entries (cleanupOldEntries session))
  = Nat.min 70 (length (entries session)).
Proof.
  unfold cleanupOldEntries. cbv zeta. rewrite keepCount_is_70.
  cbn [entries setEntries].
  now rewrite length_firstn, SortFacts.sortDesc_length.
Qed.

Lemma saveSession_keeps (m : t) :
  (length (entries (currentSession (saveSession m)))
   <= length (entries (currentSession m)))%nat
  /\ totalAnalyses (currentSession (saveSession m))
     = totalAnalyses (currentSession m)
  /\ favoriteGlyphs (currentSession (saveSession m))
     = favoriteGlyphs (currentSession m)
  /\ preferences (currentSession (saveSession m))
     = preferences (currentSession m).
Proof.
  destruct (saveSession_cases m) as [[_ ->] | [_ ->]].
  - repeat split. lia.
  - rewrite cleanupOldEntries_length. repeat split. lia.
Qed.

Lemma removeFirst_some {A} (p : A -> bool) (l remaining : list A) :
  removeFirst p l = Some remaining ->
  exists before x after,
    l = before ++ x :: after /\ remaining = before ++ after
    /\ p x = true /\ Forall (fun y => p y = false) before.
Proof.
  revert remaining. induction l as [|y l IH]; intros remaining H;
    [discriminate|].
  cbn [removeFirst] in H. destruct (p y) eqn:Hy.
  - injection H as <-. exists [], y, l. repeat split; auto.
  - destruct (removeFirst p l) as [r|] eqn:Hr; [|discriminate].
    injection H as <-.
    destruct (IH r eq_refl) as (before & x & after & H1 & H2 & H3 & H4).
    exists (y :: before), x, after. subst. repeat split; auto.
Qed.

Lemma removeFirst_none {A} (p : A -> bool) (l : list A) :
  removeFirst p l = None <-> Forall (fun y => p y = false) l.
Proof.
  induction l as [|y l IH]; cbn [removeFirst].
  - split; [constructor | reflexivity].
  - destruct (p y) eqn:Hy.
    + split; [discriminate|]. intros H. inversion H; congruence.
    + destruct (removeFirst p l) as [r|]; cbn.
      * split; [discriminate|]. intros H. inversion H; subst.
        apply IH in H3. discriminate.
      * split; [|reflexivity]. intros _. constructor; [exact Hy|].
        now apply IH.
Qed.

Lemma find_split {A} (p : A -> bool) (l : list A) (x : A) :
  find p l = Some x ->
  exists before after,
    l = before ++ x :: after /\ p x = true
    /\ Forall (fun y => p y = false) before
    /\ removeFirst p l = Some (before ++ after).
Proof.
  induction l as [|y l IH]; intros H; [discriminate|].
  cbn [find] in H. cbn [removeFirst]. destruct (p y) eqn:Hy.
  - injection H as <-. exists [], l. repeat split; auto.
  - destruct (IH H) as (before & after & H1 & H2 & H3 & H4).
    exists (y :: before), after. subst. rewrite H4.
    repeat split; auto.
Qed.

Lemma find_none_removeFirst {A} (p : A -> bool) (l : list A) :
  find p l = None -> removeFirst p l = None.
Proof.
  intros H. apply removeFirst_none. apply Forall_forall. intros y Hy.
  destruct (p y) eqn:E; [|reflexivity].
  now rewrite (find_none _ _ H y Hy) in E.
Qed.

End SessionFacts.

(** X17. [addEntry] returns the entry it made, with the given identifier
    and time and with the glyph shape among its tags, counts one more
    analysis and leaves at most 100 entries, whatever the session held
    before. Unless the write to the storage exceeds the quota, the entries
    are the new one followed by the former ones, cut after 100, and
    [getEntry] finds the new entry under its identifier; without
    [saveHistory] the storage is not touched. *)
Theorem addEntry_caps_history (newId : jsstring) (now : Z)
  (inputType0 : SessionManager.InputType) (inputData0 : jsstring)
  (analysis0 : ResonanceAnalysis)
  (voiceAnalysis0 : option VoiceRecorder.VoiceAnalysis)
  (glyphSnapshot0 : option jsstring) (m : SessionManager.t) :
  let result :=
    SessionManager.addEntry newId now inputType0 inputData0 analysis0
      voiceAnalysis0 glyphSnapshot0 m in
  let entry := fst result in
  let session := SessionManager.currentSession (snd result) in
  let before := SessionManager.currentSession m in
  SessionManager.id entry = newId
  /\ SessionManager.timestamp entry = now
  /\ In (shape (glyphData analysis0)) (SessionManager.tags entry)
  /\ SessionManager.totalAnalyses session
     = (SessionManager.totalAnalyses before + 1)%Z
  /\ (length (SessionManager.entries session) <= 100)%nat
  /\ (SessionManager.saveHistory (SessionManager.preferences before) = false
      \/ SessionManager.outcomes (SessionManager.localStorage m)
           (SessionManager.attempts (SessionManager.localStorage m))
         <> SessionManager.QuotaExceeded ->
      SessionManager.entries session
      = firstn 100 (entry :: SessionManager.entries before)
      /\ SessionManager.getEntry newId (snd result) = Some entry)
  /\ (SessionManager.saveHistory (SessionManager.preferences before) = false ->
      SessionManager.localStorage (snd result)
      = SessionManager.localStorage m).
Proof.
  cbv zeta. unfold SessionManager.addEntry. cbv zeta.
  set (entry := {| SessionManager.id := newId;
                   SessionManager.timestamp := now;
                   SessionManager.inputType := inputType0;
                   SessionManager.inputData := inputData0;
                   SessionManager.analysis := analysis0;
                   SessionManager.voiceAnalysis := voiceAnalysis0;
                   SessionManager.glyphSnapshot := glyphSnapshot0;
                   SessionManager.tags :=
                     SessionManager.generateTags analysis0;
                   SessionManager.notes := [] |}).
  set (before := SessionManager.currentSession m).
  set (unshifted := entry :: SessionManager.entries before).
  set (limited := if (SessionManager.MAX_ENTRIES <? length unshifted)%nat
                  then firstn SessionManager.MAX_ENTRIES unshifted
                  else unshifted).
  assert (Hlimited : limited = firstn 100 unshifted).
  { unfold limited, SessionManager.MAX_ENTRIES.
    destruct (Nat.ltb_spec 100 (length unshifted)) as [_|Hle];
      [reflexivity|]. symmetry. now apply firstn_all2. }
  assert (Hlen : (length limited <= 100)%nat)
    by (rewrite Hlimited, length_firstn; lia).
  set (session := {| SessionManager.sessionId := _;
                     SessionManager.entries := limited |}).
  set (m1 := {| SessionManager.currentSession := session;
                SessionManager.localStorage :=
                  SessionManager.localStorage m |}).
  cbn [fst snd SessionManager.preferences].
  change (SessionManager.preferences session)
    with (SessionManager.preferences before).
  assert (Hfound : SessionManager.getEntry newId m1 = Some entry).
  { unfold SessionManager.getEntry. cbn [SessionManager.currentSession m1
      SessionManager.entries session]. rewrite Hlimited.
    unfold unshifted. cbn [firstn find SessionManager.id entry].
    now rewrite SessionFacts.sameString_refl. }
  split; [reflexivity|]. split; [reflexivity|]. split.
  { cbn [SessionManager.tags entry]. unfold SessionManager.generateTags.
    rewrite !in_app_iff. do 4 right. left. now left. }
  destruct (SessionManager.saveHistory (SessionManager.preferences before))
    eqn:Hsave.
  - destruct (SessionFacts.saveSession_keeps m1) as (H1 & H2 & _).
    split; [rewrite H2; reflexivity|].
    split; [cbn [SessionManager.currentSession m1 SessionManager.entries
                 session] in H1; lia|].
    split; [|discriminate].
    intros [Hno|Hquota]; [discriminate|].
    destruct (SessionFacts.saveSession_cases m1) as [[_ E] | [E _]];
      [|contradiction].
    unfold SessionManager.getEntry in *. rewrite E.
    split; [exact Hlimited | exact Hfound].
  - split; [reflexivity|]. split; [exact Hlen|].
    split; [intros _; split; [exact Hlimited | exact Hfound]|].
    reflexivity.
Qed.

Lemma addEntry_caps_history_witness :
  SessionManager.outcomes
    (SessionManager.localStorage
       (newManager (lit "session_1") 0 (fun _ => SessionManager.Stored))) 0
  <> SessionManager.QuotaExceeded
  /\ SessionManager.getEntry (lit "entry_1")
       (snd (SessionManager.addEntry (lit "entry_1") 5 SessionManager.Text
               (lit "hello") GlyphAnalyzer.getDefaultAnalysis None None
               (newManager (lit "session_1") 0
                  (fun _ => SessionManager.Stored))))
     = Some (fst (SessionManager.addEntry (lit "entry_1") 5
                    SessionManager.Text (lit "hello")
                    GlyphAnalyzer.getDefaultAnalysis None None
                    (newManager (lit "session_1") 0
                       (fun _ => SessionManager.Stored)))).
Proof.
  assert (Hout : SessionManager.outcomes
                   (SessionManager.localStorage
                      (newManager (lit "session_1") 0
                         (fun _ => SessionManager.Stored))) 0
                 <> SessionManager.QuotaExceeded) by discriminate.
  split; [exact Hout|].
  destruct (addEntry_caps_history (lit "entry_1") 5 SessionManager.Text
              (lit "hello") GlyphAnalyzer.getDefaultAnalysis None None
              (newManager (lit "session_1") 0
                 (fun _ => SessionManager.Stored)))
    as (_ & _ & _ & _ & _ & Hkept & _).
  apply Hkept. right. exact Hout.
Defined.



(** X19. [deleteEntry] removes the first entry that has the identifier, and
    only that one: when [getEntry] finds nothing under the identifier it
    returns [false] and changes nothing, storage included; when [getEntry]
    finds an entry, it returns [true] and saves the session without that
    entry, the others keeping their order, so that entries further down
    with the same identifier stay. *)
Theorem deleteEntry_first_match (id0 : jsstring) (m : SessionManager.t) :
  (SessionManager.getEntry id0 m = None ->
   SessionManager.deleteEntry id0 m = (false, m))
  /\ (forall found,
        SessionManager.getEntry id0 m = Some found ->
        exists before after,
          SessionManager.entries (SessionManager.currentSession m)
          = before ++ found :: after
          /\ SessionManager.id found = id0
          /\ Forall (fun entry => SessionManager.id entry <> id0) before
          /\ SessionManager.deleteEntry id0 m
             = (true,
                SessionManager.saveSession
                  {| SessionManager.currentSession :=
                       SessionManager.setEntries
                         (SessionManager.currentSession m) (before ++ after);
                     SessionManager.localStorage :=
                       SessionManager.localStorage m |})).
Proof.
  unfold SessionManager.getEntry, SessionManager.deleteEntry. split.
  - intros Hnone.
    now rewrite (SessionFacts.find_none_removeFirst _ _ Hnone).
  - intros found Hfound.
    destruct (SessionFacts.find_split _ _ _ Hfound)
      as (before & after & Hsplit & Hid & Hbefore & Hremove).
    exists before, after. rewrite Hremove.
    split; [exact Hsplit|].
    split; [now apply SessionFacts.sameString_spec|].
    split; [|reflexivity].
    eapply Forall_impl; [|exact Hbefore]. cbn. intros entry Hentry Heq.
    apply SessionFacts.sameString_spec in Heq. congruence.
Qed.

Lemma deleteEntry_first_match_witness :
  SessionManager.getEntry (lit "entry_1")
    (snd (SessionManager.addEntry (lit "entry_1") 5 SessionManager.Text
            (lit "hello") GlyphAnalyzer.getDefaultAnalysis None None
            (newManager (lit "session_1") 0
               (fun _ => SessionManager.Stored))))
  <> None
  /\ fst (SessionManager.deleteEntry (lit "entry_1")
            (snd (SessionManager.addEntry (lit "entry_1") 5
                    SessionManager.Text (lit "hello")
                    GlyphAnalyzer.getDefaultAnalysis None None
                    (newManager (lit "session_1") 0
                       (fun _ => SessionManager.Stored)))))
     = true.
Proof.
  set (m := snd (SessionManager.addEntry (lit "entry_1") 5
                   SessionManager.Text (lit "hello")
                   GlyphAnalyzer.getDefaultAnalysis None None
                   (newManager (lit "session_1") 0
                      (fun _ => SessionManager.Stored)))).
  destruct (SessionManager.getEntry (lit "entry_1") m) as [found|] eqn:Hfound;
    [|discriminate Hfound].
  split; [discriminate|].
  destruct (deleteEntry_first_match (lit "entry_1") m) as [_ Hdelete].
  destruct (Hdelete found Hfound) as (before & after & _ & _ & _ & ->).
  reflexivity.
Defined.

Module HistoryFacts.
Import SessionManager.

(** Removing the first element equal to [g] from a list without duplicates
    removes [g]. *)
Lemma removeFirst_same (g : jsstring) (l remaining : list jsstring) :
  NoDup l -> removeFirst (sameString g) l = Some remaining ->
  NoDup remaining /\ ~ In g remaining
  /\ forall x, In x remaining -> In x l.
Proof.
  intros Hnd Hremove.
  destruct (SessionFacts.removeFirst_some _ l remaining Hremove)
    as (before & x & after & -> & -> & Hx & Hbefore).
  apply SessionFacts.sameString_spec in Hx. subst x.
  split; [now apply NoDup_remove_1 in Hnd|].
  split; [now apply NoDup_remove_2 in Hnd|].
  intros x. rewrite !in_app_iff. cbn [In]. tauto.
Qed.

Lemma existsb_sameString (g : jsstring) (l : list jsstring) :
  existsb (sameString g) l = true <-> In g l.
Proof.
  rewrite existsb_exists. split.
  - intros (x & Hx & Heq). apply SessionFacts.sameString_spec in Heq.
    now subst.
  - intros H. exists g. split; [exact H | apply SessionFacts.sameString_refl].
Qed.

Lemma removeFirst_append (g : jsstring) (l : list jsstring) :
  ~ In g l -> removeFirst (sameString g) (l ++ [g]) = Some l.
Proof.
  induction l as [|x l IH]; intros Hnot; cbn [app removeFirst].
  - now rewrite SessionFacts.sameString_refl.
  - destruct (sameString g x) eqn:E.
    + apply SessionFacts.sameString_spec in E. subst. exfalso.
      apply Hnot. now left.
    + rewrite IH; [reflexivity|]. intros H. apply Hnot. now right.
Qed.

Lemma removeFirst_length {A} (p : A -> bool) (l remaining : list A) :
  removeFirst p l = Some remaining -> length l = S (length remaining).
Proof.
  intros H. destruct (SessionFacts.removeFirst_some p l remaining H)
    as (before & x & after & -> & -> & _).
  rewrite !length_app. cbn. lia.
Qed.

Lemma addEntry_counts (newId : jsstring) (now : Z) (inputType0 : InputType)
  (inputData0 : jsstring) (analysis0 : ResonanceAnalysis)
  (voiceAnalysis0 : option VoiceRecorder.VoiceAnalysis)
  (glyphSnapshot0 : option jsstring) (m : t) :
  let session :=
    currentSession (snd (addEntry newId now inputType0 inputData0 analysis0
                           voiceAnalysis0 glyphSnapshot0 m)) in
  favoriteGlyphs session = favoriteGlyphs (currentSession m)
  /\ totalAnalyses session = (totalAnalyses (currentSession m) + 1)%Z
  /\ (length (entries session)
      <= Nat.min 100 (S (length (entries (currentSession m)))))%nat.
Proof.
  cbv zeta. unfold addEntry. cbv zeta.
  set (entry := {| id := newId; timestamp := now |}).
  set (before := currentSession m).
  set (unshifted := entry :: entries before).
  set (limited := if (MAX_ENTRIES <? length unshifted)%nat
                  then firstn MAX_ENTRIES unshifted else unshifted).
  assert (Hlen : (length limited
                  <= Nat.min 100 (S (length (entries before))))%nat).
  { unfold limited, MAX_ENTRIES.
    destruct (Nat.ltb_spec 100 (length unshifted)) as [H|H].
    - rewrite length_firstn. unfold unshifted in *. cbn [length] in *. lia.
    - unfold unshifted in *. cbn [length] in *. lia. }
  set (session := {| sessionId := _; entries := limited |}).
  set (m1 := {| currentSession := session; localStorage := localStorage m |}).
  cbn [fst snd preferences].
  change (preferences session) with (preferences before).
  destruct (saveHistory (preferences before)).
  - destruct (SessionFacts.saveSession_keeps m1) as (H1 & H2 & H3 & _).
    rewrite H2, H3. split; [reflexivity|]. split; [reflexivity|].
    cbn [currentSession m1 entries session] in H1. lia.
  - split; [reflexivity|]. split; [reflexivity | exact Hlen].
Qed.

(** How a call changes what a run keeps count of. *)
Lemma sessionStep_counts (m : t) (call : SessionCall) :
  NoDup (favoriteGlyphs (currentSession m)) ->
  NoDup (favoriteGlyphs (currentSession (sessionStep m call)))
  /\ totalAnalyses (currentSession (sessionStep m call))
     = (totalAnalyses (currentSession m) + Z.of_nat (additions [call]))%Z
  /\ (length (entries (currentSession (sessionStep m call)))
      <= length (entries (currentSession m)) + additions [call])%nat
  /\ ((length (entries (currentSession m)) <= 100)%nat ->
      (length (entries (currentSession (sessionStep m call))) <= 100)%nat).
Proof.
  intros Hnd.
  destruct call as [newId now inputType0 inputData0 analysis0 voiceAnalysis0
                    glyphSnapshot0 | id0 | g | g]; cbn [sessionStep].
  - change (additions [AddEntry newId now inputType0 inputData0 analysis0
                         voiceAnalysis0 glyphSnapshot0]) with 1%nat.
    destruct (addEntry_counts newId now inputType0 inputData0 analysis0
                voiceAnalysis0 glyphSnapshot0 m) as (H1 & H2 & H3).
    rewrite H1, H2. split; [exact Hnd|]. split; [reflexivity|]. lia.
  - change (additions [DeleteEntry id0]) with 0%nat.
    unfold deleteEntry.
    destruct (removeFirst _ (entries (currentSession m))) as [remaining|]
      eqn:Hremove; cbn [snd].
    + apply removeFirst_length in Hremove.
      destruct (SessionFacts.saveSession_keeps
                  {| currentSession := setEntries (currentSession m) remaining;
                     localStorage := localStorage m |}) as (H1 & H2 & H3 & _).
      rewrite H2, H3.
      cbn [currentSession favoriteGlyphs totalAnalyses entries setEntries]
        in *.
      split; [exact Hnd|]. split; lia.
    + split; [exact Hnd|]. split; lia.
  - change (additions [AddToFavorites g]) with 0%nat.
    unfold addToFavorites.
    destruct (existsb (sameString g) (favoriteGlyphs (currentSession m)))
      eqn:Hin.
    + split; [exact Hnd|]. split; lia.
    + destruct (SessionFacts.saveSession_keeps
                  {| currentSession :=
                       setFavorites (currentSession m)
                         (favoriteGlyphs (currentSession m) ++ [g]);
                     localStorage := localStorage m |}) as (H1 & H2 & H3 & _).
      rewrite H2, H3.
      cbn [currentSession favoriteGlyphs totalAnalyses entries setFavorites]
        in *.
      split; [|split; lia].
      apply NoDup_app; [exact Hnd | repeat constructor; intros [] |].
      intros x Hx [<-|[]].
      apply existsb_sameString in Hx. congruence.
  - change (additions [RemoveFromFavorites g]) with 0%nat.
    unfold removeFromFavorites.
    destruct (removeFirst _ (favoriteGlyphs (currentSession m)))
      as [remaining|] eqn:Hremove.
    + destruct (removeFirst_same g _ _ Hnd Hremove) as (Hnd' & _).
      destruct (SessionFacts.saveSession_keeps
                  {| currentSession :=
                       setFavorites (currentSession m) remaining;
                     localStorage := localStorage m |}) as (H1 & H2 & H3 & _).
      rewrite H2, H3.
      cbn [currentSession favoriteGlyphs totalAnalyses entries setFavorites]
        in *.
      split; [exact Hnd'|]. split; lia.
    + split; [exact Hnd|]. split; lia.
Qed.

Lemma additions_snoc (calls : list SessionCall) (call : SessionCall) :
  additions (calls ++ [call]) = (additions calls + additions [call])%nat.
Proof. unfold additions. now rewrite filter_app, length_app. Qed.

End HistoryFacts.

(** X20. Through every run of [addEntry], [deleteEntry], [addToFavorites]
    and [removeFromFavorites] on a new session, whatever the storage does:
    [totalAnalyses] is the number of calls of [addEntry] (deleting an entry
    does not lower it), the session holds at most 100 entries and at most
    as many as were added, and no favourite is listed twice. *)
Theorem session_run_counts (newId : jsstring) (now : Z)
  (outcomes0 : nat -> SessionManager.Outcome) (calls : list SessionCall) :
  let session :=
    SessionManager.currentSession
      (fold_left sessionStep calls (newManager newId now outcomes0)) in
  SessionManager.totalAnalyses session = Z.of_nat (additions calls)
  /\ (length (SessionManager.entries session)
      <= Nat.min 100 (additions calls))%nat
  /\ NoDup (SessionManager.favoriteGlyphs session).
Proof.
  cbv zeta. induction calls as [|call calls IH] using rev_ind.
  - cbn. repeat split; [lia | constructor].
  - rewrite fold_left_app. cbn [fold_left].
    destruct IH as (Htotal & Hlen & Hnd).
    destruct (HistoryFacts.sessionStep_counts
                (fold_left sessionStep calls (newManager newId now outcomes0))
                call Hnd) as (Hnd' & Htotal' & Hlen' & Hcap).
    rewrite HistoryFacts.additions_snoc.
    split; [rewrite Htotal', Htotal; lia|].
    split; [|exact Hnd'].
    specialize (Hcap ltac:(lia)). lia.
Qed.

(** X21. Favourites are a set kept in the order of arrival:
    [addToFavorites] of a listed snapshot changes nothing, storage
    included; of one that is not listed, it lists it last, and
    [removeFromFavorites] right after gives the former list back; and after
    [removeFromFavorites] a snapshot is not listed, if none was listed
    twice. *)
Theorem favorites_round_trip (g : jsstring) (m : SessionManager.t) :
  (In g (SessionManager.favoriteGlyphs (SessionManager.currentSession m)) ->
   SessionManager.addToFavorites g m = m)
  /\ (~ In g (SessionManager.favoriteGlyphs
                (SessionManager.currentSession m)) ->
      SessionManager.favoriteGlyphs
        (SessionManager.currentSession (SessionManager.addToFavorites g m))
      = SessionManager.favoriteGlyphs (SessionManager.currentSession m)
        ++ [g]
      /\ SessionManager.favoriteGlyphs
           (SessionManager.currentSession
              (SessionManager.removeFromFavorites g
                 (SessionManager.addToFavorites g m)))
         = SessionManager.favoriteGlyphs (SessionManager.currentSession m))
  /\ (NoDup (SessionManager.favoriteGlyphs
               (SessionManager.currentSession m)) ->
      ~ In g (SessionManager.favoriteGlyphs
                (SessionManager.currentSession
                   (SessionManager.removeFromFavorites g m)))).
Proof.
  split; [|split].
  - intros Hin. unfold SessionManager.addToFavorites.
    apply HistoryFacts.existsb_sameString in Hin. now rewrite Hin.
  - intros Hnot.
    assert (Hadd : SessionManager.favoriteGlyphs
                     (SessionManager.currentSession
                        (SessionManager.addToFavorites g m))
                   = SessionManager.favoriteGlyphs
                       (SessionManager.currentSession m) ++ [g]).
    { unfold SessionManager.addToFavorites.
      destruct (existsb _ _) eqn:E;
        [apply HistoryFacts.existsb_sameString in E; contradiction|].
      match goal with |- context [SessionManager.saveSession ?x] =>
        destruct (SessionFacts.saveSession_keeps x) as (_ & _ & H3 & _)
      end.
      now rewrite H3. }
    split; [exact Hadd|].
    unfold SessionManager.removeFromFavorites. rewrite Hadd.
    rewrite (HistoryFacts.removeFirst_append g _ Hnot).
    match goal with |- context [SessionManager.saveSession ?x] =>
      destruct (SessionFacts.saveSession_keeps x) as (_ & _ & H3 & _)
    end.
    now rewrite H3.
  - intros Hnd. unfold SessionManager.removeFromFavorites.
    destruct (SessionManager.removeFirst _ _) as [remaining|] eqn:Hremove.
    + destruct (HistoryFacts.removeFirst_same g _ _ Hnd Hremove)
        as (_ & Hnot & _).
      match goal with |- context [SessionManager.saveSession ?x] =>
        destruct (SessionFacts.saveSession_keeps x) as (_ & _ & H3 & _)
      end.
      now rewrite H3.
    + apply SessionFacts.removeFirst_none in Hremove.
      rewrite Forall_forall in Hremove. intros Hin.
      specialize (Hremove g Hin).
      now rewrite SessionFacts.sameString_refl in Hremove.
Qed.

Lemma favorites_round_trip_witness :
  ~ In (lit "data:image/png;base64,AAAA")
       (SessionManager.favoriteGlyphs
          (SessionManager.currentSession
             (newManager (lit "session_1") 0
                (fun _ => SessionManager.Stored))))
  /\ SessionManager.favoriteGlyphs
       (SessionManager.currentSession
          (SessionManager.addToFavorites (lit "data:image/png;base64,AAAA")
             (newManager (lit "session_1") 0
                (fun _ => SessionManager.Stored))))
     = [] ++ [lit "data:image/png;base64,AAAA"].
Proof.
  assert (Hnot : ~ In (lit "data:image/png;base64,AAAA")
                      (SessionManager.favoriteGlyphs
                         (SessionManager.currentSession
                            (newManager (lit "session_1") 0
                               (fun _ => SessionManager.Stored)))))
    by (intros []).
  split; [exact Hnot|].
  destruct (favorites_round_trip (lit "data:image/png;base64,AAAA")
              (newManager (lit "session_1") 0
                 (fun _ => SessionManager.Stored)))
    as (_ & Hadd & _).
  destruct (Hadd Hnot) as [Hlisted _]. exact Hlisted.
Defined.

Module CountFacts.

Lemma countOf_bump (counts : list (option jsstring * Z))
  (key k : option jsstring) :
  countOf (bump counts key) k
  = (countOf counts k + if sameValue key k then 1 else 0)%Z.
Proof.
  unfold countOf. induction counts as [|[k0 c] counts IH]; cbn [bump find fst].
  - destruct (sameValue key k); reflexivity.
  - destruct (sameValue k0 key) eqn:Hkey; cbn [find fst].
    + apply SessionFacts.sameValue_spec in Hkey. subst k0.
      destruct (sameValue key k); [reflexivity | lia].
    + destruct (sameValue k0 k) eqn:Hk; [|exact IH].
      apply SessionFacts.sameValue_spec in Hk. subst k0.
      destruct (sameValue key k) eqn:E; [|lia].
      apply SessionFacts.sameValue_spec in E. subst key.
      assert (sameValue k k = true) by now apply SessionFacts.sameValue_spec.
      congruence.
Qed.

Lemma bump_keys (counts : list (option jsstring * Z)) (key : option jsstring) :
  (forall k, In k (map fst (bump counts key))
             <-> k = key \/ In k (map fst counts))
  /\ (NoDup (map fst counts) -> NoDup (map fst (bump counts key)))
  /\ (Forall (fun entry => (1 <= snd entry)%Z) counts ->
      Forall (fun entry => (1 <= snd entry)%Z) (bump counts key))
  /\ fold_right Z.add 0%Z (map snd (bump counts key))
     = (fold_right Z.add 0%Z (map snd counts) + 1)%Z.
Proof.
  induction counts as [|[k0 c] counts (IHin & IHnd & IHpos & IHsum)];
    cbn [bump].
  - cbn [map fst snd fold_right In]. split; [|split; [|split]].
    + intros k. split; [intros [H|[]]; now left | intros [H|[]]; now left].
    + intros _. constructor; [intros [] | constructor].
    + intros _. constructor; [cbn; lia | constructor].
    + reflexivity.
  - destruct (sameValue k0 key) eqn:Hkey.
    + apply SessionFacts.sameValue_spec in Hkey. subst k0.
      cbn [map fst snd fold_right In]. split; [|split; [|split]].
      * intros k. split; [intros [H|H]; [now left | now right; right]|].
        intros [H|[H|H]]; [now left | now left | now right].
      * intros H. exact H.
      * intros H. inversion H; subst. constructor; [cbn in *; lia|assumption].
      * lia.
    + cbn [map fst snd fold_right In]. split; [|split; [|split]].
      * intros k. rewrite IHin. tauto.
      * intros H. inversion H as [|? ? Hnot Hrest]; subst.
        constructor; [|now apply IHnd].
        rewrite IHin. intros [->|Hin]; [|contradiction].
        assert (sameValue key key = true)
          by now apply SessionFacts.sameValue_spec.
        congruence.
      * intros H. inversion H; subst. constructor; [assumption|].
        now apply IHpos.
      * rewrite IHsum. lia.
Qed.

(** A counter filled from a list of keys. *)
Lemma counted (keys : list (option jsstring)) :
  forall counts,
    NoDup (map fst counts) ->
    Forall (fun entry => (1 <= snd entry)%Z) counts ->
    let result := fold_left bump keys counts in
    NoDup (map fst result)
    /\ Forall (fun entry => (1 <= snd entry)%Z) result
    /\ fold_right Z.add 0%Z (map snd result)
       = (fold_right Z.add 0%Z (map snd counts) + Z.of_nat (length keys))%Z
    /\ (forall k, countOf result k
                  = (countOf counts k
                     + Z.of_nat (length (filter (fun key => sameValue key k)
                                                keys)))%Z)
    /\ (forall k, In k keys -> In k (map fst result)).
Proof.
  induction keys as [|key keys IH]; intros counts Hnd Hpos; cbv zeta.
  - cbn [fold_left length filter flat_map]. split; [exact Hnd|].
    split; [exact Hpos|]. split; [cbn; lia|].
    split; [intros k; cbn; lia | intros k []].
  - cbn [fold_left].
    destruct (bump_keys counts key) as (Hin & Hnd' & Hpos' & Hsum).
    destruct (IH (bump counts key) (Hnd' Hnd) (Hpos' Hpos))
      as (H1 & H2 & H3 & H4 & H5).
    split; [exact H1|]. split; [exact H2|]. split; [|split].
    + rewrite H3, Hsum. cbn [length]. lia.
    + intros k. rewrite H4, countOf_bump. cbn [filter].
      destruct (sameValue key k); cbn [length]; lia.
    + intros k [<-|Hk]; [|now apply H5].
      assert (Hkeep : forall keys counts k,
                 In k (map fst counts) ->
                 In k (map fst (fold_left bump keys counts))).
      { clear. induction keys as [|key keys IH]; intros counts k Hk;
          [exact Hk|].
        cbn [fold_left]. apply IH. apply bump_keys. now right. }
      apply Hkeep. apply Hin. now left.
Qed.

Lemma countOf_in (counts : list (option jsstring * Z)) (k : option jsstring)
  (c : Z) :
  NoDup (map fst counts) -> In (k, c) counts -> countOf counts k = c.
Proof.
  unfold countOf. induction counts as [|[k0 c0] counts IH]; intros Hnd Hin;
    [contradiction|].
  cbn [map fst] in Hnd. inversion Hnd as [|? ? Hnot Hrest]; subst.
  cbn [find fst]. destruct Hin as [Heq|Hin].
  - injection Heq as -> ->.
    assert (sameValue k k = true) as ->
      by now apply SessionFacts.sameValue_spec.
    reflexivity.
  - destruct (sameValue k0 k) eqn:E; [|now apply IH].
    apply SessionFacts.sameValue_spec in E. subst k0. exfalso. apply Hnot.
    apply in_map_iff. now exists (k, c).
Qed.

Lemma sum_perm (l l' : list Z) :
  Permutation l l' -> fold_right Z.add 0%Z l = fold_right Z.add 0%Z l'.
Proof.
  induction 1; cbn [fold_right]; lia.
Qed.

Lemma tags_flat {A} (keysOf : A -> list (option jsstring)) (l : list A) :
  forall counts,
    fold_left (fun counts entry => fold_left bump (keysOf entry) counts)
              l counts
    = fold_left bump (flat_map keysOf l) counts.
Proof.
  induction l as [|a l IH]; intros counts; [reflexivity|].
  cbn [fold_left flat_map]. now rewrite fold_left_app, IH.
Qed.

Lemma shapes_flat {A} (keyOf : A -> option jsstring) (l : list A) :
  forall counts,
    fold_left (fun counts entry => bump counts (keyOf entry)) l counts
    = fold_left bump (map keyOf l) counts.
Proof.
  induction l as [|a l IH]; intros counts; [reflexivity|].
  cbn [fold_left map]. apply IH.
Qed.

(** A counter, sorted by count: what a line of it says. *)
Lemma sorted_counter (keys : list (option jsstring)) :
  let table := sortDesc snd (fold_left bump keys []) in
  NoDup (map fst table)
  /\ descending snd table
  /\ fold_right Z.add 0%Z (map snd table) = Z.of_nat (length keys)
  /\ (forall k, In k keys -> In k (map fst table))
  /\ (forall k c, In (k, c) table ->
        (1 <= c)%Z
        /\ c = Z.of_nat (length (filter (fun key => sameValue key k) keys))).
Proof.
  cbv zeta.
  destruct (counted keys [] (NoDup_nil _) (Forall_nil _))
    as (Hnd & Hpos & Hsum & Hcount & Hin).
  pose proof (SortFacts.sortDesc_perm snd (fold_left bump keys [])) as Hperm.
  split; [|split; [|split; [|split]]].
  - eapply Permutation_NoDup; [|exact Hnd].
    apply Permutation_map. now symmetry.
  - apply SortFacts.sortDesc_descending.
  - rewrite (sum_perm _ _ (Permutation_map snd Hperm)), Hsum. cbn. lia.
  - intros k Hk. eapply Permutation_in; [|apply (Hin k Hk)].
    apply Permutation_map. now symmetry.
  - intros k c Hkc.
    assert (Hkc' : In (k, c) (fold_left bump keys []))
      by (eapply Permutation_in; [exact Hperm | exact Hkc]).
    split.
    + rewrite Forall_forall in Hpos. apply (Hpos (k, c) Hkc').
    + rewrite <- (countOf_in _ k c Hnd Hkc'), Hcount. cbn. lia.
Qed.

End CountFacts.

(** X22. The statistics of a session count it faithfully. The shape
    distribution has one line for each glyph shape that occurs among the
    entries, with the number of entries of that shape, in descending order
    of that number, and its numbers add up to the number of entries. The
    top tags are at most 10 lines, in descending order of their counts, and
    each count is the number of times the tag occurs in the tags of all
    entries. *)
Theorem sessionStats_counts (now : Z) (m : SessionManager.t) :
  let stats := SessionManager.getSessionStats now m in
  let all := SessionManager.entries (SessionManager.currentSession m) in
  let shapeOf := fun entry => shape (glyphData (SessionManager.analysis entry))
  in
  SessionManager.totalEntries stats = length all
  /\ fold_right Z.add 0%Z
       (map snd (SessionManager.glyphShapeDistribution stats))
     = Z.of_nat (length all)
  /\ NoDup (map fst (SessionManager.glyphShapeDistribution stats))
  /\ descending snd (SessionManager.glyphShapeDistribution stats)
  /\ (forall entry, In entry all ->
        In (shapeOf entry)
           (map fst (SessionManager.glyphShapeDistribution stats)))
  /\ (forall shape0 count,
        In (shape0, count) (SessionManager.glyphShapeDistribution stats) ->
        (1 <= count)%Z
        /\ count
           = Z.of_nat
               (length (filter (fun entry => sameValue (shapeOf entry) shape0)
                               all)))
  /\ (length (SessionManager.topTags stats) <= 10)%nat
  /\ descending snd (SessionManager.topTags stats)
  /\ (forall tag count,
        In (tag, count) (SessionManager.topTags stats) ->
        count
        = Z.of_nat
            (length (filter (fun key => sameValue key tag)
                            (flat_map SessionManager.tags all)))).
Proof.
  cbv zeta. unfold SessionManager.getSessionStats. cbv zeta.
  cbn [SessionManager.totalEntries SessionManager.glyphShapeDistribution
       SessionManager.topTags].
  rewrite CountFacts.shapes_flat, CountFacts.tags_flat.
  destruct (CountFacts.sorted_counter
              (map (fun entry =>
                      shape (glyphData (SessionManager.analysis entry)))
                   (SessionManager.entries (SessionManager.currentSession m))))
    as (Snd & Sdesc & Ssum & Sin & Scount).
  destruct (CountFacts.sorted_counter
              (flat_map SessionManager.tags
                 (SessionManager.entries (SessionManager.currentSession m))))
    as (_ & Tdesc & _ & _ & Tcount).
  rewrite length_map in Ssum.
  split; [reflexivity|]. split; [exact Ssum|]. split; [exact Snd|].
  split; [exact Sdesc|]. split.
  { intros entry Hentry. apply Sin.
    apply (in_map (fun entry =>
                     shape (glyphData (SessionManager.analysis entry)))).
    exact Hentry. }
  split.
  { intros shape0 count Hin. destruct (Scount shape0 count Hin) as [H1 H2].
    split; [exact H1|]. rewrite H2. f_equal.
    clear. induction (SessionManager.entries (SessionManager.currentSession m))
      as [|e l IH]; [reflexivity|].
    cbn [map filter]. destruct (sameValue _ shape0); cbn [length];
      now rewrite IH. }
  split; [rewrite length_firstn; lia|]. split.
  { apply (SortFacts.firstn_descending snd 10 _ Tdesc). }
  intros tag count Hin. apply Tcount.
  rewrite <- (firstn_skipn 10). apply in_or_app. left. exact Hin.
Qed.

(** ** The arcs of a frame *)

Module ArcFacts.
Import GlyphDrawing.

Lemma radii_app (a b : list Call) : radii (a ++ b) = radii a ++ radii b.
Proof. unfold radii. apply flat_map_app. Qed.

Lemma arc_painted (x y radius startAngle endAngle : Q) (calls : list Call) :
  0 <= radius ->
  arc x y radius startAngle endAngle calls
  = Painted (calls ++ [Arc x y radius startAngle endAngle]).
Proof.
  intros H. unfold arc.
  destruct (Qltb radius 0) eqn:E; [|reflexivity].
  apply Qltb_true in E. lra.
Qed.

Lemma arc_raised (x y radius startAngle endAngle : Q) (calls : list Call) :
  radius < 0 ->
  arc x y radius startAngle endAngle calls = Raised IndexSizeError.
Proof.
  intros H. unfold arc. apply Qltb_true in H. now rewrite H.
Qed.

(** A loop whose arcs all have radii that are not negative paints them
    all. *)
Lemma circleRings_painted (size : Q) (n : nat) :
  0 <= size ->
  forall i calls,
    (i + n <= 5)%nat ->
    exists painted,
      repeatFrom n i (circleRing size) calls = Painted painted
      /\ radii painted
         = radii calls
           ++ map (fun k => size / 2 * (1 - ofNat k * 0.2)) (seq i n).
Proof.
  intros Hsize. induction n as [|n IH]; intros i calls Hi.
  - exists calls. cbn. now rewrite app_nil_r.
  - cbn [repeatFrom]. unfold circleRing at 1. cbv zeta.
    assert (Hradius : 0 <= size / 2 * (1 - ofNat i * 0.2)).
    { apply Qmult_le_0_compat;
        [apply Qdiv_nonneg; [exact Hsize | discriminate]|].
      pose proof (ofNat_le i 4 ltac:(lia)) as Hle.
      change (ofNat 4) with 4 in Hle. lra. }
    rewrite (arc_painted _ _ _ _ _ _ Hradius). cbn [andThen].
    destruct (IH (S i) ((calls ++ [BeginPath])
                        ++ [Arc 0 0 (size / 2 * (1 - ofNat i * 0.2)) 0
                                (Math_PI * 2)]
                        ++ [Stroke] ++ (if (i =? 0)%nat then [Fill] else []))
                 ltac:(lia)) as (painted & Hp & Hr).
    exists painted. rewrite <- app_assoc in Hp |- *.
    split.
    + rewrite <- Hp. f_equal. now rewrite <- !app_assoc.
    + rewrite Hr, !radii_app. cbn [seq map].
      destruct (i =? 0)%nat; cbn; now rewrite <- !app_assoc.
Qed.

Lemma repeatFrom_raised (body : nat -> list Call -> drawing) (n i k : nat) :
  (k < n)%nat ->
  (forall calls, body (i + k)%nat calls = Raised IndexSizeError) ->
  forall calls, repeatFrom n i body calls = Raised IndexSizeError.
Proof.
  revert i k. induction n as [|n IH]; intros i k Hk Hbody calls; [lia|].
  cbn [repeatFrom]. destruct k as [|k].
  - rewrite Nat.add_0_r in Hbody. now rewrite Hbody.
  - destruct (body i calls) as [calls'|e]; cbn [andThen].
    + apply (IH (S i) k); [lia|].
      intros c. replace (S i + k)%nat with (i + S k)%nat by lia. apply Hbody.
    + now destruct e.
Qed.

End ArcFacts.

(** X23. [renderCircleGlyph] draws max(1, floor(complexity / 2)) circles
    of radii size/2 * (1 - 0.2 i). For a size that is not negative and a
    complexity under 12 these are at most 5 circles and no radius is
    negative, so that no [arc] throws; every analysis of a text has a
    complexity of at most 10. From a complexity of 14 on, on a glyph of
    positive size, the seventh radius is negative and the method throws
    [IndexSizeError]. *)
Theorem renderCircleGlyph_radii (size : Q) (analysis : ResonanceAnalysis)
  (calls : list GlyphDrawing.Call) :
  (0 <= size -> complexity (glyphData analysis) < 12 ->
   exists painted rings,
     GlyphDrawing.renderCircleGlyph size analysis calls
     = GlyphDrawing.Painted painted
     /\ Z.of_nat rings
        = Z.max 1 (Qfloor (complexity (glyphData analysis) / 2))
     /\ (1 <= rings <= 5)%nat
     /\ radii painted
        = radii calls
          ++ map (fun i => size / 2 * (1 - ofNat i * 0.2)) (seq 0 rings))
  /\ (0 < size -> 14 <= complexity (glyphData analysis) ->
      GlyphDrawing.renderCircleGlyph size analysis calls
      = GlyphDrawing.Raised GlyphDrawing.IndexSizeError)
  /\ (forall (host : Host) (text : jsstring),
        0 <= complexity (glyphData (GlyphAnalyzer.analyzeText text)) <= 10).
Proof.
  split; [|split].
  - intros Hsize Hcomplexity.
    assert (Hfloor : (Qfloor (complexity (glyphData analysis) / 2) <= 5)%Z).
    { assert (Hlt : complexity (glyphData analysis) / 2 < 6)
        by (apply Qlt_shift_div_r; [reflexivity | exact Hcomplexity]).
      pose proof (Qfloor_le (complexity (glyphData analysis) / 2)) as Hle.
      assert (H6 : inject_Z (Qfloor (complexity (glyphData analysis) / 2))
                   < inject_Z 6)
        by (eapply Qle_lt_trans; [exact Hle | exact Hlt]).
      rewrite <- Zlt_Qlt in H6. lia. }
    unfold GlyphDrawing.renderCircleGlyph. cbv zeta.
    set (rings := Z.max 1 (Qfloor (complexity (glyphData analysis) / 2)))
      in *.
    destruct (ArcFacts.circleRings_painted size (Z.to_nat rings) Hsize 0 calls
                ltac:(lia)) as (painted & Hp & Hr).
    exists painted, (Z.to_nat rings).
    split; [exact Hp|]. split; [lia|]. split; [lia | exact Hr].
  - intros Hsize Hcomplexity.
    assert (Hfloor : (7 <= Qfloor (complexity (glyphData analysis) / 2))%Z).
    { change 7%Z with (Qfloor 7). apply Qfloor_resp_le.
      apply Qle_shift_div_l; [reflexivity | exact Hcomplexity]. }
    unfold GlyphDrawing.renderCircleGlyph. cbv zeta.
    apply (ArcFacts.repeatFrom_raised _ _ 0 6); [lia|].
    intros calls'. unfold GlyphDrawing.circleRing. cbv zeta.
    rewrite ArcFacts.arc_raised; [reflexivity|].
    cbn [Nat.add]. change (ofNat 6) with 6.
    assert (E : size / 2 * (1 - 6 * 0.2) == size * (-1 # 10)) by field.
    rewrite E. lra.
  - intros host text.
    unfold GlyphAnalyzer.analyzeText, GlyphAnalyzer.analyzeTextBody,
      tryCatch. cbv zeta.
    cbn [glyphData GlyphAnalyzer.generateGlyphData complexity].
    pose proof (AnalyzerFacts.calculateCognitiveLoad_range text) as [Hc0 Hc1].
    pose proof (AnalyzerFacts.calculateSymbolicDensity_range text)
      as [Hs0 Hs1].
    set (c := GlyphAnalyzer.calculateCognitiveLoad text) in *.
    set (s := GlyphAnalyzer.calculateSymbolicDensity text) in *.
    unfold floor. split.
    + change 0 with (inject_Z (Qfloor 0)). rewrite <- Zle_Qle.
      apply Qfloor_resp_le. apply Qle_shift_div_l; [reflexivity | lra].
    + change 10 with (inject_Z (Qfloor 10)). rewrite <- Zle_Qle.
      apply Qfloor_resp_le. apply Qle_shift_div_r; [reflexivity | lra].
Qed.

Lemma renderCircleGlyph_radii_witness :
  0 <= 120 /\ complexity (glyphData GlyphAnalyzer.getDefaultAnalysis) < 12
  /\ exists painted,
       GlyphDrawing.renderCircleGlyph 120 GlyphAnalyzer.getDefaultAnalysis []
       = GlyphDrawing.Painted painted
       /\ radii painted = [120 / 2 * (1 - ofNat 0 * 0.2)].
Proof.
  assert (Hsize : 0 <= 120) by discriminate.
  assert (Hc : complexity (glyphData GlyphAnalyzer.getDefaultAnalysis) < 12)
    by reflexivity.
  split; [exact Hsize|]. split; [exact Hc|].
  destruct (renderCircleGlyph_radii 120 GlyphAnalyzer.getDefaultAnalysis [])
    as (Hpaint & _).
  destruct (Hpaint Hsize Hc) as (painted & rings & Hp & Hrings & _ & Hr).
  exists painted. split; [exact Hp|].
  assert (rings = 1%nat) by (cbn in Hrings; lia). subst rings.
  rewrite Hr. reflexivity.
Defined.

(** X24. [renderFrequencyRings] draws three rings of radii
    maxRadius * (0.3 + 0.2 i) + 20 sin(2 time + i), where maxRadius is 0.6
    times the smaller side of the canvas. With sines between -1 and 1 no
    radius is negative as soon as 0.3 maxRadius is at least 20, that is on
    every canvas whose sides are at least 112, and the method paints its
    three arcs. When the radius of the first ring is negative, which a
    smaller canvas allows, [arc] throws [IndexSizeError] and with it the
    frame. *)
Theorem renderFrequencyRings_radii {host : Host}
  (canvasWidth canvasHeight : Q) (analysis : ResonanceAnalysis)
  (x y time : Q) (calls : list GlyphDrawing.Call) :
  let maxRadius := Qmin canvasWidth canvasHeight * 0.6 in
  let radius := fun i : nat =>
    maxRadius * (0.3 + ofNat i * 0.2) + Math_sin (time * 2 + ofNat i) * 20 in
  (boundedWaves host -> 20 <= maxRadius * 0.3 ->
   exists painted,
     GlyphDrawing.renderFrequencyRings canvasWidth canvasHeight analysis
       x y time calls
     = GlyphDrawing.Painted painted
     /\ radii painted
        = radii calls ++ [radius 0%nat; radius 1%nat; radius 2%nat]
     /\ 0 <= radius 0%nat /\ 0 <= radius 1%nat /\ 0 <= radius 2%nat)
  /\ (112 <= canvasWidth -> 112 <= canvasHeight -> 20 <= maxRadius * 0.3)
  /\ (radius 0%nat < 0 ->
      GlyphDrawing.renderFrequencyRings canvasWidth canvasHeight analysis
        x y time calls
      = GlyphDrawing.Raised GlyphDrawing.IndexSizeError).
Proof.
  cbv zeta. set (maxRadius := Qmin canvasWidth canvasHeight * 0.6).
  split; [|split].
  - intros Hb Hmax.
    assert (Hr : forall i : nat,
               0 <= maxRadius * (0.3 + ofNat i * 0.2)
                    + Math_sin (time * 2 + ofNat i) * 20).
    { intros i. destruct (Hb (time * 2 + ofNat i)) as [[Hlo _] _].
      pose proof (ofNat_nonneg i) as Hi.
      assert (0 <= maxRadius) by lra.
      assert (0 <= maxRadius * (ofNat i * 0.2))
        by (apply Qmult_le_0_compat; lra).
      lra. }
    unfold GlyphDrawing.renderFrequencyRings. cbv zeta. fold maxRadius.
    cbn [GlyphDrawing.repeatFrom]. unfold GlyphDrawing.frequencyRing.
    cbv zeta.
    rewrite (ArcFacts.arc_painted _ _ _ _ _ _ (Hr 0%nat)).
    cbn [GlyphDrawing.andThen].
    rewrite (ArcFacts.arc_painted _ _ _ _ _ _ (Hr 1%nat)).
    cbn [GlyphDrawing.andThen].
    rewrite (ArcFacts.arc_painted _ _ _ _ _ _ (Hr 2%nat)).
    cbn [GlyphDrawing.andThen].
    eexists. split; [reflexivity|].
    split; [|split; [apply Hr | split; apply Hr]].
    rewrite !ArcFacts.radii_app. cbn [radii flat_map app].
    rewrite !app_nil_r, <- !app_assoc. reflexivity.
  - intros Hw Hh. unfold maxRadius.
    assert (112 <= Qmin canvasWidth canvasHeight)
      by (apply Q.min_glb; assumption).
    lra.
  - intros Hneg.
    unfold GlyphDrawing.renderFrequencyRings. cbv zeta. fold maxRadius.
    apply (ArcFacts.repeatFrom_raised _ _ 0 0); [lia|].
    intros calls'. unfold GlyphDrawing.frequencyRing. cbv zeta.
    cbn [Nat.add]. now rewrite (ArcFacts.arc_raised _ _ _ _ _ _ Hneg).
Qed.

Lemma renderFrequencyRings_radii_witness :
  boundedWaves clampedHost /\ 20 <= Qmin 400 400 * 0.6 * 0.3
  /\ exists painted,
       @GlyphDrawing.renderFrequencyRings clampedHost 400 400
         GlyphAnalyzer.getDefaultAnalysis 200 200 0 []
       = GlyphDrawing.Painted painted.
Proof.
  assert (Hb : boundedWaves clampedHost).
  { intros v. cbn [Math_sin Math_cos clampedHost]. split; split;
      first [ apply Q.le_max_l
            | apply Q.max_lub; [discriminate | apply Q.le_min_l] ]. }
  assert (Hmax : 20 <= Qmin 400 400 * 0.6 * 0.3) by discriminate.
  split; [exact Hb|]. split; [exact Hmax|].
  destruct (@renderFrequencyRings_radii clampedHost 400 400
              GlyphAnalyzer.getDefaultAnalysis 200 200 0 [])
    as (Hpaint & _).
  destruct (Hpaint Hb Hmax) as (painted & Hp & _).
  exists painted. exact Hp.
Defined.
